(** * Seat allocation: the seat and booking routes of the auditorium server

    A shallow embedding of the seat routes and the booking routes (both in
    [server/routes/seats.js] here, the booking router after the seat router),
    of [server/middleware/upload.js] and of the two Mongoose schemas, with
    the properties of the allocation engine stated over it.

    Conventions of the embedding.
    - A collection is the list of its documents in storage order.  No handler
      deletes a document, so the position of a document is a stable unique
      key: it plays the part of the [_id] that MongoDB assigns.
    - [toUpperCase], [toLowerCase], [trim] and the regular expression class
      [\s] are JavaScript's on strings of ASCII characters ([Js.ascii_only]);
      beyond ASCII JavaScript maps and trims more, so a property that holds
      of the code for ASCII text only is stated with that hypothesis.
    - The [_id] parameter of a booking route is a string; it casts to an
      ObjectId or it does not ([IdParam]).
    - [Number(req.body.amount)] is [NaN] or a rational; the code only compares
      it with 0 and 1. *)

From Stdlib Require Import Ascii String DecimalString DecimalNat QArith Lia.
From stdpp Require Import base decidable option numbers list strings sorting gmap.

Local Open Scope string_scope.
Local Open Scope list_scope.
Local Open Scope nat_scope.

(** ** JavaScript strings *)

Module Js.

Definition code (c : ascii) : nat := nat_of_ascii c.

Definition is_upper (c : ascii) : bool := (65 <=? code c) && (code c <=? 90).
Definition is_lower (c : ascii) : bool := (97 <=? code c) && (code c <=? 122).
Definition is_digit (c : ascii) : bool := (48 <=? code c) && (code c <=? 57).

(** [\s] restricted to ASCII: TAB, LF, VT, FF, CR and the space. *)
Definition is_space (c : ascii) : bool :=
  ((9 <=? code c) && (code c <=? 13)) || (code c =? 32).

(** The case mappings restricted to ASCII: the 26 letters are mapped and
    every other character is kept.  JavaScript maps further characters, and
    some of them to ASCII letters or to several characters. *)
Definition upper_char (c : ascii) : ascii :=
  if is_lower c then ascii_of_nat (code c - 32) else c.
Definition lower_char (c : ascii) : ascii :=
  if is_upper c then ascii_of_nat (code c + 32) else c.

Fixpoint map_chars (f : ascii → ascii) (s : string) : string :=
  match s with
  | EmptyString => EmptyString
  | String c s' => String (f c) (map_chars f s')
  end.

(** [s.toUpperCase()] and [s.toLowerCase()] on ASCII text. *)
Definition toUpperCase : string → string := map_chars upper_char.
Definition toLowerCase : string → string := map_chars lower_char.

(** [s.trimStart()], [s.trimEnd()] and [s.trim()] on ASCII text. *)
Fixpoint trimStart (s : string) : string :=
  match s with
  | String c s' => if is_space c then trimStart s' else s
  | EmptyString => EmptyString
  end.

(** [trimEnd] keeps a character when it is not a space or when something
    that is kept follows it. *)
Fixpoint trimEnd (s : string) : string :=
  match s with
  | EmptyString => EmptyString
  | String c s' =>
      match trimEnd s' with
      | EmptyString => if is_space c then EmptyString else String c EmptyString
      | t => String c t
      end
  end.

Definition trim (s : string) : string := trimEnd (trimStart s).

(** [s.split(sep)] for a one-character separator: always at least one
    piece, empty pieces kept. *)
Fixpoint split (sep : ascii) (s : string) : list string :=
  match s with
  | EmptyString => [EmptyString]
  | String c s' =>
      if Ascii.eqb c sep then EmptyString :: split sep s'
      else match split sep s' with
           | p :: ps => String c p :: ps
           | [] => [String c EmptyString]
           end
  end.

(** [s.split("")]: the characters of [s]. *)
Fixpoint chars (s : string) : list string :=
  match s with
  | EmptyString => []
  | String c s' => String c EmptyString :: chars s'
  end.

(** [Boolean(s)] for a string. *)
Definition truthy (s : string) : bool :=
  match s with EmptyString => false | _ => true end.

(** [Boolean(x)] for a value that is a string or [undefined]. *)
Definition truthy_opt (x : option string) : bool :=
  match x with Some s => truthy s | None => false end.

(** [l.join(sep)]. *)
Definition join (sep : string) (l : list string) : string := String.concat sep l.

(** [`${n}`] for a non-negative integer. *)
Definition of_nat (n : nat) : string := NilZero.string_of_uint (Nat.to_uint n).

(** The strings on which the functions above are JavaScript's own: those
    of ASCII characters.  Beyond them JavaScript maps and trims more. *)
Definition is_ascii (c : ascii) : bool := code c <? 128.

Fixpoint ascii_only (s : string) : bool :=
  match s with
  | EmptyString => true
  | String c s' => is_ascii c && ascii_only s'
  end.

(** [Number(x)]: not-a-number or a finite value. *)
Inductive Number := NaN | Num (q : Q).

(** [Boolean(x)] for a number: false for [NaN] and for zero. *)
Definition truthy_num (x : Number) : bool :=
  match x with NaN => false | Num q => negb (Qeq_bool q 0) end.

End Js.

(** ** Regular expressions

    The schemas and the upload filter test strings against anchored
    patterns ([^...$], no multiline flag), that is, they ask whether the
    whole string is in the language of the pattern.  The matcher below
    decides that by derivatives. *)

Module Re.

Inductive t :=
| Void
| Eps
| Cls (p : ascii → bool)
| Cat (r s : t)
| Alt (r s : t)
| Star (r : t).

Fixpoint nullable (r : t) : bool :=
  match r with
  | Void => false
  | Eps => true
  | Cls _ => false
  | Cat r s => nullable r && nullable s
  | Alt r s => nullable r || nullable s
  | Star _ => true
  end.

Fixpoint deriv (c : ascii) (r : t) : t :=
  match r with
  | Void => Void
  | Eps => Void
  | Cls p => if p c then Eps else Void
  | Cat r s =>
      if nullable r then Alt (Cat (deriv c r) s) (deriv c s)
      else Cat (deriv c r) s
  | Alt r s => Alt (deriv c r) (deriv c s)
  | Star r => Cat (deriv c r) (Star r)
  end.

Fixpoint test (r : t) (s : string) : bool :=
  match s with
  | EmptyString => nullable r
  | String c s' => test (deriv c r) s'
  end.

Definition chr (c : ascii) : t := Cls (Ascii.eqb c).
(** A literal character under the [i] flag. *)
Definition chr_i (c : ascii) : t := Cls (λ x, Ascii.eqb (Js.lower_char x) (Js.lower_char c)).
Definition opt (r : t) : t := Alt Eps r.
Definition plus (r : t) : t := Cat r (Star r).
Fixpoint rep (n : nat) (r : t) : t :=
  match n with O => Eps | S n' => Cat r (rep n' r) end.
Fixpoint lit (s : string) : t :=
  match s with
  | EmptyString => Eps
  | String c s' => Cat (chr c) (lit s')
  end.
Fixpoint lit_i (s : string) : t :=
  match s with
  | EmptyString => Eps
  | String c s' => Cat (chr_i c) (lit_i s')
  end.

End Re.

(** ** The schemas *)

Abbreviation ObjectId := nat (only parsing).

Module Seat.

Inductive Status := available | occupied.
Inductive Type_ := primary | premium.

Record t := mk {
  label : string;
  row : string;
  number : nat;
  type : Type_;
  status : Status;
  occupiedByBookingId : option ObjectId
}.

#[global] Instance Status_eq_dec : EqDecision Status := ltac:(solve_decision).

End Seat.

Module Booking.

Inductive Status := pending | approved | rejected.

Record t := mk {
  email : string;
  phone : string;
  amount : Q;
  seatLabels : list string;
  seatIds : list ObjectId;
  screenshotFileId : ObjectId;
  screenshotFilename : string;
  screenshotMimetype : string;
  screenshotSize : N;
  status : Status;
  adminNotes : option string
}.

#[global] Instance Status_eq_dec : EqDecision Status := ltac:(solve_decision).

(** The [enum] strings of the schema, as the handlers print them. *)
Definition status_name (s : Status) : string :=
  match s with
  | pending => "pending"
  | approved => "approved"
  | rejected => "rejected"
  end.

(** [match: /^[^\s@]+@[^\s@]+\.[^\s@]+$/] *)
Definition email_re : Re.t :=
  let word := Re.plus (Re.Cls (λ c, negb (Js.is_space c || Ascii.eqb c "@"))) in
  Re.Cat word (Re.Cat (Re.chr "@") (Re.Cat word (Re.Cat (Re.chr ".") word))).

(** [match: /^(\+?91)?[6-9]\d{9}$|^\d{10}$/] *)
Definition phone_re : Re.t :=
  let digit := Re.Cls Js.is_digit in
  let six_to_nine := Re.Cls (λ c, (54 <=? Js.code c) && (Js.code c <=? 57)) in
  Re.Alt
    (Re.Cat (Re.opt (Re.Cat (Re.opt (Re.chr "+")) (Re.lit "91")))
            (Re.Cat six_to_nine (Re.rep 9 digit)))
    (Re.rep 10 digit).

End Booking.

(** The validators of the booking schema, which [Booking.create] and
    [booking.save()] run on the whole document: [required] and [match] on
    the two strings, [min: 1] on the amount.  The file id is present and the
    seat labels are an array, so their [required] validators pass: since
    Mongoose 5, which the session API of the approve handler needs,
    [required] on an array path accepts the empty array. *)
Definition validate (b : Booking.t) : bool :=
  Re.test Booking.email_re (Booking.email b)
  && Re.test Booking.phone_re (Booking.phone b)
  && Qle_bool 1 (Booking.amount b).

(** The validators of the seat schema, which [seat.save()] runs on the
    whole document: [required] refuses the empty string on [label] and on
    [row]; a number and a value of each enum are always there.  The bulk
    write and [findOneAndUpdate] of the seat routes run no validator. *)
Definition validate_seat (s : Seat.t) : bool :=
  Js.truthy (Seat.label s) && Js.truthy (Seat.row s).

(** A file as multer hands it to the handler ([req.file]); the bytes of the
    buffer are opaque to the code and are not modelled. *)
Record File := mkFile {
  originalname : string;
  mimetype : string;
  size : N
}.

(** A file of the GridFS bucket ["uploads"]. *)
Record GridFile := mkGridFile {
  filename : string;
  contentType : string;
  gf_length : N;
  metadata : string * string * list string * Q
}.

(** The persisted state: the two collections and the bucket. *)
Record Db := mkDb {
  seats : list Seat.t;
  bookings : list Booking.t;
  uploads : list GridFile
}.

(** ** Responses *)

Inductive Body :=
| ErrorJson (error : string)
| InitJson (message : string) (total : nat)
| SeatJson (message : string) (seat : Seat.t)
| SubmittedJson (message : string) (bookingId : ObjectId)
| ApprovedJson (message : string) (bookingId : ObjectId) (seats : list string)
| RejectedJson (message : string) (bookingId : ObjectId)
| NextError (message : string).

Record Response := mkResponse { code : nat; body : Body }.

Definition json (b : Body) : Response := mkResponse 200 b.
Definition error (c : nat) (msg : string) : Response := mkResponse c (ErrorJson msg).

(** ** [routes/seats.js] *)

(** [rowToType]: rows K to T are premium, every other row is primary. *)
Definition premiumRows : list string :=
  ["K"; "L"; "M"; "N"; "O"; "P"; "Q"; "R"; "S"; "T"].

Definition rowToType (row : string) : Seat.Type_ :=
  if bool_decide (Js.toUpperCase row ∈ premiumRows) then Seat.premium else Seat.primary.

(** The body of [POST /api/seats/init]: [rows] is [None] when the field is
    absent or not an array, [perRow] is [None] when it is absent or not an
    integer. *)
Record InitBody := mkInitBody {
  rows : option (list string);
  perRow : option Z
}.

Definition defaultRows : list string := Js.chars "ABCDEFGHIJKLMNOPQRST".

Definition init_rows (b : InitBody) : list string :=
  match rows b with
  | Some (r :: rs) => map Js.toUpperCase (r :: rs)
  | _ => defaultRows
  end.

Definition init_perRow (b : InitBody) : nat :=
  match perRow b with
  | Some n => if (0 <? n)%Z then Z.to_nat n else 20
  | None => 20
  end.

(** One [updateOne] of the bulk write: the filter label and the [$set]
    fields. *)
Record UpdateOne := mkUpdateOne {
  u_label : string;
  u_row : string;
  u_number : nat;
  u_type : Seat.Type_
}.

Definition seat_op (r : string) (n : nat) : UpdateOne :=
  mkUpdateOne (r ++ Js.of_nat n) r n (rowToType r).

(** The two nested loops that fill [bulk]. *)
Definition bulk_of (rs : list string) (per : nat) : list UpdateOne :=
  flat_map (λ r, map (seat_op r) (seq 1 per)) rs.

(** [$set: { row, number, type, label }] on an existing document. *)
Definition set_fields (u : UpdateOne) (s : Seat.t) : Seat.t :=
  Seat.mk (u_label u) (u_row u) (u_number u) (u_type u)
          (Seat.status s) (Seat.occupiedByBookingId s).

(** The document an upsert inserts: [$set] and [$setOnInsert]. *)
Definition inserted (u : UpdateOne) : Seat.t :=
  Seat.mk (u_label u) (u_row u) (u_number u) (u_type u) Seat.available None.

(** [updateOne] with [upsert: true]: the first document with the label is
    updated; when there is none, one is inserted at the end. *)
Fixpoint upsert (u : UpdateOne) (l : list Seat.t) : list Seat.t :=
  match l with
  | [] => [inserted u]
  | s :: l' =>
      if decide (Seat.label s = u_label u) then set_fields u s :: l'
      else s :: upsert u l'
  end.

Definition bulkWrite (ops : list UpdateOne) (l : list Seat.t) : list Seat.t :=
  foldl (λ acc u, upsert u acc) l ops.

Definition with_seats (d : Db) (l : list Seat.t) : Db :=
  mkDb l (bookings d) (uploads d).
Definition with_bookings (d : Db) (l : list Booking.t) : Db :=
  mkDb (seats d) l (uploads d).
Definition with_uploads (d : Db) (l : list GridFile) : Db :=
  mkDb (seats d) (bookings d) l.

(** [POST /api/seats/init] *)
Definition initializeInventory (b : InitBody) (d : Db) : Response * Db :=
  let bulk := bulk_of (init_rows b) (init_perRow b) in
  let d' := with_seats d (bulkWrite bulk (seats d)) in
  let total := length (seats d') in
  (json (InitJson "Seats initialized/upserted" total), d').

(** [Seat.findOneAndUpdate({ label }, { $set: ... }, { new: true })]: the
    first document with the label is updated and returned. *)
Fixpoint findOneAndUpdate (lbl : string) (f : Seat.t → Seat.t) (l : list Seat.t)
  : option Seat.t * list Seat.t :=
  match l with
  | [] => (None, [])
  | s :: l' =>
      if decide (Seat.label s = lbl) then (Some (f s), f s :: l')
      else let '(r, l'') := findOneAndUpdate lbl f l' in (r, s :: l'')
  end.

Definition set_occupied (s : Seat.t) : Seat.t :=
  Seat.mk (Seat.label s) (Seat.row s) (Seat.number s) (Seat.type s)
          Seat.occupied (Seat.occupiedByBookingId s).

Definition set_released (s : Seat.t) : Seat.t :=
  Seat.mk (Seat.label s) (Seat.row s) (Seat.number s) (Seat.type s)
          Seat.available None.

(** [PATCH /api/seats/:label/occupy] *)
Definition occupySeat (param : string) (d : Db) : Response * Db :=
  let label := Js.toUpperCase param in
  match findOneAndUpdate label set_occupied (seats d) with
  | (None, _) => (error 404 "Seat not found", d)
  | (Some seat, l) =>
      (json (SeatJson (label ++ " marked as occupied") seat), with_seats d l)
  end.

(** [PATCH /api/seats/:label/release] *)
Definition releaseSeat (param : string) (d : Db) : Response * Db :=
  let label := Js.toUpperCase param in
  match findOneAndUpdate label set_released (seats d) with
  | (None, _) => (error 404 "Seat not found", d)
  | (Some seat, l) =>
      (json (SeatJson (label ++ " released to available") seat), with_seats d l)
  end.

(** ** Storage operations, transactions and failures

    A handler runs in a [World]: the durable state [db], the view [txn] of
    the open transaction (writes made with [{ session }] land there and
    reach [db] only at commit), and a counter of the storage operations
    awaited so far.  [fault] names the operation that fails, if any: awaiting
    it throws and leaves the state as it was.  [txn_state] is the state of
    the transaction as the driver keeps it in the session.
    [mongoose.startSession()] creates the session object without asking
    anything of the store and is not among the operations that fail. *)

Inductive TxnState := NoTransaction | InProgress | Committed | Aborted.

Record World := mkWorld {
  db : Db;
  txn : Db;
  tick : nat;
  fault : option nat;
  txn_state : TxnState
}.

Inductive Result (A : Type) :=
| Ok (a : A) (w : World)
| Throw (w : World).
Arguments Ok {A} a w.
Arguments Throw {A} w.

Definition M (A : Type) : Type := World → Result A.

Definition ret {A} (a : A) : M A := λ w, Ok a w.

Definition bind {A B} (m : M A) (k : A → M B) : M B :=
  λ w, match m w with
       | Ok a w' => k a w'
       | Throw w' => Throw w'
       end.

Definition throw {A} : M A := λ w, Throw w.

(** [try { m } catch (e) { h }] *)
Definition try_catch {A} (m : M A) (h : M A) : M A :=
  λ w, match m w with
       | Ok a w' => Ok a w'
       | Throw w' => h w'
       end.

Declare Scope handler_scope.
Delimit Scope handler_scope with handler.
Notation "'let*' x := m 'in' k" := (bind m (λ x, k))
  (at level 10, x name, m at level 100, k at level 200) : handler_scope.
Notation "m ;;; k" := (bind m (λ _, k))
  (at level 100, k at level 200, right associativity) : handler_scope.
Local Open Scope handler_scope.

Definition next (w : World) : World :=
  mkWorld (db w) (txn w) (S (tick w)) (fault w) (txn_state w).

(** Whether the operation about to be awaited is the one that fails. *)
Definition fails (w : World) : bool :=
  match fault w with
  | Some k => Nat.eqb k (tick w)
  | None => false
  end.

(** [await op]: one storage operation. *)
Definition await {A} (op : World → A * World) : M A :=
  λ w, if fails w then Throw (next w)
       else let '(a, w') := op w in Ok a (next w').

(** A read or a write bound to the session acts on the view. *)
Definition in_session {A} (f : Db → A * Db) : M A :=
  await (λ w, let '(a, t) := f (txn w) in
              (a, mkWorld (db w) t (tick w) (fault w) (txn_state w))).

(** A read or a write without a session acts on the durable state. *)
Definition direct {A} (f : Db → A * Db) : M A :=
  await (λ w, let '(a, d) := f (db w) in
              (a, mkWorld d (txn w) (tick w) (fault w) (txn_state w))).

(** [session.startTransaction()]: the view starts as the durable state. *)
Definition startTransaction : M unit :=
  λ w, Ok tt (mkWorld (db w) (db w) (tick w) (fault w) InProgress).

(** [await session.abortTransaction()]: the view is dropped.  The driver
    ignores what the server answers to an abort, so aborting a transaction
    in progress never throws.  It throws, asking nothing of the store, when
    no transaction is in progress: before one is started, after an abort,
    and after [commitTransaction] has been called, whether that call
    returned or threw. *)
Definition abortTransaction : M unit :=
  λ w, match txn_state w with
       | InProgress => Ok tt (mkWorld (db w) (db w) (tick w) (fault w) Aborted)
       | _ => Throw w
       end.

(** [await session.commitTransaction()]: the driver marks the transaction
    as committed and asks the store to commit; when that succeeds the view
    becomes durable. *)
Definition commitTransaction : M unit :=
  λ w, match txn_state w with
       | InProgress =>
           await (λ w', (tt, mkWorld (txn w') (txn w') (tick w') (fault w') Committed))
                 (mkWorld (db w) (txn w) (tick w) (fault w) Committed)
       | _ => Throw w
       end.

(** [for (const x of l) { await f(x) }] *)
Fixpoint for_of {A} (l : list A) (f : A → M unit) : M unit :=
  match l with
  | [] => ret tt
  | x :: l' => f x ;;; for_of l' f
  end.

(** Run a handler on a database; a handler that throws past its own
    [catch] leaves the request unanswered. *)
Definition run (f : option nat) (m : M Response) (d : Db) : option Response * Db :=
  match m (mkWorld d d 0 f NoTransaction) with
  | Ok r w => (Some r, db w)
  | Throw w => (None, db w)
  end.

(** ** [routes/bookings.js]: approve and reject *)

(** The route parameter [req.params.id]: a string that casts to an
    ObjectId, or one that does not.  An id stands for the parameter that
    casts to it. *)
Inductive IdParam := WellFormed (id : ObjectId) | Malformed.
Coercion WellFormed : nat >-> IdParam.

(** [Booking.findById(id)], run by [query] (bound to the session or not):
    Mongoose casts the id first, and a parameter that is no ObjectId makes
    the query throw a CastError before the store is asked; the document
    found comes with its [_id]. *)
Definition findById
    (query : (Db → option (ObjectId * Booking.t) * Db) → M (option (ObjectId * Booking.t)))
    (id : IdParam) : M (option (ObjectId * Booking.t)) :=
  match id with
  | WellFormed _id => query (λ d, (pair _id <$> bookings d !! _id, d))
  | Malformed => throw
  end.

(** [Seat.find({ label: { $in: labels } })]: the documents, with their
    identities, in storage order. *)
Definition find_in (labels : list string) (d : Db) : list (ObjectId * Seat.t) * Db :=
  (filter (λ p, Seat.label p.2 ∈ labels) (imap pair (seats d)), d).

(** [seat.save({ session })]: the document is validated first, and a
    failure throws before the store is asked; then the write, bound to the
    session. *)
Definition save_seat (p : ObjectId * Seat.t) : M unit :=
  if validate_seat p.2 then
    in_session (λ d, (tt, with_seats d (<[p.1 := p.2]> (seats d))))
  else throw.

(** [booking.save()], the write run by [query] (bound to the session or
    not), after the validation. *)
Definition save_booking (query : (Db → unit * Db) → M unit)
    (id : ObjectId) (b : Booking.t) : M unit :=
  if validate b then
    query (λ d, (tt, with_bookings d (<[id := b]> (bookings d))))
  else throw.

(** [seat.status = "occupied"; seat.occupiedByBookingId = booking._id] *)
Definition occupy_for (id : ObjectId) (s : Seat.t) : Seat.t :=
  Seat.mk (Seat.label s) (Seat.row s) (Seat.number s) (Seat.type s)
          Seat.occupied (Some id).

(** [if (req.body?.adminNotes) booking.adminNotes = req.body.adminNotes] *)
Definition note (adminNotes : option string) (old : option string) : option string :=
  if Js.truthy_opt adminNotes then adminNotes else old.

Definition decide_booking (st : Booking.Status) (ids : list ObjectId)
    (adminNotes : option string) (b : Booking.t) : Booking.t :=
  Booking.mk (Booking.email b) (Booking.phone b) (Booking.amount b)
             (Booking.seatLabels b) ids
             (Booking.screenshotFileId b) (Booking.screenshotFilename b)
             (Booking.screenshotMimetype b) (Booking.screenshotSize b)
             st (note adminNotes (Booking.adminNotes b)).

(** [booking.seatLabels.filter(l => !foundLabels.has(l))] *)
Definition missing_labels (requested : list string) (found : list (ObjectId * Seat.t))
  : list string :=
  filter (λ l, l ∉ (λ p, Seat.label p.2) <$> found) requested.

(** [seats.filter(s => s.status !== "available").map(s => s.label)] *)
Definition occupied_labels (found : list (ObjectId * Seat.t)) : list string :=
  (λ p, Seat.label p.2) <$> filter (λ p, Seat.status p.2 ≠ Seat.available) found.

(** [for (const seat of seats) { seat.status = ...; await seat.save({ session }) }] *)
Definition save_loop (id : ObjectId) (found : list (ObjectId * Seat.t)) : M unit :=
  for_of found (λ p, save_seat (p.1, occupy_for id p.2)).

(** The [try] block of [POST /api/bookings/:id/approve]. *)
Definition approve_try (bookingId : IdParam) (adminNotes : option string) : M Response :=
  let* booking := findById in_session bookingId in
  match booking with
  | None =>
      abortTransaction ;;;
      ret (error 404 "Booking not found")
  | Some (_id, booking) =>
      if decide (Booking.status booking ≠ Booking.pending) then
        abortTransaction ;;;
        ret (error 400 ("Booking status is " ++ Booking.status_name (Booking.status booking)
                        ++ ", cannot approve"))
      else
        let* found := in_session (find_in (Booking.seatLabels booking)) in
        let missing := missing_labels (Booking.seatLabels booking) found in
        if negb (Nat.eqb (length missing) 0) then
          abortTransaction ;;;
          ret (error 400 ("Seats not found: " ++ Js.join ", " missing))
        else
          let occupied := occupied_labels found in
          if negb (Nat.eqb (length occupied) 0) then
            abortTransaction ;;;
            ret (error 409 ("Seats already occupied: " ++ Js.join ", " occupied))
          else
            save_loop _id found ;;;
            let booking' :=
              decide_booking Booking.approved (fst <$> found) adminNotes booking in
            save_booking in_session _id booking' ;;;
            commitTransaction ;;;
            ret (json (ApprovedJson "Approved and seats marked as occupied"
                                    _id (Booking.seatLabels booking')))
  end.

(** [POST /api/bookings/:id/approve] *)
Definition approve_handler (bookingId : IdParam) (adminNotes : option string) : M Response :=
  startTransaction ;;;
  try_catch (approve_try bookingId adminNotes)
            (abortTransaction ;;; ret (error 500 "Approve failed")).

Definition approveBooking (f : option nat) (bookingId : IdParam)
    (adminNotes : option string) (d : Db) : option Response * Db :=
  run f (approve_handler bookingId adminNotes) d.

(** [POST /api/bookings/:id/reject] *)
Definition reject_handler (id : IdParam) (adminNotes : option string) : M Response :=
  try_catch
    (let* booking := findById direct id in
     match booking with
     | None => ret (error 404 "Booking not found")
     | Some (_id, booking) =>
         if decide (Booking.status booking ≠ Booking.pending) then
           ret (error 400 ("Booking status is " ++ Booking.status_name (Booking.status booking)
                           ++ ", cannot reject"))
         else
           let booking' :=
             decide_booking Booking.rejected (Booking.seatIds booking) adminNotes booking in
           save_booking direct _id booking' ;;;
           ret (json (RejectedJson "Booking rejected" _id))
     end)
    (ret (error 500 "Reject failed")).

Definition rejectBooking (f : option nat) (id : IdParam)
    (adminNotes : option string) (d : Db) : option Response * Db :=
  run f (reject_handler id adminNotes) d.

(** ** [middleware/upload.js] *)

(** [/^image\/(png|jpe?g|webp|gif)$/i] *)
Definition image_re : Re.t :=
  Re.Cat (Re.lit_i "image/")
    (Re.Alt (Re.lit_i "png")
      (Re.Alt (Re.Cat (Re.lit_i "jp") (Re.Cat (Re.opt (Re.chr_i "e")) (Re.chr_i "g")))
        (Re.Alt (Re.lit_i "webp") (Re.lit_i "gif")))).

Definition fileFilter (f : File) : bool := Re.test image_re (mimetype f).

Definition fileSize : N := 5 * 1024 * 1024.

(** [upload.single("screenshot")]: the error handed to [next], or
    [req.file] ([None] when the form has no such part). *)
Definition upload_single (part : option File) : string + option File :=
  match part with
  | None => inr None
  | Some f =>
      if fileFilter f then
        if (fileSize <? size f)%N then inl "File too large"
        else inr (Some f)
      else inl "Only image files allowed (png, jpg, jpeg, webp, gif)."
  end.

(** ** [routes/bookings.js]: intake *)

(** The multipart form of [POST /api/bookings]: the text fields as the
    handler reads them ([form_amount] is [Number(req.body.amount)]) and the
    uploaded part. *)
Record Form := mkForm {
  form_email : option string;
  form_phone : option string;
  form_amount : Js.Number;
  form_seats : option string;
  form_screenshot : option File
}.

(** [seatsRaw.split(",").map(s => s.trim().toUpperCase()).filter(Boolean)] *)
Definition parse_seats (seatsRaw : string) : list string :=
  filter (λ s, Js.truthy s = true)
         (map (λ s, Js.toUpperCase (Js.trim s)) (Js.split "," seatsRaw)).

(** The setters of the schema: [trim] and [lowercase] on the email, [trim]
    on the phone. *)
Definition cast_email (s : string) : string := Js.toLowerCase (Js.trim s).
Definition cast_phone (s : string) : string := Js.trim s.

(** [Booking.create(doc)]: cast, validate (a failure throws), insert. *)
Definition create (b : Booking.t) : M ObjectId :=
  if validate b then
    direct (λ d, (length (bookings d), with_bookings d (bookings d ++ [b])))
  else throw.

(** [bucket.openUploadStream(...)] and [uploadStream.end(file.buffer)]; the
    stream ends with ["finish"], giving the id of the stored file, or with
    ["error"]. *)
Definition upload_stream (g : GridFile) : M ObjectId :=
  direct (λ d, (length (uploads d), with_uploads d (uploads d ++ [g]))).

Definition required_msg : string :=
  "email, phone, amount, seats, and screenshot are required".

(** The handler of [POST /api/bookings], after the upload middleware.  The
    outermost [catch] of the source answers 500 "Server error" to a
    synchronous throw; nothing here throws synchronously. *)
Definition submit_handler (fm : Form) (file : option File) : M Response :=
  let seatsRaw := default "" (form_seats fm) in
  match form_email fm, form_phone fm, form_amount fm, file with
  | Some email, Some phone, Js.Num amount, Some file =>
      if negb (Js.truthy email) || negb (Js.truthy phone)
         || negb (Js.truthy_num (Js.Num amount)) || negb (Js.truthy seatsRaw)
      then ret (error 400 required_msg)
      else
        let seatLabels := parse_seats seatsRaw in
        try_catch
          (let* fileId :=
             upload_stream (mkGridFile (originalname file) (mimetype file) (size file)
                                       (email, phone, seatLabels, amount)) in
           try_catch
             (let* id :=
                create (Booking.mk (cast_email email) (cast_phone phone) amount
                                   seatLabels [] fileId (originalname file)
                                   (mimetype file) (size file) Booking.pending None) in
              ret (mkResponse 201
                     (SubmittedJson "Booking submitted and pending verification" id)))
             (ret (error 500 "Failed to save booking after upload")))
          (ret (error 500 "Failed to upload screenshot"))
  | _, _, _, _ => ret (error 400 required_msg)
  end.

(** [router.post("/", upload.single("screenshot"), handler)] *)
Definition createPendingBooking (f : option nat) (fm : Form) (d : Db)
  : option Response * Db :=
  match upload_single (form_screenshot fm) with
  | inl msg => (Some (mkResponse 500 (NextError msg)), d)
  | inr file => run f (submit_handler fm file) d
  end.

(** ** The operations of the system *)

Inductive Op :=
| Init (b : InitBody)
| Occupy (label : string)
| Release (label : string)
| Submit (f : option nat) (fm : Form)
| Approve (f : option nat) (id : IdParam) (adminNotes : option string)
| Reject (f : option nat) (id : IdParam) (adminNotes : option string).

Definition step (o : Op) (d : Db) : Db :=
  match o with
  | Init b => (initializeInventory b d).2
  | Occupy l => (occupySeat l d).2
  | Release l => (releaseSeat l d).2
  | Submit f fm => (createPendingBooking f fm d).2
  | Approve f id n => (approveBooking f id n d).2
  | Reject f id n => (rejectBooking f id n d).2
  end.

Definition exec (ops : list Op) (d : Db) : Db := foldl (λ acc o, step o acc) d ops.

(** ** Vocabulary of the properties *)

(** The seat invariant of the data model, and the half of it that every
    operation keeps. *)
Definition linked_then_occupied (s : Seat.t) : Prop :=
  Seat.occupiedByBookingId s ≠ None → Seat.status s = Seat.occupied.
Definition seat_inv (s : Seat.t) : Prop :=
  Seat.occupiedByBookingId s ≠ None ↔ Seat.status s = Seat.occupied.

(** The identities of the occupied seats. *)
Definition occupied_ids (d : Db) : list ObjectId :=
  fst <$> filter (λ p, Seat.status p.2 = Seat.occupied) (imap pair (seats d)).

(** The view after the loop of saves of the approve handler. *)
Definition occupy_all (id : ObjectId) (found : list (ObjectId * Seat.t))
    (l : list Seat.t) : list Seat.t :=
  foldl (λ acc p, <[p.1 := occupy_for id p.2]> acc) l found.

(** The database a successful approval leaves. *)
Definition approved_db (id : ObjectId) (adminNotes : option string)
    (b : Booking.t) (d : Db) : Db :=
  let found := (find_in (Booking.seatLabels b) d).1 in
  mkDb (occupy_all id found (seats d))
       (<[id := decide_booking Booking.approved (fst <$> found) adminNotes b]> (bookings d))
       (uploads d).

Definition approved_response (id : ObjectId) (b : Booking.t) : Response :=
  json (ApprovedJson "Approved and seats marked as occupied" id (Booking.seatLabels b)).

Definition rejected_db (id : ObjectId) (adminNotes : option string)
    (b : Booking.t) (d : Db) : Db :=
  with_bookings d
    (<[id := decide_booking Booking.rejected (Booking.seatIds b) adminNotes b]> (bookings d)).

(** Every document that the approval of [b] saves passes the validators
    of its schema. *)
Definition saves_valid (b : Booking.t) (d : Db) : bool :=
  forallb (λ p, validate_seat p.2) (find_in (Booking.seatLabels b) d).1 && validate b.

(** The labels the approve handler reports. *)
Definition unresolved (b : Booking.t) (d : Db) : list string :=
  missing_labels (Booking.seatLabels b) (find_in (Booking.seatLabels b) d).1.
Definition conflicting (b : Booking.t) (d : Db) : list string :=
  occupied_labels (find_in (Booking.seatLabels b) d).1.

(** The four failures of the approve handler. *)
Definition NotFound : Response := error 404 "Booking not found".
Definition InvalidState (st : Booking.Status) : Response :=
  error 400 ("Booking status is " ++ Booking.status_name st ++ ", cannot approve").
Definition UnresolvedSeats (missing : list string) : Response :=
  error 400 ("Seats not found: " ++ Js.join ", " missing).
Definition Conflict (occupied : list string) : Response :=
  error 409 ("Seats already occupied: " ++ Js.join ", " occupied).

(** The answers of the two [catch] blocks. *)
Definition ApproveFailed : Response := error 500 "Approve failed".
Definition RejectFailed : Response := error 500 "Reject failed".

(** The claim on the order of the resolved references: the i-th reference
    is the seat that carries the i-th requested label. *)
Definition refs_follow_request (d : Db) (b : Booking.t) : Prop :=
  (λ i, Seat.label <$> seats d !! i) <$> Booking.seatIds b
  = Some <$> Booking.seatLabels b.

(** A seat carries the structural fields of an entry of the scheme. *)
Definition matches (u : UpdateOne) (s : Seat.t) : Prop :=
  Seat.label s = u_label u ∧ Seat.row s = u_row u
  ∧ Seat.number s = u_number u ∧ Seat.type s = u_type u.

(** A text field that is absent or empty. *)
Definition blank (x : option string) : Prop := x = None ∨ x = Some "".

(** An amount that is not a number or is zero. *)
Definition no_amount (x : Js.Number) : Prop :=
  x = Js.NaN ∨ ∃ q, x = Js.Num q ∧ (q == 0)%Q.

(** What the upload middleware lets through. *)
Definition accepted (file : File) : Prop :=
  fileFilter file = true ∧ (size file ≤ fileSize)%N.

Definition email_ok (email : string) : Prop :=
  Re.test Booking.email_re (cast_email email) = true.
Definition phone_ok (phone : string) : Prop :=
  Re.test Booking.phone_re (cast_phone phone) = true.

(** ** Sample data *)

Definition db0 : Db := mkDb [] [] [].

(** Rows A and B with two seats each: A1, A2, B1, B2. *)
Definition hall : Db :=
  (initializeInventory (mkInitBody (Some ["A"; "B"]) (Some 2%Z)) db0).2.

Definition request (labels : list string) : Booking.t :=
  Booking.mk "bob@example.org" "9876543210" 100 labels [] 0
             "proof.png" "image/png" 1000 Booking.pending None.

(** A hall initialised with the row [""] and one seat, and a pending booking
    for that seat. *)
Definition unnamed : Db :=
  with_bookings (initializeInventory (mkInitBody (Some [""]) (Some 1%Z)) db0).2
                [request ["1"]].

(** Four pending bookings over the hall. *)
Definition sample : Db :=
  with_bookings hall
    [request ["B1"; "A2"]; request ["A1"; "Z9"]; request ["A2"]; request ["A1"; "A1"]].

(** A form with a sound contact, amount 100, the given seats field and a
    small PNG. *)
Definition form (email : string) (amount : Q) (seatsRaw : string) : Form :=
  mkForm (Some email) (Some "9876543210") (Js.Num amount) (Some seatsRaw)
         (Some (mkFile "proof.png" "image/png" 1000)).

(** ** Vocabulary of the invariants *)

(** The occupant link of every seat names a booking that exists, is
    approved, lists the seat among its resolved references and asked for
    its label; and a linked seat is occupied. *)
Definition links_sound (d : Db) : Prop :=
  ∀ i s b, seats d !! i = Some s → Seat.occupiedByBookingId s = Some b →
    Seat.status s = Seat.occupied
    ∧ ∃ bk, bookings d !! b = Some bk
            ∧ Booking.status bk = Booking.approved
            ∧ i ∈ Booking.seatIds bk
            ∧ Seat.label s ∈ Booking.seatLabels bk.

(** The resolved references of a booking: none unless it is approved, and
    then, without repetition, the seats that carry the requested labels. *)
Definition refs_sound (d : Db) (bk : Booking.t) : Prop :=
  (Booking.status bk ≠ Booking.approved → Booking.seatIds bk = [])
  ∧ (Booking.status bk = Booking.approved →
     NoDup (Booking.seatIds bk)
     ∧ (∀ i, i ∈ Booking.seatIds bk →
          ∃ s, seats d !! i = Some s ∧ Seat.label s ∈ Booking.seatLabels bk)
     ∧ (∀ l, l ∈ Booking.seatLabels bk →
          ∃ i s, i ∈ Booking.seatIds bk ∧ seats d !! i = Some s ∧ Seat.label s = l)).

(** A stored booking passes the validators of its schema, its email is in
    lower case, and its screenshot is a file of the bucket with the name,
    type and size recorded in the booking. *)
Definition booking_valid (d : Db) (bk : Booking.t) : Prop :=
  validate bk = true
  ∧ Js.toLowerCase (Booking.email bk) = Booking.email bk
  ∧ ∃ g, uploads d !! Booking.screenshotFileId bk = Some g
         ∧ filename g = Booking.screenshotFilename bk
         ∧ contentType g = Booking.screenshotMimetype bk
         ∧ gf_length g = Booking.screenshotSize bk.

(** The writes the operations make to the database, one constructor per
    kind of write with what the handler has checked before it. *)
Inductive Change (d : Db) : Db → Prop :=
| ch_none : Change d d
| ch_bulk ops : Change d (with_seats d (bulkWrite ops (seats d)))
| ch_occupy lbl :
    Change d (with_seats d (findOneAndUpdate lbl set_occupied (seats d)).2)
| ch_release lbl :
    Change d (with_seats d (findOneAndUpdate lbl set_released (seats d)).2)
| ch_upload g : Change d (with_uploads d (uploads d ++ [g]))
| ch_submit g b :
    validate b = true →
    Js.toLowerCase (Booking.email b) = Booking.email b →
    Booking.status b = Booking.pending →
    Booking.seatIds b = [] →
    Booking.screenshotFileId b = length (uploads d) →
    filename g = Booking.screenshotFilename b →
    contentType g = Booking.screenshotMimetype b →
    gf_length g = Booking.screenshotSize b →
    Change d (mkDb (seats d) (bookings d ++ [b]) (uploads d ++ [g]))
| ch_approve id n b :
    bookings d !! id = Some b →
    Booking.status b = Booking.pending →
    unresolved b d = [] →
    conflicting b d = [] →
    Change d (approved_db id n b d)
| ch_reject id n b :
    bookings d !! id = Some b →
    Booking.status b = Booking.pending →
    Change d (rejected_db id n b d).

(** ** The read routes *)

(** What the read routes send: a seat with its identity, the list of the
    seats, a stored file (its headers and the number of bytes streamed), or
    an error. *)
Inductive ReadBody :=
| SeatDoc (_id : ObjectId) (seat : Seat.t)
| SeatList (list : list Seat.t)
| FileStream (contentType disposition : string) (bytes : N)
| ReadError (error : string).

Record ReadResponse := mkRead { read_code : nat; read_body : ReadBody }.

(** The order of [.sort({ row: 1, number: 1 })]: rows as strings, compared
    character by character, then numbers. *)
Definition row_number_le (s1 s2 : Seat.t) : Prop :=
  String.compare (Seat.row s1) (Seat.row s2) = Lt
  ∨ (Seat.row s1 = Seat.row s2 ∧ Seat.number s1 ≤ Seat.number s2).

#[global] Instance comparison_eq_dec : EqDecision comparison := ltac:(solve_decision).

#[global] Instance row_number_le_dec : RelDecision row_number_le :=
  ltac:(intros s1 s2; unfold row_number_le; apply _).

(** [GET /api/seats]: every seat, without its identity, by row then
    number. *)
Definition getSeats (d : Db) : ReadResponse :=
  mkRead 200 (SeatList (merge_sort row_number_le (seats d))).

(** [Seat.findOne({ label })]: the first document with the label. *)
Definition findOne (label : string) (l : list Seat.t) : option (ObjectId * Seat.t) :=
  list_find (λ s, Seat.label s = label) l.

(** [GET /api/seats/:label] *)
Definition getSeat (param : string) (d : Db) : ReadResponse :=
  let label := Js.toUpperCase param in
  match findOne label (seats d) with
  | None => mkRead 404 (ReadError "Seat not found")
  | Some (i, seat) => mkRead 200 (SeatDoc i seat)
  end.

(** The double quote, as a string. *)
Definition dquote : string := String (ascii_of_nat 34) EmptyString.

(** [GET /api/bookings/screenshot/:fileId]; the parameter is [None] when
    [new ObjectId(req.params.fileId)] throws. *)
Definition getScreenshot (fileId : option ObjectId) (d : Db) : ReadResponse :=
  match fileId with
  | None => mkRead 400 (ReadError "Invalid file id")
  | Some fileId =>
      match uploads d !! fileId with
      | None => mkRead 404 (ReadError "File not found")
      | Some file =>
          mkRead 200
            (FileStream
               (if Js.truthy (contentType file) then contentType file
                else "application/octet-stream")
               ("inline; filename=" ++ dquote ++ filename file ++ dquote)
               (gf_length file))
      end
  end.

(** ** Vocabulary of the intake properties *)

(** A seat label in the form the intake stores: not empty, without comma
    (splitting it at commas gives it back), trimmed and in upper case. *)
Definition normal_label (l : string) : Prop :=
  l ≠ "" ∧ Js.split "," l = [l] ∧ Js.trim l = l ∧ Js.toUpperCase l = l.

(** Every character of a string satisfies a test. *)
Fixpoint all_chars (p : ascii → bool) (s : string) : bool :=
  match s with
  | EmptyString => true
  | String c s' => p c && all_chars p s'
  end.

(** The language of a regular expression. *)
Inductive re_matches : Re.t → string → Prop :=
| m_eps : re_matches Re.Eps ""
| m_cls p c : p c = true → re_matches (Re.Cls p) (String c "")
| m_cat r1 r2 s1 s2 :
    re_matches r1 s1 → re_matches r2 s2 → re_matches (Re.Cat r1 r2) (s1 ++ s2)
| m_alt_l r1 r2 s : re_matches r1 s → re_matches (Re.Alt r1 r2) s
| m_alt_r r1 r2 s : re_matches r2 s → re_matches (Re.Alt r1 r2) s
| m_star_nil r : re_matches (Re.Star r) ""
| m_star_app r s1 s2 :
    re_matches r s1 → re_matches (Re.Star r) s2 → re_matches (Re.Star r) (s1 ++ s2).

(** The media types the upload filter lets through, in lower case. *)
Definition image_types : list string :=
  ["image/png"; "image/jpg"; "image/jpeg"; "image/webp"; "image/gif"].

(** Ten digits. *)
Definition ten_digits (s : string) : Prop :=
  String.length s = 10 ∧ all_chars Js.is_digit s = true.

(** A mobile number in the national form: ten digits, the first from 6 to
    9. *)
Definition mobile (s : string) : Prop :=
  ten_digits s
  ∧ ∃ c s', s = String c s' ∧ (54 <=? Js.code c) && (Js.code c <=? 57) = true.

(** A part of an email address: not empty, without white space and
    without at sign. *)
Definition email_word (s : string) : Prop :=
  s ≠ "" ∧ all_chars (λ c, negb (Js.is_space c || Ascii.eqb c "@")) s = true.

(** A string that does not start with white space. *)
Definition starts_clean (s : string) : Prop :=
  match s with String c _ => Js.is_space c = false | EmptyString => True end.

(** A string without comma. *)
Definition comma_free (s : string) : Prop :=
  all_chars (λ c, negb (Ascii.eqb c ",")) s = true.

(** ** [server.js]: the allow-list of origins *)

(** [o.replace(/\/$/, "")]: the string without its last character when
    that is a slash. *)
Fixpoint strip_slash (o : string) : string :=
  match o with
  | EmptyString => EmptyString
  | String c o' =>
      match o' with
      | EmptyString => if Ascii.eqb c "/" then EmptyString else String c EmptyString
      | _ => String c (strip_slash o')
      end
  end.

(** [normalize]: a non-empty origin loses one trailing slash and is put in
    lower case. *)
Definition normalize (o : string) : string :=
  if Js.truthy o then Js.toLowerCase (strip_slash o) else o.

(** [[CLIENT_URL, ...].filter(Boolean).map(normalize)], as the elements of
    the set; [CLIENT_URL] is [None] when the variable is not set. *)
Definition allowedOrigins (clientUrl : option string) : list string :=
  normalize <$>
    omap (λ x : option string,
            match x with
            | Some s => if Js.truthy s then Some s else None
            | None => None
            end)
         [clientUrl; Some "http://localhost:3000"; Some "http://localhost:5500"].

(** The [origin] callback of the CORS middleware: whether the origin is
    allowed; [origin] is [None] when the request has no such header. *)
Definition originAllowed (clientUrl : option string) (origin : option string) : bool :=
  if negb (Js.truthy_opt origin) then true
  else bool_decide (normalize (default "" origin) ∈ allowedOrigins clientUrl).

(** * Properties *)

(** ** The loop of saves *)

Section Saves.
Variable id : ObjectId.

Lemma occupy_all_length found l : length (occupy_all id found l) = length l.
Proof.
  revert l. induction found as [|p found IH]; intros l; [done|].
  cbn. unfold occupy_all in IH. rewrite IH. apply length_insert.
Qed.

Lemma occupy_all_other found l i :
  i ∉ fst <$> found → occupy_all id found l !! i = l !! i.
Proof.
  revert l. induction found as [|p found IH]; intros l Hi; [done|].
  cbn in *. apply not_elem_of_cons in Hi as [Hne Hi].
  unfold occupy_all in IH. rewrite IH by done.
  by apply list_lookup_insert_ne.
Qed.

Lemma occupy_all_hit found l i s :
  (i, s) ∈ found → (∀ s', (i, s') ∈ found → s' = s) → i < length l →
  occupy_all id found l !! i = Some (occupy_for id s).
Proof.
  revert l. induction found as [|p found IH]; intros l Hin Huniq Hlt.
  { by apply elem_of_nil in Hin. }
  cbn. destruct (decide (i ∈ fst <$> found)) as [Hi|Hi].
  - apply list_elem_of_fmap in Hi as ([j s'] & -> & Hs'). cbn in *.
    assert (s' = s) as -> by (apply Huniq; by right).
    unfold occupy_all in IH. apply IH; [done| |by rewrite length_insert].
    intros s'' H. apply Huniq. by right.
  - change (foldl _ ?a found) with (occupy_all id found a).
    rewrite occupy_all_other by done.
    apply elem_of_cons in Hin as [<-|Hin].
    + cbn. by apply list_lookup_insert_eq.
    + exfalso. apply Hi. apply list_elem_of_fmap. by exists (i, s).
Qed.
End Saves.

(** What [Seat.find] returns. *)
Lemma elem_of_find_in labels d i s :
  (i, s) ∈ (find_in labels d).1 ↔ seats d !! i = Some s ∧ Seat.label s ∈ labels.
Proof.
  unfold find_in. cbn. rewrite list_elem_of_filter. cbn.
  rewrite elem_of_lookup_imap. split.
  - intros [Hl (j & x & [= -> ->] & Hx)]. done.
  - intros [Hx Hl]. split; [done|]. by exists i, s.
Qed.

(** The seats after the loop, position by position. *)
Lemma occupy_all_find_in id labels d i :
  occupy_all id (find_in labels d).1 (seats d) !! i =
  match seats d !! i with
  | Some s => if decide (Seat.label s ∈ labels) then Some (occupy_for id s) else Some s
  | None => None
  end.
Proof.
  destruct (seats d !! i) as [s|] eqn:Hs.
  - case_decide as Hl.
    + apply occupy_all_hit.
      * by apply elem_of_find_in.
      * intros s' [Hs' _]%elem_of_find_in. congruence.
      * by apply lookup_lt_Some in Hs.
    + rewrite occupy_all_other; [done|].
      intros ([j s'] & Hj & [Hs' Hl']%elem_of_find_in)%list_elem_of_fmap.
      cbn in Hj. subst j. congruence.
  - rewrite occupy_all_other; [done|].
    intros ([j s'] & Hj & [Hs' Hl']%elem_of_find_in)%list_elem_of_fmap.
    cbn in Hj. subst j. congruence.
Qed.

(** ** Runs of the approve handler *)

Lemma save_loop_cons id p found :
  save_loop id (p :: found) =
  bind (save_seat (p.1, occupy_for id p.2)) (λ _, save_loop id found).
Proof. reflexivity. Qed.

(** One save of the loop: a validation failure, a storage failure, or the
    write to the view. *)
Lemma save_seat_occupy id p w :
  save_seat (p.1, occupy_for id p.2) w =
  if validate_seat p.2 then
    if fails w then Throw (next w)
    else Ok tt (next (mkWorld (db w)
                 (with_seats (txn w) (<[p.1 := occupy_for id p.2]> (seats (txn w))))
                 (tick w) (fault w) (txn_state w)))
  else Throw w.
Proof.
  unfold save_seat, in_session, await, throw, validate_seat. cbn.
  destruct (Js.truthy (Seat.label p.2) && Js.truthy (Seat.row p.2)); [|done].
  by destruct (fails w).
Qed.

(** The loop never touches the durable state nor the state of the
    transaction, whether it ends or throws. *)
Lemma save_loop_durable id found w :
  match save_loop id found w with
  | Ok _ w' => db w' = db w ∧ fault w' = fault w ∧ txn_state w' = txn_state w
  | Throw w' => db w' = db w ∧ txn_state w' = txn_state w
  end.
Proof.
  revert w. induction found as [|p found IH]; intros w; [done|].
  rewrite save_loop_cons. unfold bind. rewrite save_seat_occupy.
  destruct (validate_seat p.2); [|done].
  destruct (fails w); [done|].
  specialize (IH (next (mkWorld (db w)
    (with_seats (txn w) (<[p.1:=occupy_for id p.2]> (seats (txn w))))
    (tick w) (fault w) (txn_state w)))).
  by destruct (save_loop _ _ _).
Qed.

(** Without a failure the loop ends, having written every found seat. *)
Lemma save_loop_ok id found w :
  fault w = None →
  forallb (λ p, validate_seat p.2) found = true →
  save_loop id found w =
  Ok tt (mkWorld (db w) (with_seats (txn w) (occupy_all id found (seats (txn w))))
                 (length found + tick w) None (txn_state w)).
Proof.
  revert w. induction found as [|p found IH]; intros [d t k f st] Hf Hv;
    cbn in Hf; subst f.
  { by destruct t. }
  cbn in Hv. apply andb_true_iff in Hv as [Hp Hv].
  rewrite save_loop_cons. unfold bind. rewrite save_seat_occupy, Hp. cbn.
  rewrite IH by done. cbn. do 2 f_equal. lia.
Qed.

(** A seat that fails the validation stops the loop, whatever else
    happens. *)
Lemma save_loop_invalid id found w :
  forallb (λ p, validate_seat p.2) found = false →
  ∃ w', save_loop id found w = Throw w'.
Proof.
  revert w. induction found as [|p found IH]; intros w Hv; [done|].
  cbn in Hv. rewrite save_loop_cons. unfold bind. rewrite save_seat_occupy.
  destruct (validate_seat p.2); [|by eexists].
  destruct (fails w); [by eexists|]. cbn in Hv.
  destruct (IH (next (mkWorld (db w)
    (with_seats (txn w) (<[p.1:=occupy_for id p.2]> (seats (txn w))))
    (tick w) (fault w) (txn_state w))) Hv) as [w' ->]. by eexists.
Qed.

(** When the loop ends, every found seat was valid and has been written to
    the view. *)
Lemma save_loop_inv id found w w' :
  save_loop id found w = Ok tt w' →
  w' = mkWorld (db w) (with_seats (txn w) (occupy_all id found (seats (txn w))))
               (length found + tick w) (fault w) (txn_state w)
  ∧ forallb (λ p, validate_seat p.2) found = true.
Proof.
  revert w. induction found as [|p found IH]; intros [d t k f st].
  { intros [= <-]. by destruct t. }
  rewrite save_loop_cons. unfold bind. rewrite save_seat_occupy.
  cbn [forallb]. destruct (validate_seat p.2); [|done].
  destruct (fails _); [done|]. cbn. intros [-> ->]%IH. split; [|done].
  cbn. do 2 f_equal. lia.
Qed.

(** The handler around its [try] block: what the block answers, or, when it
    throws, 500 after the abort; when the abort throws in its turn the
    request stays unanswered. *)
Lemma approve_run f bookingId adminNotes d :
  approveBooking f bookingId adminNotes d =
  match approve_try bookingId adminNotes (mkWorld d d 0 f InProgress) with
  | Ok r w => (Some r, db w)
  | Throw w =>
      match txn_state w with
      | InProgress => (Some ApproveFailed, db w)
      | _ => (None, db w)
      end
  end.
Proof.
  unfold approveBooking, run, approve_handler, bind, try_catch, startTransaction.
  cbn. destruct (approve_try _ _ _) as [r w|w]; [done|].
  unfold abortTransaction. by destruct (txn_state w).
Qed.

(** A parameter that is no ObjectId is answered 500, whatever fails. *)
Lemma approve_malformed f adminNotes d :
  approveBooking f Malformed adminNotes d = (Some ApproveFailed, d).
Proof. reflexivity. Qed.

(** The handler when storage works, check by check. *)
Lemma approve_no_fault (id : ObjectId) adminNotes d :
  approveBooking None id adminNotes d =
  match bookings d !! id with
  | None => (Some (error 404 "Booking not found"), d)
  | Some b =>
      if decide (Booking.status b ≠ Booking.pending) then
        (Some (error 400 ("Booking status is " ++ Booking.status_name (Booking.status b)
                          ++ ", cannot approve")), d)
      else
        let found := (find_in (Booking.seatLabels b) d).1 in
        let missing := missing_labels (Booking.seatLabels b) found in
        let occupied := occupied_labels found in
        if negb (length missing =? 0) then
          (Some (error 400 ("Seats not found: " ++ Js.join ", " missing)), d)
        else if negb (length occupied =? 0) then
          (Some (error 409 ("Seats already occupied: " ++ Js.join ", " occupied)), d)
        else if saves_valid b d then
          (Some (approved_response id b), approved_db id adminNotes b d)
        else (Some ApproveFailed, d)
  end.
Proof.
  rewrite approve_run. unfold approve_try, findById, bind, in_session, await.
  cbn -[append Js.join find_in missing_labels occupied_labels saves_valid].
  destruct (bookings d !! id) as [b|] eqn:Hb; [|done].
  cbn -[append Js.join find_in missing_labels occupied_labels saves_valid].
  case_decide; [done|].
  unfold bind, in_session, await.
  cbn -[append Js.join missing_labels occupied_labels filter saves_valid].
  unfold saves_valid, find_in. cbn [fst].
  set (found := filter _ _).
  destruct (negb (length (missing_labels _ found) =? 0)); [done|].
  destruct (negb (length (occupied_labels found) =? 0)); [done|].
  cbn -[append Js.join missing_labels occupied_labels filter save_loop validate forallb].
  destruct (forallb _ found) eqn:Hv.
  - rewrite save_loop_ok by done.
    unfold save_booking.
    change (validate (decide_booking Booking.approved (fst <$> found) adminNotes b))
      with (validate b).
    destruct (validate b); [|done].
    cbn -[append Js.join missing_labels occupied_labels filter].
    by destruct d.
  - match goal with |- context [save_loop id found ?w0] =>
      pose proof (save_loop_durable id found w0) as Hdur;
      destruct (save_loop_invalid id found w0 Hv) as [w' Hw'] end.
    rewrite Hw' in Hdur |- *. cbn in Hdur. destruct Hdur as [-> ->]. done.
Qed.

(** The [try] block, with or without a failure: it answers 200 or leaves
    the durable state as it found it. *)
Lemma approve_try_durable bookingId adminNotes w :
  match approve_try bookingId adminNotes w with
  | Ok r w' => code r = 200 ∨ db w' = db w
  | Throw w' => db w' = db w
  end.
Proof.
  unfold approve_try, findById, bind.
  destruct bookingId as [id|]; [|done].
  unfold in_session, await, abortTransaction.
  destruct (fails w); [done|].
  cbn -[append Js.join find_in missing_labels occupied_labels save_loop save_booking].
  destruct (bookings (txn w) !! id) as [b|];
    cbn -[append Js.join find_in missing_labels occupied_labels save_loop save_booking];
    [|destruct (txn_state w); by try right].
  case_decide; [destruct (txn_state w); by try right|].
  unfold bind, await.
  destruct (fails _); [done|].
  cbn -[append Js.join missing_labels occupied_labels filter save_loop save_booking].
  set (found := filter _ _).
  destruct (negb (length (missing_labels _ found) =? 0));
    [destruct (txn_state w); by try right|].
  destruct (negb (length (occupied_labels found) =? 0));
    [destruct (txn_state w); by try right|].
  match goal with |- context [save_loop id found ?w0] =>
    pose proof (save_loop_durable id found w0) as Hloop;
    destruct (save_loop id found w0) as [[] w1|w1] end; [|by destruct Hloop].
  destruct Hloop as (Hdb & Hf & Hst). cbn in Hdb.
  unfold save_booking, throw. destruct (validate _); [|done].
  unfold in_session, await.
  destruct (fails w1); [done|]. unfold commitTransaction, await. cbn.
  destruct (txn_state w1); [done| |done|done].
  destruct (fails _); [done|]. by left.
Qed.

(** A run that answers 200 went through every check and committed. *)
Lemma approve_success_inv f (id : ObjectId) adminNotes d r d' :
  approveBooking f id adminNotes d = (Some r, d') → code r = 200 →
  ∃ b, bookings d !! id = Some b ∧ Booking.status b = Booking.pending
       ∧ missing_labels (Booking.seatLabels b) (find_in (Booking.seatLabels b) d).1 = []
       ∧ occupied_labels (find_in (Booking.seatLabels b) d).1 = []
       ∧ r = approved_response id b ∧ d' = approved_db id adminNotes b d.
Proof.
  rewrite approve_run. unfold approve_try, findById, bind.
  unfold in_session, await.
  cbn -[append Js.join find_in missing_labels occupied_labels save_loop save_booking].
  destruct (fails _); [by intros [= <- <-]|].
  cbn -[append Js.join find_in missing_labels occupied_labels save_loop save_booking].
  destruct (bookings d !! id) as [b|]; [|by intros [= <- <-]].
  cbn -[append Js.join find_in missing_labels occupied_labels save_loop save_booking].
  case_decide as Hst; [by intros [= <- <-]|].
  unfold bind, await. destruct (fails _); [by intros [= <- <-]|].
  cbn -[append Js.join missing_labels occupied_labels filter save_loop save_booking].
  set (found := filter _ _).
  destruct (missing_labels _ found) eqn:Hm; [|by intros [= <- <-]].
  destruct (occupied_labels found) eqn:Ho; [|by intros [= <- <-]].
  cbn -[append Js.join missing_labels occupied_labels filter save_loop save_booking].
  match goal with |- context [save_loop id found ?w0] =>
    pose proof (save_loop_durable id found w0) as Hdur;
    destruct (save_loop id found w0) as [[] w1|w1] eqn:Hloop end.
  2: { destruct Hdur as [_ ->]. by intros [= <- <-]. }
  apply save_loop_inv in Hloop as [-> _].
  unfold save_booking, throw. destruct (validate _); [|by intros [= <- <-]].
  unfold in_session, await.
  destruct (fails _); [by intros [= <- <-]|]. unfold commitTransaction, await.
  cbn -[append Js.join missing_labels occupied_labels filter].
  destruct (fails _); [by intros [=]|].
  cbn -[append Js.join missing_labels occupied_labels filter].
  intros [= <- <-] _. exists b. by repeat split.
Qed.

(** What does not answer 200 leaves the database as it was. *)
Lemma approve_failure_unchanged f bookingId adminNotes d r d' :
  approveBooking f bookingId adminNotes d = (r, d') → code <$> r ≠ Some 200 → d' = d.
Proof.
  rewrite approve_run.
  pose proof (approve_try_durable bookingId adminNotes (mkWorld d d 0 f InProgress)) as Hd.
  destruct (approve_try _ _ _) as [r1 w1|w1]; cbn in *.
  - intros [= <- <-] Hc. destruct Hd as [Hd|Hd]; [|done]. cbn in Hc. congruence.
  - destruct (txn_state w1); by intros [= <- <-].
Qed.

(** Every run of the approve handler either leaves the database as it was
    or commits the approval of a pending booking. *)
Lemma approve_cases f bookingId adminNotes d :
  (approveBooking f bookingId adminNotes d).2 = d
  ∨ ∃ (id : ObjectId) b,
      bookingId = id ∧ bookings d !! id = Some b ∧ Booking.status b = Booking.pending
      ∧ (approveBooking f bookingId adminNotes d).2 = approved_db id adminNotes b d.
Proof.
  destruct bookingId as [id|]; [|by left].
  destruct (approveBooking f id adminNotes d) as [r d'] eqn:Hrun.
  destruct (decide (code <$> r = Some 200)) as [Hc|Hc].
  - right. destruct r as [r|]; [|done]. injection Hc as Hc.
    destruct (approve_success_inv _ _ _ _ _ _ Hrun Hc) as (b & ? & ? & _ & _ & _ & ->).
    by exists id, b.
  - left. cbn. by apply (approve_failure_unchanged _ _ _ _ _ _ Hrun).
Qed.

(** ** Runs of the reject handler *)


Lemma reject_no_fault (id : ObjectId) adminNotes d :
  rejectBooking None id adminNotes d =
  match bookings d !! id with
  | None => (Some (error 404 "Booking not found"), d)
  | Some b =>
      if decide (Booking.status b ≠ Booking.pending) then
        (Some (error 400 ("Booking status is " ++ Booking.status_name (Booking.status b)
                          ++ ", cannot reject")), d)
      else if validate b then
        (Some (json (RejectedJson "Booking rejected" id)), rejected_db id adminNotes b d)
      else (Some RejectFailed, d)
  end.
Proof.
  unfold rejectBooking, run, reject_handler, findById, bind, try_catch, direct, await.
  cbn -[append validate].
  destruct (bookings d !! id) as [b|]; [|done].
  cbn -[append validate].
  case_decide; [done|]. unfold save_booking.
  change (validate (decide_booking Booking.rejected (Booking.seatIds b) adminNotes b))
    with (validate b).
  by destruct (validate b).
Qed.

Lemma reject_cases f bookingId adminNotes d :
  (rejectBooking f bookingId adminNotes d).2 = d
  ∨ ∃ (id : ObjectId) b,
      bookingId = id ∧ bookings d !! id = Some b ∧ Booking.status b = Booking.pending
      ∧ validate b = true
      ∧ (rejectBooking f bookingId adminNotes d).2 = rejected_db id adminNotes b d.
Proof.
  destruct bookingId as [id|]; [|by left].
  unfold rejectBooking, run, reject_handler, findById, bind, try_catch, direct, await.
  cbn -[append validate].
  destruct (fails _); [by left|]. cbn -[append validate].
  destruct (bookings d !! id) as [b|] eqn:Hb; [|by left].
  cbn -[append validate].
  case_decide as Hst; [by left|]. unfold save_booking, throw.
  change (validate (decide_booking Booking.rejected (Booking.seatIds b) adminNotes b))
    with (validate b).
  destruct (validate b) eqn:Hv; [|by left].
  cbn. destruct (fails _); [by left|]. right. by exists id, b.
Qed.

Lemma reject_answers f bookingId adminNotes d :
  ∃ r, (rejectBooking f bookingId adminNotes d).1 = Some r.
Proof.
  unfold rejectBooking, run, reject_handler, try_catch.
  destruct (bind _ _ _); cbn; eauto.
Qed.

(** ** Atomicity of approve *)

(** C2 — atomicity of approve: whenever approveBooking does not answer 200
    (booking not found, invalid state, unresolved seats, conflict, or a
    storage operation that throws at any point, also in the middle of the
    loop of saves or at commit), the database after the call is the database
    before it; in particular the set of occupied seats and the status of the
    target booking are unchanged. *)
Theorem approve_atomic f (id : ObjectId) adminNotes d r d' :
  approveBooking f id adminNotes d = (r, d') →
  code <$> r ≠ Some 200 →
  d' = d
  ∧ occupied_ids d' = occupied_ids d
  ∧ Booking.status <$> bookings d' !! id = Booking.status <$> bookings d !! id.
Proof.
  intros Hrun Hc. by rewrite (approve_failure_unchanged _ _ _ _ _ _ Hrun Hc).
Qed.

(** The operation of index 3 of the approval of booking 0, the save of its
    second seat, throws: one seat has been written inside the transaction,
    none outside. *)
Lemma approve_atomic_witness :
  approveBooking (Some 3) 0 None sample = (Some (error 500 "Approve failed"), sample)
  ∧ code <$> Some (error 500 "Approve failed") ≠ Some 200
  ∧ occupied_ids sample = occupied_ids sample
  ∧ Booking.status <$> bookings sample !! 0 = Booking.status <$> bookings sample !! 0.
Proof.
  assert (approveBooking (Some 3) 0 None sample
          = (Some (error 500 "Approve failed"), sample)) as Hrun
    by (vm_compute; reflexivity).
  assert (code <$> Some (error 500 "Approve failed") ≠ Some 200) as Hc
    by (vm_compute; discriminate).
  split; [exact Hrun|]. split; [exact Hc|].
  exact (proj2 (approve_atomic (Some 3) 0 None sample _ _ Hrun Hc)).
Defined.

(** ** The checks of approve *)

Lemma filter_ext_in {A} (P Q : A → Prop) `{!∀ x, Decision (P x), !∀ x, Decision (Q x)}
    (l : list A) :
  (∀ x, x ∈ l → P x ↔ Q x) → filter P l = filter Q l.
Proof.
  induction l as [|a l IH]; intros Hext; [done|].
  rewrite !filter_cons, IH by (intros x Hx; apply Hext; by right).
  apply decide_ext, Hext. by left.
Qed.

Lemma filter_none {A} (P : A → Prop) `{!∀ x, Decision (P x)} (l : list A) :
  (∀ x, x ∈ l → ¬ P x) → filter P l = [].
Proof.
  induction l as [|a l IH]; intros Hno; [done|].
  rewrite filter_cons_False by (apply Hno; by left).
  apply IH. intros x Hx. apply Hno. by right.
Qed.

(** Dropping the identities of a filtered [find] gives the filtered
    collection. *)
Lemma filter_imap_snd (P : Seat.t → Prop) `{!∀ s, Decision (P s)}
    (g : nat → nat) (l : list Seat.t) :
  snd <$> filter (λ p, P p.2) (imap (λ i, pair (g i)) l) = filter P l.
Proof.
  revert g. induction l as [|s l IH]; intros g; [done|].
  rewrite imap_cons, !filter_cons. cbn.
  specialize (IH (g ∘ S)).
  case_decide; cbn; by rewrite <- IH.
Qed.

Lemma found_seats labels d :
  snd <$> (find_in labels d).1 = filter (λ s, Seat.label s ∈ labels) (seats d).
Proof. exact (filter_imap_snd (λ s, Seat.label s ∈ labels) id (seats d)). Qed.

Lemma found_labels labels d l :
  l ∈ (λ p, Seat.label p.2) <$> (find_in labels d).1
  ↔ l ∈ labels ∧ l ∈ Seat.label <$> seats d.
Proof.
  rewrite !list_elem_of_fmap. split.
  - intros ([i s] & -> & [Hs Hl]%elem_of_find_in). split; [done|].
    exists s. split; [done|]. by eapply list_elem_of_lookup_2.
  - intros [Hl (s & -> & [i Hs]%list_elem_of_lookup)].
    exists (i, s). split; [done|]. by apply elem_of_find_in.
Qed.

(** The labels reported as missing are exactly the requested labels that
    no seat carries, in the order and the number they were requested. *)
Lemma unresolved_exact b d :
  unresolved b d = filter (λ l, l ∉ Seat.label <$> seats d) (Booking.seatLabels b).
Proof.
  unfold unresolved, missing_labels. apply filter_ext_in. intros l Hl.
  rewrite found_labels. split; [|by intros ? [_ ?]].
  intros Hn Hs. by apply Hn.
Qed.

(** The labels reported as occupied are exactly the labels of the seats
    that are requested and not available, in storage order. *)
Lemma conflicting_exact b d :
  conflicting b d =
  Seat.label <$> filter (λ s, Seat.status s ≠ Seat.available)
                        (filter (λ s, Seat.label s ∈ Booking.seatLabels b) (seats d)).
Proof.
  unfold conflicting, occupied_labels. rewrite <- found_seats.
  generalize (find_in (Booking.seatLabels b) d).1. intros l.
  induction l as [|p l IH]; [done|].
  rewrite fmap_cons, !filter_cons. case_decide; rewrite ?fmap_cons, IH; done.
Qed.

Lemma length_nonzero {A} (l : list A) : negb (length l =? 0) = true ↔ l ≠ [].
Proof. destruct l; cbn; split; done. Qed.

(** The fourth check: a pending booking whose labels all exist and one of
    whose seats is not available. *)
Lemma approve_conflict_case (id : ObjectId) adminNotes d b :
  bookings d !! id = Some b → Booking.status b = Booking.pending →
  unresolved b d = [] → conflicting b d ≠ [] →
  approveBooking None id adminNotes d = (Some (Conflict (conflicting b d)), d).
Proof.
  intros Hb Hst Hm Ho. rewrite approve_no_fault, Hb, decide_False by (by intros []).
  cbn zeta. apply length_nonzero in Ho. fold (unresolved b d) (conflicting b d).
  by rewrite Hm, Ho.
Qed.

(** C4 (as amended) — failure modes of approve and their order: for an id
    that is an ObjectId and when storage works, approveBooking answers
    (1) 404 "Booking not found" when the booking does not exist; else
    (2) 400 with the current status when the booking is not pending; else
    (3) 400 "Seats not found" listing exactly the requested labels that no
    seat carries when there is one; else (4) 409 "Seats already occupied"
    listing exactly the labels of the requested seats that are not available
    when there is one.  A parameter that is no ObjectId is answered
    500 "Approve failed" before any check, whatever fails.  Each time the
    database is left as it was, and the five answers are pairwise
    different. *)
Theorem approve_checks_in_order (id : ObjectId) adminNotes d :
  (bookings d !! id = None →
   approveBooking None id adminNotes d = (Some NotFound, d))
  ∧ (∀ b, bookings d !! id = Some b → Booking.status b ≠ Booking.pending →
     approveBooking None id adminNotes d = (Some (InvalidState (Booking.status b)), d))
  ∧ (∀ b, bookings d !! id = Some b → Booking.status b = Booking.pending →
     unresolved b d ≠ [] →
     approveBooking None id adminNotes d = (Some (UnresolvedSeats (unresolved b d)), d))
  ∧ (∀ b, bookings d !! id = Some b → Booking.status b = Booking.pending →
     unresolved b d = [] → conflicting b d ≠ [] →
     approveBooking None id adminNotes d = (Some (Conflict (conflicting b d)), d))
  ∧ (∀ b, unresolved b d
          = filter (λ l, l ∉ Seat.label <$> seats d) (Booking.seatLabels b))
  ∧ (∀ b, conflicting b d
          = Seat.label <$> filter (λ s, Seat.status s ≠ Seat.available)
              (filter (λ s, Seat.label s ∈ Booking.seatLabels b) (seats d)))
  ∧ (∀ st missing occupied,
       NotFound ≠ InvalidState st ∧ NotFound ≠ UnresolvedSeats missing
       ∧ NotFound ≠ Conflict occupied ∧ InvalidState st ≠ UnresolvedSeats missing
       ∧ InvalidState st ≠ Conflict occupied
       ∧ UnresolvedSeats missing ≠ Conflict occupied)
  ∧ (∀ f, approveBooking f Malformed adminNotes d = (Some ApproveFailed, d))
  ∧ (∀ st missing occupied,
       ApproveFailed ≠ NotFound ∧ ApproveFailed ≠ InvalidState st
       ∧ ApproveFailed ≠ UnresolvedSeats missing ∧ ApproveFailed ≠ Conflict occupied).
Proof.
  rewrite approve_no_fault. repeat apply conj.
  - by intros ->.
  - intros b -> Hst. by rewrite decide_True.
  - intros b -> Hst Hm. rewrite decide_False by (by intros []). cbn zeta.
    apply length_nonzero in Hm. fold (unresolved b d). by rewrite Hm.
  - intros b Hb Hst Hm Ho. rewrite <- approve_no_fault. by apply approve_conflict_case.
  - intros b. apply unresolved_exact.
  - intros b. apply conflicting_exact.
  - intros st missing occupied. repeat apply conj; discriminate.
  - intros f. apply approve_malformed.
  - intros st missing occupied. repeat apply conj; discriminate.
Qed.

(** Booking 1 of the sample asks for A1 and for Z9, which does not exist;
    no booking of the sample has the ObjectId 7. *)
Lemma approve_checks_in_order_witness :
  approveBooking None 1 None sample = (Some (UnresolvedSeats ["Z9"]), sample)
  ∧ approveBooking None 7 None sample = (Some NotFound, sample).
Proof.
  pose proof (approve_checks_in_order 1 None sample) as (_ & _ & H3 & _).
  pose proof (approve_checks_in_order 7 None sample) as (H1 & _).
  split.
  - apply (H3 (request ["A1"; "Z9"])); [reflexivity|reflexivity|].
    vm_compute. discriminate.
  - apply H1. reflexivity.
Defined.

(** C4 (counterexample) — a parameter that is no ObjectId: no booking has
    it, and the answer is 500 "Approve failed", not the 404 of a booking
    that does not exist. *)
Lemma approve_malformed_not_NotFound :
  approveBooking None Malformed None sample = (Some (error 500 "Approve failed"), sample)
  ∧ error 500 "Approve failed" ≠ NotFound.
Proof. split; [reflexivity|discriminate]. Qed.

(** ** What a successful approve writes *)

Lemma NoDup_imap_pair {A} (l : list A) : NoDup (imap pair l).
Proof.
  apply NoDup_alt. intros i j [k x]. rewrite !list_lookup_imap.
  destruct (l !! i), (l !! j); cbn; congruence.
Qed.

Lemma found_ids_NoDup labels d : NoDup (fst <$> (find_in labels d).1).
Proof.
  apply NoDup_fmap_fst.
  - intros i s1 s2 [H1 _]%elem_of_find_in [H2 _]%elem_of_find_in. congruence.
  - apply NoDup_filter, NoDup_imap_pair.
Qed.

Lemma found_ids labels d i :
  i ∈ fst <$> (find_in labels d).1
  ↔ ∃ s, seats d !! i = Some s ∧ Seat.label s ∈ labels.
Proof.
  rewrite list_elem_of_fmap. split.
  - intros ([j s] & -> & H%elem_of_find_in). by exists s.
  - intros (s & H). exists (i, s). split; [done|]. by apply elem_of_find_in.
Qed.

(** The documents of an approval are valid when the requested seats and
    the booking are. *)
Lemma saves_valid_intro b d :
  (∀ s, s ∈ seats d → Seat.label s ∈ Booking.seatLabels b → validate_seat s = true) →
  validate b = true →
  saves_valid b d = true.
Proof.
  intros Hs Hb. unfold saves_valid. rewrite Hb, andb_true_r.
  apply forallb_forall. intros [i s] [Hi Hl]%list_elem_of_In%elem_of_find_in.
  apply Hs; [|done]. by eapply list_elem_of_lookup_2.
Qed.

(** C3 (as amended) — success of approve: for a pending booking whose
    requested labels all belong to existing seats, all of them available,
    when the seats with a requested label and the booking pass the
    validators of their schemas (a seat has a label and a row; the booking
    is as the intake stores it) and with storage working, approveBooking
    answers 200 with the requested labels; every seat whose label is
    requested becomes occupied and linked to the booking id, its other
    fields unchanged; the booking becomes approved, keeps its requested
    labels, takes the note when a non-empty one is supplied (and keeps its
    notes otherwise), and its resolved references are the identities of
    exactly the seats whose label is requested, each once, in storage
    order. *)
Theorem approve_success (id : ObjectId) adminNotes d b :
  bookings d !! id = Some b →
  Booking.status b = Booking.pending →
  (∀ l, l ∈ Booking.seatLabels b → l ∈ Seat.label <$> seats d) →
  (∀ s, s ∈ seats d → Seat.label s ∈ Booking.seatLabels b →
        Seat.status s = Seat.available) →
  (∀ s, s ∈ seats d → Seat.label s ∈ Booking.seatLabels b →
        validate_seat s = true) →
  validate b = true →
  let d' := (approveBooking None id adminNotes d).2 in
  let ids := fst <$> filter (λ p, Seat.label p.2 ∈ Booking.seatLabels b)
                            (imap pair (seats d)) in
  (approveBooking None id adminNotes d).1
    = Some (json (ApprovedJson "Approved and seats marked as occupied" id
                               (Booking.seatLabels b)))
  ∧ (∀ i s, seats d !! i = Some s → Seat.label s ∈ Booking.seatLabels b →
       ∃ s', seats d' !! i = Some s'
             ∧ Seat.status s' = Seat.occupied
             ∧ Seat.occupiedByBookingId s' = Some id
             ∧ Seat.label s' = Seat.label s ∧ Seat.row s' = Seat.row s
             ∧ Seat.number s' = Seat.number s ∧ Seat.type s' = Seat.type s)
  ∧ (∃ b', bookings d' !! id = Some b'
           ∧ Booking.status b' = Booking.approved
           ∧ Booking.seatLabels b' = Booking.seatLabels b
           ∧ Booking.seatIds b' = ids
           ∧ Booking.adminNotes b'
             = (if Js.truthy_opt adminNotes then adminNotes else Booking.adminNotes b))
  ∧ NoDup ids
  ∧ (∀ i, i ∈ ids ↔ ∃ s, seats d !! i = Some s ∧ Seat.label s ∈ Booking.seatLabels b).
Proof.
  intros Hb Hst Hres Hav Hvs Hvb d' ids. subst d'.
  rewrite approve_no_fault, Hb, decide_False by (by intros []). cbn zeta.
  fold (unresolved b d) (conflicting b d).
  rewrite (saves_valid_intro b d Hvs Hvb).
  assert (unresolved b d = []) as ->.
  { rewrite unresolved_exact. apply filter_none.
    intros l Hl Hn. by apply Hn, Hres. }
  assert (conflicting b d = []) as ->.
  { rewrite conflicting_exact. replace (filter _ (filter _ _)) with (@nil Seat.t); [done|].
    symmetry. apply filter_none.
    intros s [Hl Hs]%list_elem_of_filter Hn. by apply Hn, Hav. }
  cbn -[approved_db]. split; [done|]. split; [|split; [|split]].
  - intros i s Hs Hl. unfold approved_db. cbn -[find_in].
    rewrite occupy_all_find_in, Hs, decide_True by done.
    eexists. split; [done|]. by cbn.
  - eexists. unfold approved_db. cbn. split.
    + apply list_lookup_insert_eq. by apply lookup_lt_Some in Hb.
    + done.
  - apply (found_ids_NoDup (Booking.seatLabels b) d).
  - apply (found_ids (Booking.seatLabels b) d).
Qed.

(** Booking 2 of the sample asks for A2. *)
Lemma approve_success_witness :
  (approveBooking None 2 (Some "paid") sample).1
  = Some (json (ApprovedJson "Approved and seats marked as occupied" 2 ["A2"]))
  ∧ ∃ b', bookings (approveBooking None 2 (Some "paid") sample).2 !! 2 = Some b'
          ∧ Booking.status b' = Booking.approved
          ∧ Booking.seatLabels b' = ["A2"]
          ∧ Booking.seatIds b' = [1]
          ∧ Booking.adminNotes b' = Some "paid".
Proof.
  assert (∀ l, l ∈ ["A2"] → l ∈ Seat.label <$> seats sample) as Hres.
  { intros l ->%list_elem_of_singleton. vm_compute. do 1 right. left. }
  assert (∀ s, s ∈ seats sample → Seat.label s ∈ ["A2"] →
               Seat.status s = Seat.available) as Hav.
  { intros s Hs _. vm_compute in Hs.
    repeat (apply elem_of_cons in Hs as [->|Hs]; [reflexivity|]).
    by apply elem_of_nil in Hs. }
  assert (∀ s, s ∈ seats sample → Seat.label s ∈ ["A2"] →
               validate_seat s = true) as Hvs.
  { intros s Hs _. vm_compute in Hs.
    repeat (apply elem_of_cons in Hs as [->|Hs]; [reflexivity|]).
    by apply elem_of_nil in Hs. }
  pose proof (approve_success 2 (Some "paid") sample (request ["A2"])
                eq_refl eq_refl Hres Hav Hvs eq_refl) as (H1 & _ & H3 & _).
  split; [exact H1|exact H3].
Defined.

(** C3 (counterexample) — the resolved references do not follow the
    requested labels.  Booking 0 of the sample asks for B1 then A2, both
    existing and available: the approval succeeds and stores the references
    of A2 then B1.  Booking 3 asks for A1 twice: the approval succeeds and
    stores one reference. *)
Lemma approve_refs_not_per_request :
  (∃ b', (approveBooking None 0 None sample).1
           = Some (json (ApprovedJson "Approved and seats marked as occupied" 0
                                      ["B1"; "A2"]))
         ∧ bookings (approveBooking None 0 None sample).2 !! 0 = Some b'
         ∧ Booking.seatLabels b' = ["B1"; "A2"]
         ∧ Booking.seatIds b' = [1; 2]
         ∧ ¬ refs_follow_request (approveBooking None 0 None sample).2 b')
  ∧ (∃ b', (approveBooking None 3 None sample).1
           = Some (json (ApprovedJson "Approved and seats marked as occupied" 3
                                      ["A1"; "A1"]))
         ∧ bookings (approveBooking None 3 None sample).2 !! 3 = Some b'
         ∧ Booking.seatLabels b' = ["A1"; "A1"]
         ∧ Booking.seatIds b' = [0]
         ∧ ¬ refs_follow_request (approveBooking None 3 None sample).2 b').
Proof.
  split; eexists; (split; [vm_compute; reflexivity|]);
    (split; [vm_compute; reflexivity|]);
    (split; [reflexivity|]); (split; [reflexivity|]);
    vm_compute; discriminate.
Qed.

(** A seat without a row, which an initialisation with the row [""]
    creates, cannot be saved: the approval of a pending booking that asks
    for it is answered 500 and changes nothing. *)
Lemma approve_unnamed_row_fails :
  seats unnamed = [Seat.mk "1" "" 1 Seat.primary Seat.available None]
  ∧ bookings unnamed !! 0 = Some (request ["1"])
  ∧ approveBooking None 0 None unnamed = (Some (error 500 "Approve failed"), unnamed).
Proof. repeat split; vm_compute; reflexivity. Qed.

(** ** Frame of approve *)

(** C10 — frame of approve: after an approveBooking that answers 200, a
    seat differs from what it was only if its label is among the labels the
    approved booking requested, and then only in its status and its occupant
    link; no seat is added or removed; every other booking, and every stored
    file, is as it was. *)
Theorem approve_frame f (id : ObjectId) adminNotes d r d' :
  approveBooking f id adminNotes d = (Some r, d') →
  code r = 200 →
  ∃ b, bookings d !! id = Some b
     ∧ (∀ i, seats d' !! i ≠ seats d !! i →
          ∃ s, seats d !! i = Some s ∧ Seat.label s ∈ Booking.seatLabels b)
     ∧ (∀ i s s', seats d !! i = Some s → seats d' !! i = Some s' →
          Seat.label s' = Seat.label s ∧ Seat.row s' = Seat.row s
          ∧ Seat.number s' = Seat.number s ∧ Seat.type s' = Seat.type s)
     ∧ length (seats d') = length (seats d)
     ∧ (∀ j, j ≠ id → bookings d' !! j = bookings d !! j)
     ∧ length (bookings d') = length (bookings d)
     ∧ uploads d' = uploads d.
Proof.
  intros Hrun Hc.
  destruct (approve_success_inv _ _ _ _ _ _ Hrun Hc) as (b & Hb & _ & _ & _ & _ & ->).
  exists b. split; [done|]. unfold approved_db. cbn -[find_in]. repeat apply conj.
  - intros i. rewrite occupy_all_find_in.
    destruct (seats d !! i) as [s|]; [|done].
    case_decide; [|done]. intros _. by exists s.
  - intros i s s'. rewrite occupy_all_find_in. intros ->.
    case_decide; by intros [= <-].
  - apply occupy_all_length.
  - intros j Hj. by apply list_lookup_insert_ne.
  - apply length_insert.
  - done.
Qed.

Lemma approve_frame_witness :
  approveBooking None 2 None sample
  = (Some (json (ApprovedJson "Approved and seats marked as occupied" 2 ["A2"])),
     approved_db 2 None (request ["A2"]) sample)
  ∧ ∀ j, j ≠ 2 →
      bookings (approved_db 2 None (request ["A2"]) sample) !! j = bookings sample !! j.
Proof.
  assert (approveBooking None 2 None sample
          = (Some (json (ApprovedJson "Approved and seats marked as occupied" 2 ["A2"])),
             approved_db 2 None (request ["A2"]) sample)) as Hrun
    by (vm_compute; reflexivity).
  split; [exact Hrun|].
  destruct (approve_frame None 2 None sample _ _ Hrun eq_refl)
    as (b & _ & _ & _ & _ & Hothers & _).
  exact Hothers.
Defined.

(** ** Runs of the intake handler *)

(** Every run of the intake leaves the seats alone, stores at most one file
    and adds at most one booking, a pending one, at the end of the
    collection. *)
Lemma submit_cases f fm d :
  let d' := (createPendingBooking f fm d).2 in
  seats d' = seats d
  ∧ (bookings d' = bookings d
     ∨ ∃ b, bookings d' = bookings d ++ [b] ∧ Booking.status b = Booking.pending).
Proof.
  unfold createPendingBooking.
  destruct (upload_single _) as [msg|file]; [by split; [|left]|].
  unfold run, submit_handler.
  destruct (form_email fm) as [email|], (form_phone fm) as [phone|],
    (form_amount fm) as [|amount], file as [file|];
    try (by split; [|left]).
  destruct (_ || _); [by split; [|left]|].
  unfold try_catch, bind, upload_stream, create, direct, await, throw.
  cbn -[validate parse_seats cast_email cast_phone].
  destruct (fails _); [by split; [|left]|].
  cbn -[validate parse_seats cast_email cast_phone].
  destruct (validate _); [|by split; [|left]].
  destruct (fails _); [by split; [|left]|].
  cbn. split; [done|]. right. by eexists.
Qed.

Lemma submit_answers f fm d : ∃ r, (createPendingBooking f fm d).1 = Some r.
Proof.
  unfold createPendingBooking.
  destruct (upload_single _) as [msg|file]; [by eexists|].
  unfold run, submit_handler.
  destruct (form_email fm) as [email|], (form_phone fm) as [phone|],
    (form_amount fm) as [|amount], file as [file|];
    try (by eexists).
  destruct (_ || _); [by eexists|].
  unfold try_catch, bind.
  destruct (upload_stream _ _); [|by eexists].
  destruct (create _ _); by eexists.
Qed.

(** ** Reject *)




(** ** No resurrection *)





(** ** The seat invariant *)

Section Pointwise.
(** A property of single seats that the writes of the handlers keep. *)
Variable P : Seat.t → Prop.

Lemma upsert_Forall u l :
  (∀ s, P s → P (set_fields u s)) → P (inserted u) →
  Forall P l → Forall P (upsert u l).
Proof.
  intros Hset Hins. induction 1 as [|s l Hs Hl IH]; cbn.
  - by repeat constructor.
  - case_decide; constructor; auto.
Qed.

Lemma bulkWrite_Forall ops l :
  (∀ u s, P s → P (set_fields u s)) → (∀ u, P (inserted u)) →
  Forall P l → Forall P (bulkWrite ops l).
Proof.
  intros Hset Hins. revert l. induction ops as [|u ops IH]; intros l Hl; [done|].
  change (Forall P (bulkWrite ops (upsert u l))). apply IH. apply upsert_Forall; auto.
Qed.

Lemma findOneAndUpdate_Forall lbl f l :
  (∀ s, P s → P (f s)) → Forall P l → Forall P (findOneAndUpdate lbl f l).2.
Proof.
  intros Hf. induction 1 as [|s l Hs Hl IH]; cbn; [done|].
  case_decide; cbn.
  - constructor; auto.
  - destruct (findOneAndUpdate lbl f l) as [r l']. cbn in *. by constructor.
Qed.

Lemma approved_db_Forall id n b d :
  (∀ s, P s → P (occupy_for id s)) →
  Forall P (seats d) → Forall P (seats (approved_db id n b d)).
Proof.
  intros Hocc Hd. unfold approved_db. cbn -[find_in].
  apply Forall_lookup. intros i s'. rewrite occupy_all_find_in.
  destruct (seats d !! i) as [s|] eqn:Hs; [|done].
  pose proof (Forall_lookup_1 _ _ _ _ Hd Hs).
  case_decide; intros [= <-]; auto.
Qed.

(** A property kept by each kind of write is kept by each operation; the
    write of the manual occupy action is only needed for that action. *)
Lemma step_Forall o d :
  (∀ u s, P s → P (set_fields u s)) → (∀ u, P (inserted u)) →
  (∀ s, P s → P (set_released s)) → (∀ id s, P s → P (occupy_for id s)) →
  (∀ l, o = Occupy l → ∀ s, P s → P (set_occupied s)) →
  Forall P (seats d) → Forall P (seats (step o d)).
Proof.
  intros Hset Hins Hrel Hocc Hman Hd.
  destruct o as [ib|l|l|f fm|f id n|f id n]; cbn.
  - by apply bulkWrite_Forall.
  - unfold occupySeat.
    pose proof (findOneAndUpdate_Forall (Js.toUpperCase l) set_occupied (seats d)
                  (Hman l eq_refl) Hd) as H.
    by destruct (findOneAndUpdate _ _ _) as [[s|] l'].
  - unfold releaseSeat.
    pose proof (findOneAndUpdate_Forall (Js.toUpperCase l) set_released (seats d)
                  Hrel Hd) as H.
    by destruct (findOneAndUpdate _ _ _) as [[s|] l'].
  - by rewrite (proj1 (submit_cases f fm d)).
  - destruct (approve_cases f id n d) as [->|(i & b & -> & _ & _ & ->)]; [done|].
    apply approved_db_Forall; auto.
  - destruct (reject_cases f id n d) as [->|(i & b & -> & _ & _ & _ & ->)]; done.
Qed.
End Pointwise.

(** The manual actions, seat by seat: [findOneAndUpdate] leaves every
    document in its place, rewrites only a document that carries the label,
    and rewrites one when there is one. *)
Lemma findOneAndUpdate_pointwise lbl f l i s :
  l !! i = Some s →
  ∃ s', (findOneAndUpdate lbl f l).2 !! i = Some s'
        ∧ (s' = s ∨ (Seat.label s = lbl ∧ s' = f s)).
Proof.
  revert i. induction l as [|x l IH]; intros i Hi; [done|].
  cbn. case_decide as Hx.
  - destruct i as [|i]; cbn in *.
    + injection Hi as ->. exists (f s). split; [done|]. by right.
    + exists s. split; [done|]. by left.
  - destruct (findOneAndUpdate lbl f l) as [r l'] eqn:Hf. cbn in *.
    destruct i as [|i]; cbn in *.
    + exists s. split; [done|]. by left.
    + exact (IH i Hi).
Qed.

Lemma findOneAndUpdate_some lbl f l :
  lbl ∈ Seat.label <$> l →
  ∃ i s, l !! i = Some s ∧ Seat.label s = lbl
         ∧ (findOneAndUpdate lbl f l).2 !! i = Some (f s).
Proof.
  induction l as [|x l IH]; intros Hin; [by apply elem_of_nil in Hin|].
  cbn. case_decide as Hx.
  - by exists 0, x.
  - destruct (findOneAndUpdate lbl f l) as [r l'] eqn:Hf. cbn in *.
    apply elem_of_cons in Hin as [Hin|Hin]; [done|].
    destruct (IH Hin) as (i & s & Hi & Hs & Hi'). by exists (S i), s.
Qed.

Lemma occupySeat_seats param d :
  seats (occupySeat param d).2
  = (findOneAndUpdate (Js.toUpperCase param) set_occupied (seats d)).2.
Proof.
  unfold occupySeat.
  destruct (findOneAndUpdate _ _ _) as [[s|] l'] eqn:Hf; [done|]. cbn.
  clear -Hf. revert l' Hf. induction (seats d) as [|x l IH]; intros l'; cbn.
  - by intros [= <-].
  - case_decide; [done|].
    destruct (findOneAndUpdate _ _ l) as [r l''] eqn:Hl. intros [= -> <-].
    by rewrite <- (IH l'').
Qed.

(** C1 (as amended) — the seat invariant: every operation keeps, on every
    seat, that a seat with an occupant link has status occupied; every
    operation other than the manual occupy action (initialisation, release,
    intake, approve, reject, with any arguments and any storage failure)
    keeps the full equivalence between having an occupant link and having
    status occupied.  The manual occupy action keeps every seat in its place
    with the occupant link it had, changes only a seat that carries the
    upper-cased label, whose status it sets to occupied, and does so to one
    seat when a seat carries that label. *)
Theorem seat_invariant_preserved o d :
  (Forall linked_then_occupied (seats d) →
   Forall linked_then_occupied (seats (step o d)))
  ∧ ((∀ l, o ≠ Occupy l) →
     Forall seat_inv (seats d) → Forall seat_inv (seats (step o d)))
  ∧ (∀ l, o = Occupy l →
     (∀ i s, seats d !! i = Some s →
        ∃ s', seats (step o d) !! i = Some s'
              ∧ Seat.occupiedByBookingId s' = Seat.occupiedByBookingId s
              ∧ (s' = s ∨ (Seat.label s = Js.toUpperCase l
                           ∧ Seat.status s' = Seat.occupied)))
     ∧ (Js.toUpperCase l ∈ Seat.label <$> seats d →
        ∃ i s', seats (step o d) !! i = Some s'
                ∧ Seat.label s' = Js.toUpperCase l
                ∧ Seat.status s' = Seat.occupied)).
Proof.
  split; [|split].
  - apply step_Forall; unfold linked_then_occupied; cbn; try done; auto.
  - intros Hno. apply step_Forall; unfold seat_inv; cbn; try done.
    + intros l ->. by destruct (Hno l).
  - intros l ->. cbn [step]. rewrite occupySeat_seats. split.
    + intros i s Hs.
      destruct (findOneAndUpdate_pointwise (Js.toUpperCase l) set_occupied _ i s Hs)
        as (s' & Hs' & [->|[Hl ->]]).
      * exists s. split; [done|]. split; [done|]. by left.
      * eexists. split; [done|]. split; [done|]. by right.
    + intros Hin.
      destruct (findOneAndUpdate_some (Js.toUpperCase l) set_occupied _ Hin)
        as (i & s & _ & Hl & Hs').
      by exists i, (set_occupied s).
Qed.

Lemma seat_invariant_preserved_witness :
  Forall seat_inv (seats sample)
  ∧ Forall seat_inv (seats (step (Approve None 0 None) sample))
  ∧ Forall seat_inv (seats (step (Release "a2") (step (Approve None 0 None) sample))).
Proof.
  assert (Forall seat_inv (seats sample)) as H0.
  { vm_compute. repeat constructor; cbn; congruence. }
  assert (Forall seat_inv (seats (step (Approve None 0 None) sample))) as H1.
  { apply (proj1 (proj2 (seat_invariant_preserved (Approve None 0 None) sample)));
      [discriminate|exact H0]. }
  split; [exact H0|]. split; [exact H1|].
  apply (proj1 (proj2 (seat_invariant_preserved (Release "a2") _)));
    [discriminate|exact H1].
Defined.

(** C1 (counterexample) — the manual occupy action breaks the equivalence:
    in the hall every seat is available and unlinked; after
    PATCH /api/seats/a1/occupy seat A1 is occupied and still unlinked. *)
Lemma occupy_breaks_seat_invariant :
  Forall seat_inv (seats hall)
  ∧ seats (step (Occupy "a1") hall) !! 0
    = Some (Seat.mk "A1" "A" 1 Seat.primary Seat.occupied None)
  ∧ ¬ Forall seat_inv (seats (step (Occupy "a1") hall)).
Proof.
  split; [|split].
  - vm_compute. repeat constructor; cbn; congruence.
  - vm_compute. reflexivity.
  - intros H.
    destruct (Forall_lookup_1 _ _ 0 (Seat.mk "A1" "A" 1 Seat.primary Seat.occupied None)
                H eq_refl) as [_ Hlink].
    exact (Hlink eq_refl eq_refl).
Qed.

(** ** Inventory initialisation *)

(** An upsert leaves the list of labels as it is when the label is there
    and appends the label when it is not. *)
Lemma upsert_labels u l :
  Seat.label <$> upsert u l =
  if decide (u_label u ∈ Seat.label <$> l) then Seat.label <$> l
  else (Seat.label <$> l) ++ [u_label u].
Proof.
  induction l as [|s l IH]; cbn.
  - rewrite decide_False; [done|]. apply not_elem_of_nil.
  - destruct (decide (Seat.label s = u_label u)) as [Heq|Hne]; cbn.
    + rewrite decide_True by (rewrite Heq; by left). by rewrite Heq.
    + rewrite IH. destruct (decide (u_label u ∈ Seat.label <$> l)) as [Hin|Hin].
      * rewrite decide_True; [done|]. by right.
      * rewrite decide_False; [done|].
        intros [?|?]%elem_of_cons; [congruence|done].
Qed.

Lemma upsert_NoDup u l :
  NoDup (Seat.label <$> l) → NoDup (Seat.label <$> upsert u l).
Proof.
  intros Hl. rewrite upsert_labels. case_decide; [done|].
  apply NoDup_app. split; [done|]. split; [|apply NoDup_singleton].
  by intros x Hx ->%list_elem_of_singleton.
Qed.

Lemma bulkWrite_cons u ops l : bulkWrite (u :: ops) l = bulkWrite ops (upsert u l).
Proof. reflexivity. Qed.

Lemma bulkWrite_NoDup ops l :
  NoDup (Seat.label <$> l) → NoDup (Seat.label <$> bulkWrite ops l).
Proof.
  revert l. induction ops as [|u ops IH]; intros l Hl; [done|].
  rewrite bulkWrite_cons. by apply IH, upsert_NoDup.
Qed.

Lemma bulkWrite_labels ops l x :
  x ∈ Seat.label <$> bulkWrite ops l ↔ x ∈ u_label <$> ops ∨ x ∈ Seat.label <$> l.
Proof.
  revert l. induction ops as [|u ops IH]; intros l.
  - cbn. split; [by right|]. by intros [[]%elem_of_nil|].
  - rewrite bulkWrite_cons, IH, upsert_labels, fmap_cons, elem_of_cons.
    case_decide as Hin.
    + split; [tauto|]. intros [[->|]|]; tauto.
    + rewrite elem_of_app, list_elem_of_singleton. tauto.
Qed.

(** Writing a scheme whose labels are all there adds no seat. *)
Lemma bulkWrite_length_present ops l :
  (∀ u, u ∈ ops → u_label u ∈ Seat.label <$> l) →
  length (bulkWrite ops l) = length l.
Proof.
  revert l. induction ops as [|u ops IH]; intros l Hin; [done|].
  rewrite bulkWrite_cons.
  assert (Seat.label <$> upsert u l = Seat.label <$> l) as Hlab.
  { rewrite upsert_labels, decide_True; [done|]. apply Hin. by left. }
  rewrite IH.
  - by rewrite <- (length_fmap Seat.label), Hlab, length_fmap.
  - intros u' Hu'. rewrite Hlab. apply Hin. by right.
Qed.

(** An upsert keeps the label, the status and the occupant link of every
    seat that is there. *)
Lemma upsert_lookup u l i s :
  l !! i = Some s →
  ∃ s', upsert u l !! i = Some s' ∧ Seat.label s' = Seat.label s
        ∧ Seat.status s' = Seat.status s
        ∧ Seat.occupiedByBookingId s' = Seat.occupiedByBookingId s.
Proof.
  revert i. induction l as [|a l IH]; intros i Hi; [done|].
  cbn. destruct (decide (Seat.label a = u_label u)) as [Heq|Hne].
  - destruct i as [|i]; cbn in *.
    + injection Hi as <-. eexists. split; [done|]. by cbn.
    + by exists s.
  - destruct i as [|i]; cbn in *.
    + by exists s.
    + by apply IH.
Qed.

Lemma bulkWrite_lookup ops l i s :
  l !! i = Some s →
  ∃ s', bulkWrite ops l !! i = Some s' ∧ Seat.label s' = Seat.label s
        ∧ Seat.status s' = Seat.status s
        ∧ Seat.occupiedByBookingId s' = Seat.occupiedByBookingId s.
Proof.
  revert l s. induction ops as [|u ops IH]; intros l s Hs; [by exists s|].
  rewrite bulkWrite_cons. destruct (upsert_lookup u l i s Hs) as (s1 & Hs1 & Hl1 & Hst1 & Ho1).
  destruct (IH _ _ Hs1) as (s2 & Hs2 & Hl2 & Hst2 & Ho2).
  exists s2. split; [done|]. split; [congruence|]. split; congruence.
Qed.

(** With unique labels, a seat after an upsert carries the written fields
    or is an old seat with another label. *)
Lemma upsert_elem u l s :
  NoDup (Seat.label <$> l) → s ∈ upsert u l →
  matches u s ∨ (s ∈ l ∧ Seat.label s ≠ u_label u).
Proof.
  induction l as [|a l IH]; cbn; intros Hnd Hs.
  - apply list_elem_of_singleton in Hs as ->. by left.
  - apply NoDup_cons in Hnd as [Ha Hnd].
    destruct (decide (Seat.label a = u_label u)) as [Heq|Hne].
    + apply elem_of_cons in Hs as [->|Hs]; [by left|].
      right. split; [by right|]. intros Hl. apply Ha. rewrite Heq, <- Hl.
      by apply list_elem_of_fmap_2.
    + apply elem_of_cons in Hs as [->|Hs]; [right; split; [by left|done]|].
      destruct (IH Hnd Hs) as [?|[? ?]]; [by left|]. right. split; [by right|done].
Qed.

(** With unique labels, every seat whose label the scheme produces carries
    the fields of an entry of the scheme with that label. *)
Lemma bulkWrite_matches ops done l :
  NoDup (Seat.label <$> l) →
  (∀ s, s ∈ l → Seat.label s ∈ u_label <$> done → ∃ u, u ∈ done ∧ matches u s) →
  ∀ s, s ∈ bulkWrite ops l → Seat.label s ∈ u_label <$> (done ++ ops) →
       ∃ u, u ∈ done ++ ops ∧ matches u s.
Proof.
  revert done l. induction ops as [|u ops IH]; intros done l Hnd Hdone s Hs Hl.
  - rewrite app_nil_r in *. by apply Hdone.
  - rewrite bulkWrite_cons in Hs. rewrite (assoc_L _ done [u] ops : done ++ u :: ops = (done ++ [u]) ++ ops) in *.
    apply (IH (done ++ [u]) (upsert u l)); [by apply upsert_NoDup| |done|done].
    intros s' Hs' Hl'.
    destruct (upsert_elem u l s' Hnd Hs') as [Hm|[Hin Hne]].
    + exists u. split; [|done]. apply elem_of_app. right. by left.
    + rewrite fmap_app, elem_of_app in Hl'. destruct Hl' as [Hl'|Hl'].
      * destruct (Hdone s' Hin Hl') as (u' & Hu' & Hm').
        exists u'. split; [|done]. apply elem_of_app. by left.
      * cbn in Hl'. apply list_elem_of_singleton in Hl'. done.
Qed.

(** The entries of the scheme: one per row and per number from 1 to the
    number of seats in a row. *)
Lemma elem_of_bulk_of rs per u :
  u ∈ bulk_of rs per ↔ ∃ r n, r ∈ rs ∧ 1 ≤ n ≤ per ∧ u = seat_op r n.
Proof.
  unfold bulk_of. rewrite list_elem_of_In, in_flat_map. split.
  - intros (r & Hr & Hu). apply in_map_iff in Hu as (n & <- & Hn).
    apply in_seq in Hn. exists r, n. rewrite list_elem_of_In. split; [done|]. split; [lia|done].
  - intros (r & n & Hr & Hn & ->). exists r. rewrite <- list_elem_of_In. split; [done|].
    apply in_map, in_seq. lia.
Qed.

(** C7 — inventory initialisation is idempotent: two calls of
    initializeInventory with the same scheme answer the same total, which is
    the number of seats after the first call; each call keeps the label, the
    status and the occupant link of every seat that exists (so no occupied
    seat becomes available); after a call every label of the scheme belongs
    to a seat, and, labels being unique as the schema requires, every seat
    with a label of the scheme carries the row, number and tier of an entry
    of the scheme with that label; bookings and stored files are left as
    they were. *)
Theorem init_idempotent b d :
  let r1 := initializeInventory b d in
  let r2 := initializeInventory b r1.2 in
  let scheme := bulk_of (init_rows b) (init_perRow b) in
  r1.1 = json (InitJson "Seats initialized/upserted" (length (seats r1.2)))
  ∧ r2.1 = r1.1
  ∧ length (seats r2.2) = length (seats r1.2)
  ∧ (∀ i s, seats d !! i = Some s →
       ∃ s1 s2, seats r1.2 !! i = Some s1 ∧ seats r2.2 !! i = Some s2
         ∧ Seat.label s1 = Seat.label s ∧ Seat.label s2 = Seat.label s
         ∧ Seat.status s1 = Seat.status s ∧ Seat.status s2 = Seat.status s
         ∧ Seat.occupiedByBookingId s1 = Seat.occupiedByBookingId s
         ∧ Seat.occupiedByBookingId s2 = Seat.occupiedByBookingId s)
  ∧ (∀ u, u ∈ scheme ↔
       ∃ r n, r ∈ init_rows b ∧ 1 ≤ n ≤ init_perRow b
              ∧ u = mkUpdateOne (r ++ Js.of_nat n) r n (rowToType r))
  ∧ (∀ u, u ∈ scheme → u_label u ∈ Seat.label <$> seats r1.2)
  ∧ (NoDup (Seat.label <$> seats d) →
     ∀ s, s ∈ seats r1.2 ∨ s ∈ seats r2.2 → Seat.label s ∈ u_label <$> scheme →
       ∃ u, u ∈ scheme ∧ Seat.label s = u_label u ∧ Seat.row s = u_row u
            ∧ Seat.number s = u_number u ∧ Seat.type s = u_type u)
  ∧ bookings r2.2 = bookings d ∧ uploads r2.2 = uploads d
  ∧ bookings r1.2 = bookings d ∧ uploads r1.2 = uploads d.
Proof.
  intros r1 r2 scheme. subst r1 r2. unfold initializeInventory. cbn -[bulk_of].
  fold scheme.
  assert (length (bulkWrite scheme (bulkWrite scheme (seats d)))
          = length (bulkWrite scheme (seats d))) as Hlen.
  { apply bulkWrite_length_present. intros u Hu. apply bulkWrite_labels. left.
    by apply list_elem_of_fmap_2. }
  split; [done|]. split; [by rewrite Hlen|]. split; [done|].
  split; [|split; [|split; [|split]]].
  - intros i s Hs.
    destruct (bulkWrite_lookup scheme _ i s Hs) as (s1 & Hs1 & Hl1 & Hst1 & Ho1).
    destruct (bulkWrite_lookup scheme _ i s1 Hs1) as (s2 & Hs2 & Hl2 & Hst2 & Ho2).
    exists s1, s2. repeat apply conj; congruence.
  - intros u. apply elem_of_bulk_of.
  - intros u Hu. apply bulkWrite_labels. left. by apply list_elem_of_fmap_2.
  - intros Hnd s [Hs|Hs] Hl.
    + apply (bulkWrite_matches scheme [] (seats d)); try done.
      by intros s' _ []%elem_of_nil.
    + apply (bulkWrite_matches scheme [] (bulkWrite scheme (seats d))); try done.
      * by apply bulkWrite_NoDup.
      * by intros s' _ []%elem_of_nil.
  - done.
Qed.

(** The hall after the approval of booking 2, which holds A2, initialised
    again with rows A and B of two seats: four seats both times, A2 still
    occupied by booking 2. *)
Lemma init_idempotent_witness :
  NoDup (Seat.label <$> seats (step (Approve None 2 None) sample))
  ∧ ∀ s, s ∈ seats (initializeInventory (mkInitBody (Some ["a"; "b"]) (Some 2%Z))
                      (step (Approve None 2 None) sample)).2
         ∨ s ∈ seats (initializeInventory (mkInitBody (Some ["a"; "b"]) (Some 2%Z))
                        (initializeInventory (mkInitBody (Some ["a"; "b"]) (Some 2%Z))
                           (step (Approve None 2 None) sample)).2).2 →
         Seat.label s ∈ u_label <$> bulk_of ["A"; "B"] 2 →
         ∃ u, u ∈ bulk_of ["A"; "B"] 2 ∧ Seat.label s = u_label u
              ∧ Seat.row s = u_row u ∧ Seat.number s = u_number u
              ∧ Seat.type s = u_type u.
Proof.
  assert (NoDup (Seat.label <$> seats (step (Approve None 2 None) sample))) as Hnd.
  { compute_done. }
  split; [exact Hnd|].
  pose proof (init_idempotent (mkInitBody (Some ["a"; "b"]) (Some 2%Z))
                (step (Approve None 2 None) sample))
    as (_ & _ & _ & _ & _ & _ & H & _).
  exact (H Hnd).
Defined.

(** Scenario A of the specification: rows A and B with five seats each give
    ten seats, all available; A3 has the tier of row A. *)
Example scenario_A :
  let r := initializeInventory (mkInitBody (Some ["A"; "B"]) (Some 5%Z)) db0 in
  r.1 = json (InitJson "Seats initialized/upserted" 10)
  ∧ Forall (λ s, Seat.status s = Seat.available ∧ Seat.occupiedByBookingId s = None)
           (seats r.2)
  ∧ seats r.2 !! 2 = Some (Seat.mk "A3" "A" 3 Seat.primary Seat.available None).
Proof. vm_compute. repeat constructor. Qed.

(** ** Intake *)

Lemma upload_single_accepted file :
  accepted file → upload_single (Some file) = inr (Some file).
Proof.
  intros [Hf Hs]. unfold upload_single. rewrite Hf.
  by apply N.ltb_ge in Hs as ->.
Qed.

Lemma upload_single_refused file :
  ¬ accepted file → ∃ msg, upload_single (Some file) = inl msg.
Proof.
  intros Hno. unfold upload_single.
  destruct (fileFilter file) eqn:Hf; [|by eexists].
  destruct (fileSize <? size file)%N eqn:Hs; [by eexists|].
  destruct Hno. split; [done|]. by apply N.ltb_ge.
Qed.

Lemma truthy_blank x : Js.truthy_opt x = false ↔ blank x.
Proof.
  unfold blank. destruct x as [[|c s]|]; cbn; split; try done; auto.
  - by intros [|].
Qed.

Lemma truthy_no_amount x : Js.truthy_num x = false ↔ no_amount x.
Proof.
  unfold no_amount. destruct x as [|q]; cbn.
  - split; auto.
  - rewrite negb_false_iff, Qeq_bool_iff. split.
    + intros Hq. right. by exists q.
    + by intros [|(q' & [= <-] & Hq)].
Qed.

(** C9 (as amended) — intake validation.  createPendingBooking never
    touches a seat and creates no booking in any of these cases: the upload
    middleware refuses an attachment that is not of an image type or is
    larger than 5 MiB, before the handler runs; the handler answers 400 when
    the email, the phone or the seats field is absent or empty, when the
    amount is not a number or is zero, or when the attachment is missing;
    past that, it stores the attachment and then answers 500 "Failed to save
    booking after upload" when the email or the phone does not match its
    format or the amount is below 1.  When none of this holds, the seats
    field yields at least one label and storage works, it answers 201 and
    appends one booking with status pending that holds the parsed labels,
    whatever seats exist. *)
Theorem submit_spec fm d :
  (∀ f, seats (createPendingBooking f fm d).2 = seats d)
  ∧ (∀ file, form_screenshot fm = Some file → ¬ accepted file →
       ∃ msg, createPendingBooking None fm d = (Some (mkResponse 500 (NextError msg)), d))
  ∧ ((∀ file, form_screenshot fm = Some file → accepted file) →
     blank (form_email fm) ∨ blank (form_phone fm) ∨ no_amount (form_amount fm)
     ∨ blank (form_seats fm) ∨ form_screenshot fm = None →
     createPendingBooking None fm d = (Some (error 400 required_msg), d))
  ∧ (∀ email phone amount seatsRaw file,
       fm = mkForm (Some email) (Some phone) (Js.Num amount) (Some seatsRaw) (Some file) →
       email ≠ "" → phone ≠ "" → ¬ (amount == 0)%Q → seatsRaw ≠ "" → accepted file →
       let g := mkGridFile (originalname file) (mimetype file) (size file)
                           (email, phone, parse_seats seatsRaw, amount) in
       (¬ email_ok email ∨ ¬ phone_ok phone ∨ (amount < 1)%Q →
        createPendingBooking None fm d
        = (Some (error 500 "Failed to save booking after upload"),
           mkDb (seats d) (bookings d) (uploads d ++ [g])))
       ∧ (email_ok email → phone_ok phone → (1 <= amount)%Q →
          parse_seats seatsRaw ≠ [] →
          ∃ b, createPendingBooking None fm d
               = (Some (mkResponse 201
                    (SubmittedJson "Booking submitted and pending verification"
                                   (length (bookings d)))),
                  mkDb (seats d) (bookings d ++ [b]) (uploads d ++ [g]))
               ∧ Booking.status b = Booking.pending
               ∧ Booking.seatLabels b = parse_seats seatsRaw
               ∧ Booking.seatIds b = []
               ∧ Booking.amount b = amount
               ∧ Booking.screenshotFileId b = length (uploads d))).
Proof.
  split; [intros f; apply (submit_cases f fm d)|]. split; [|split].
  - intros file Hfile Hno. unfold createPendingBooking. rewrite Hfile.
    destruct (upload_single_refused file Hno) as [msg ->]. by exists msg.
  - intros Hacc Hmiss. unfold createPendingBooking.
    assert (∃ file, upload_single (form_screenshot fm) = inr file
                    ∧ file = form_screenshot fm) as (file & -> & ->).
    { destruct (form_screenshot fm) as [file|] eqn:Hfile; [|by eexists].
      rewrite upload_single_accepted by auto. by eexists. }
    unfold run, submit_handler.
    destruct (form_email fm) as [email|] eqn:He, (form_phone fm) as [phone|] eqn:Hp,
      (form_amount fm) as [|amount] eqn:Ha, (form_screenshot fm) as [file|] eqn:Hf;
      try done.
    replace (_ || _) with true; [done|]. symmetry.
    rewrite !orb_true_iff, !negb_true_iff.
    destruct Hmiss as [H|[H|[H|[H|H]]]]; [| | | |done].
    + left. left. left. by apply (truthy_blank (Some email)).
    + left. left. right. by apply (truthy_blank (Some phone)).
    + left. right. by apply truthy_no_amount.
    + right. apply truthy_blank in H. by destruct (form_seats fm).
  - intros email phone amount seatsRaw file -> He Hp Ha Hs Hacc g.
    unfold createPendingBooking. cbn -[upload_single].
    rewrite upload_single_accepted by done.
    unfold run, submit_handler. cbn -[parse_seats cast_email cast_phone validate Qeq_bool].
    assert (Qeq_bool amount 0 = false) as ->.
    { apply not_true_iff_false. by rewrite Qeq_bool_iff. }
    destruct email as [|e0 email]; [done|]. destruct phone as [|p0 phone]; [done|].
    destruct seatsRaw as [|s0 seatsRaw]; [done|].
    cbn -[parse_seats cast_email cast_phone validate].
    unfold try_catch, bind, upload_stream, create, direct, await, throw.
    cbn -[parse_seats cast_email cast_phone validate].
    unfold email_ok, phone_ok.
    unfold validate. cbn -[parse_seats cast_email cast_phone Re.test Qle_bool].
    split.
    + intros Hbad.
      replace (_ && _) with false; [done|]. symmetry.
      rewrite !andb_false_iff.
      destruct Hbad as [H|[H|H]].
      * left. left. by apply not_true_iff_false.
      * left. right. by apply not_true_iff_false.
      * right. apply not_true_iff_false. rewrite Qle_bool_iff. by apply Qlt_not_le.
    + intros -> -> Hq Hlabels. apply Qle_bool_iff in Hq as ->.
      cbn -[parse_seats cast_email cast_phone].
      eexists. split; [reflexivity|]. done.
Qed.

(** A sound form for seat A1 is stored as booking 0 of an empty database,
    in which no seat A1 exists. *)
Lemma submit_spec_witness :
  ∃ b, createPendingBooking None (form "Bob@Example.org" 100 "a1") db0
       = (Some (mkResponse 201
            (SubmittedJson "Booking submitted and pending verification" 0)),
          mkDb [] [b] [mkGridFile "proof.png" "image/png" 1000
                                  ("Bob@Example.org", "9876543210", ["A1"], 100%Q)])
       ∧ Booking.status b = Booking.pending
       ∧ Booking.seatLabels b = ["A1"].
Proof.
  destruct (submit_spec (form "Bob@Example.org" 100 "a1") db0) as (_ & _ & _ & H).
  destruct (H "Bob@Example.org" "9876543210" 100%Q "a1"
              (mkFile "proof.png" "image/png" 1000) eq_refl) as [_ Hok];
    [discriminate|discriminate|discriminate|discriminate|by split|].
  destruct Hok as (b & Hrun & Hst & Hl & _);
    [reflexivity|reflexivity|discriminate|discriminate|].
  exists b. split; [exact Hrun|]. split; [exact Hst|exact Hl].
Defined.

(** C9 (counterexample) — a form with a sound contact, a small PNG, seat
    A1 and the positive amount 1/2 creates no booking: the schema wants an
    amount of at least 1.  And the answer to a malformed email is not a
    validation error of its own: it is the answer given when the insertion
    of a sound booking fails in storage. *)
Lemma submit_rejects_positive_amount :
  (email_ok "bob@example.org" ∧ phone_ok "9876543210" ∧ (0 < 1 # 2)%Q
   ∧ parse_seats "A1" = ["A1"] ∧ accepted (mkFile "proof.png" "image/png" 1000))
  ∧ createPendingBooking None (form "bob@example.org" (1 # 2) "A1") db0
    = (Some (error 500 "Failed to save booking after upload"),
       mkDb [] [] [mkGridFile "proof.png" "image/png" 1000
                              ("bob@example.org", "9876543210", ["A1"], 1 # 2)])
  ∧ ¬ email_ok "bob"
  ∧ (createPendingBooking None (form "bob" 100 "A1") db0).1
    = (createPendingBooking (Some 1) (form "bob@example.org" 100 "A1") db0).1.
Proof.
  split; [|split; [|split]].
  - repeat split; try (vm_compute; reflexivity). vm_compute. discriminate.
  - vm_compute. reflexivity.
  - vm_compute. discriminate.
  - vm_compute. reflexivity.
Qed.

(** The guard on the seats looks at the raw field, not at the parsed list:
    a field made of separators passes it and the booking is stored with no
    seat label. *)
Lemma submit_accepts_separators_only :
  parse_seats " , ," = []
  ∧ ∃ b, createPendingBooking None (form "bob@example.org" 100 " , ,") db0
         = (Some (mkResponse 201
              (SubmittedJson "Booking submitted and pending verification" 0)),
            mkDb [] [b] [mkGridFile "proof.png" "image/png" 1000
                                    ("bob@example.org", "9876543210", [], 100%Q)])
         ∧ Booking.seatLabels b = [].
Proof.
  split; [vm_compute; reflexivity|]. eexists. split; [vm_compute; reflexivity|].
  reflexivity.
Qed.

(** ** Serial approvals of overlapping bookings *)

Lemma approved_db_labels id n b d :
  Seat.label <$> seats (approved_db id n b d) = Seat.label <$> seats d.
Proof.
  unfold approved_db. cbn -[find_in]. apply list_eq. intros i.
  rewrite !list_lookup_fmap, occupy_all_find_in.
  destruct (seats d !! i) as [s|]; [|done]. by case_decide.
Qed.

(** When the approval of one booking has committed, the approval of another
    pending booking whose labels all exist and that shares a label with the
    first answers 409, names that label and changes nothing. *)
Lemma serial_overlap_conflict f (id1 : ObjectId) n1 (id2 : ObjectId) n2 d r1 d1 b1 b2 l :
  approveBooking f id1 n1 d = (Some r1, d1) → code r1 = 200 →
  bookings d !! id1 = Some b1 → bookings d !! id2 = Some b2 → id2 ≠ id1 →
  Booking.status b2 = Booking.pending → unresolved b2 d = [] →
  l ∈ Booking.seatLabels b1 → l ∈ Booking.seatLabels b2 →
  approveBooking None id2 n2 d1 = (Some (Conflict (conflicting b2 d1)), d1)
  ∧ l ∈ conflicting b2 d1.
Proof.
  intros Hrun Hc Hb1 Hb2 Hne Hst Hres Hl1 Hl2.
  destruct (approve_success_inv _ _ _ _ _ _ Hrun Hc) as (b & Hb & _ & Hm & _ & _ & ->).
  assert (b = b1) as -> by congruence.
  assert (l ∈ conflicting b2 (approved_db id1 n1 b1 d)) as Hin.
  { fold (unresolved b1 d) in Hm. rewrite unresolved_exact in Hm.
    assert (l ∈ Seat.label <$> seats d) as Hex.
    { destruct (decide (l ∈ Seat.label <$> seats d)) as [|Hno]; [done|].
      exfalso. eapply filter_nil_not_elem_of; [exact Hm|exact Hno|exact Hl1]. }
    apply list_elem_of_fmap in Hex as (s & -> & [i Hs]%list_elem_of_lookup).
    rewrite conflicting_exact. apply list_elem_of_fmap.
    exists (occupy_for id1 s). split; [done|].
    rewrite !list_elem_of_filter. split; [done|]. split; [done|].
    apply list_elem_of_lookup. exists i. unfold approved_db. cbn -[find_in].
    by rewrite occupy_all_find_in, Hs, decide_True. }
  split; [|done].
  apply approve_conflict_case; try done.
  - unfold approved_db. cbn -[find_in]. by rewrite list_lookup_insert_ne.
  - by rewrite unresolved_exact, approved_db_labels, <- unresolved_exact.
  - intros Hnil. rewrite Hnil in Hin. by apply elem_of_nil in Hin.
Qed.

(** ** Unique labels *)

Lemma findOneAndUpdate_labels lbl f l :
  (∀ s, Seat.label (f s) = Seat.label s) →
  Seat.label <$> (findOneAndUpdate lbl f l).2 = Seat.label <$> l.
Proof.
  intros Hf. induction l as [|s l IH]; [done|].
  cbn. case_decide; cbn.
  - by rewrite Hf.
  - destruct (findOneAndUpdate lbl f l) as [r l']. cbn in *. by rewrite IH.
Qed.

(** Every operation keeps the labels of the seats pairwise different, as
    the unique index of the schema requires. *)
Lemma step_labels_unique o d :
  NoDup (Seat.label <$> seats d) → NoDup (Seat.label <$> seats (step o d)).
Proof.
  intros Hd. destruct o as [ib|l|l|f fm|f id n|f id n]; cbn.
  - by apply bulkWrite_NoDup.
  - unfold occupySeat.
    pose proof (findOneAndUpdate_labels (Js.toUpperCase l) set_occupied (seats d)
                  (λ s, eq_refl)) as H.
    destruct (findOneAndUpdate _ _ _) as [[s|] l']; [|done]. cbn in *. by rewrite H.
  - unfold releaseSeat.
    pose proof (findOneAndUpdate_labels (Js.toUpperCase l) set_released (seats d)
                  (λ s, eq_refl)) as H.
    destruct (findOneAndUpdate _ _ _) as [[s|] l']; [|done]. cbn in *. by rewrite H.
  - by rewrite (proj1 (submit_cases f fm d)).
  - destruct (approve_cases f id n d) as [->|(i & b & -> & _ & _ & ->)]; [done|].
    by rewrite approved_db_labels.
  - destruct (reject_cases f id n d) as [->|(i & b & -> & _ & _ & _ & ->)]; done.
Qed.

(** In every state reached from the empty database the labels are unique. *)
Lemma reachable_labels_unique ops : NoDup (Seat.label <$> seats (exec ops db0)).
Proof.
  assert (NoDup (Seat.label <$> seats db0)) as H0 by apply NoDup_nil_2.
  unfold exec. revert H0. generalize db0.
  induction ops as [|o ops IH]; intros d Hd; [done|].
  cbn. by apply IH, step_labels_unique.
Qed.

(** ** The scenarios of the specification *)

(** Scenario B: a pending booking for A1 and A2 is approved; both seats
    become occupied by it and it holds two references. *)
Example scenario_B :
  let d := with_bookings hall [request ["A1"; "A2"]] in
  let r := approveBooking None 0 None d in
  r.1 = Some (json (ApprovedJson "Approved and seats marked as occupied" 0 ["A1"; "A2"]))
  ∧ (Seat.status <$> seats r.2) = [Seat.occupied; Seat.occupied; Seat.available; Seat.available]
  ∧ (Seat.occupiedByBookingId <$> seats r.2) = [Some 0; Some 0; None; None]
  ∧ ((λ b, (Booking.status b, Booking.seatIds b)) <$> bookings r.2)
    = [(Booking.approved, [0; 1])].
Proof. vm_compute. repeat split. Qed.

(** Scenario C: Z9 does not exist; the approval reports it and A1 stays
    available. *)
Example scenario_C :
  approveBooking None 1 None sample = (Some (UnresolvedSeats ["Z9"]), sample)
  ∧ Seat.status <$> seats sample !! 0 = Some Seat.available.
Proof. vm_compute. repeat split. Qed.

(** Scenario D: a second approval of the same booking reports the state
    approved. *)
Example scenario_D :
  (approveBooking None 2 None (step (Approve None 2 None) sample)).1
  = Some (InvalidState Booking.approved).
Proof. vm_compute. reflexivity. Qed.

(** Scenario E: rejecting an approved booking is refused and leaves the
    database, its occupied seats included, as it was. *)
Example scenario_E :
  let d := step (Approve None 2 None) sample in
  rejectBooking None 2 None d
  = (Some (error 400 "Booking status is approved, cannot reject"), d)
  ∧ occupied_ids d = [1].
Proof. vm_compute. repeat split. Qed.

(** * Further properties *)

(** ** What an approval presupposes *)

Lemma filter_nil_inv {A} (P : A → Prop) `{!∀ x, Decision (P x)} (l : list A) x :
  filter P l = [] → x ∈ l → ¬ P x.
Proof. intros Hnil Hx HP. by eapply filter_nil_not_elem_of. Qed.

(** X1 — an approval never takes a seat that is missing or not available:
    whenever approveBooking answers 200, whatever storage failure was
    scheduled, the booking existed and was pending, every requested label
    was the label of a seat, and every seat with a requested label was
    available before the call. *)
Theorem approve_only_takes_available f (id : ObjectId) adminNotes d r d' :
  approveBooking f id adminNotes d = (Some r, d') →
  code r = 200 →
  ∃ b, bookings d !! id = Some b
     ∧ Booking.status b = Booking.pending
     ∧ (∀ l, l ∈ Booking.seatLabels b → l ∈ Seat.label <$> seats d)
     ∧ (∀ s, s ∈ seats d → Seat.label s ∈ Booking.seatLabels b →
             Seat.status s = Seat.available).
Proof.
  intros Hrun Hc.
  destruct (approve_success_inv _ _ _ _ _ _ Hrun Hc) as (b & Hb & Hst & Hm & Ho & _ & _).
  exists b. split; [done|]. split; [done|].
  fold (unresolved b d) in Hm. fold (conflicting b d) in Ho.
  rewrite unresolved_exact in Hm. rewrite conflicting_exact in Ho.
  apply fmap_nil_inv in Ho. split.
  - intros l Hl. destruct (decide (l ∈ Seat.label <$> seats d)) as [|Hno]; [done|].
    by destruct (filter_nil_inv _ _ l Hm Hl).
  - intros s Hs Hl. destruct (decide (Seat.status s = Seat.available)) as [|Hno]; [done|].
    destruct (filter_nil_inv _ _ s Ho); [|done].
    by apply list_elem_of_filter.
Qed.

Lemma approve_only_takes_available_witness :
  ∃ b, bookings sample !! 2 = Some b
     ∧ Booking.status b = Booking.pending
     ∧ (∀ l, l ∈ Booking.seatLabels b → l ∈ Seat.label <$> seats sample)
     ∧ (∀ s, s ∈ seats sample → Seat.label s ∈ Booking.seatLabels b →
             Seat.status s = Seat.available).
Proof.
  refine (approve_only_takes_available None 2 None sample
            (json (ApprovedJson "Approved and seats marked as occupied" 2 ["A2"]))
            (approved_db 2 None (request ["A2"]) sample) _ _).
  - vm_compute. reflexivity.
  - reflexivity.
Defined.

(** ** Decided bookings *)

(** Both handlers leave the whole database alone on a booking that is not
    pending, whatever fails. *)
Lemma decided_untouched f (id : ObjectId) adminNotes d b :
  bookings d !! id = Some b → Booking.status b ≠ Booking.pending →
  (approveBooking f id adminNotes d).2 = d ∧ (rejectBooking f id adminNotes d).2 = d.
Proof.
  intros Hb Hst. split.
  - destruct (approve_cases f id adminNotes d)
      as [->|(i & b' & [= <-] & Hb' & Hst' & _)]; [done|].
    congruence.
  - destruct (reject_cases f id adminNotes d)
      as [->|(i & b' & [= <-] & Hb' & Hst' & _)]; [done|].
    congruence.
Qed.

Lemma approved_db_booking id n b d :
  bookings d !! id = Some b →
  ∃ b', bookings (approved_db id n b d) !! id = Some b'
        ∧ Booking.status b' = Booking.approved.
Proof.
  intros Hb. exists (decide_booking Booking.approved (fst <$> (find_in (Booking.seatLabels b) d).1) n b).
  split; [|reflexivity]. unfold approved_db. cbn -[find_in].
  apply list_lookup_insert_eq. by apply lookup_lt_Some in Hb.
Qed.

(** X2 — an approval is final: after an approveBooking that answered 200,
    a second approval of the same booking and a rejection of it leave the
    whole database, its occupied seats included, as the first approval left
    it, whatever fails; when storage works they answer 400 naming the status
    approved. *)
Theorem approve_then_decide f (id : ObjectId) adminNotes d r d1 :
  approveBooking f id adminNotes d = (Some r, d1) →
  code r = 200 →
  ∀ f' n',
    (approveBooking f' id n' d1).2 = d1
    ∧ (rejectBooking f' id n' d1).2 = d1
    ∧ approveBooking None id n' d1 = (Some (InvalidState Booking.approved), d1)
    ∧ rejectBooking None id n' d1
      = (Some (error 400 "Booking status is approved, cannot reject"), d1).
Proof.
  intros Hrun Hc f' n'.
  destruct (approve_success_inv _ _ _ _ _ _ Hrun Hc) as (b & Hb & _ & _ & _ & _ & ->).
  destruct (approved_db_booking id adminNotes b d Hb) as (b' & Hb' & Hst').
  assert (Booking.status b' ≠ Booking.pending) as Hne by (rewrite Hst'; discriminate).
  destruct (decided_untouched f' id n' _ b' Hb' Hne) as [Ha Hr].
  split; [done|]. split; [done|]. split.
  - by rewrite approve_no_fault, Hb', decide_True, Hst'.
  - by rewrite reject_no_fault, Hb', decide_True, Hst'.
Qed.

Lemma approve_then_decide_witness :
  (approveBooking (Some 0) 2 None (approved_db 2 None (request ["A2"]) sample)).2
  = approved_db 2 None (request ["A2"]) sample
  ∧ (rejectBooking (Some 0) 2 None (approved_db 2 None (request ["A2"]) sample)).2
    = approved_db 2 None (request ["A2"]) sample
  ∧ approveBooking None 2 None (approved_db 2 None (request ["A2"]) sample)
    = (Some (InvalidState Booking.approved), approved_db 2 None (request ["A2"]) sample)
  ∧ rejectBooking None 2 None (approved_db 2 None (request ["A2"]) sample)
    = (Some (error 400 "Booking status is approved, cannot reject"),
       approved_db 2 None (request ["A2"]) sample).
Proof.
  refine (approve_then_decide None 2 None sample
            (json (ApprovedJson "Approved and seats marked as occupied" 2 ["A2"]))
            (approved_db 2 None (request ["A2"]) sample) _ _ (Some 0) None).
  - vm_compute. reflexivity.
  - reflexivity.
Defined.

(** A rejection that answers 200 found a pending booking and rewrote it. *)
Lemma reject_success_inv f (id : ObjectId) adminNotes d r d' :
  rejectBooking f id adminNotes d = (Some r, d') → code r = 200 →
  ∃ b, bookings d !! id = Some b ∧ Booking.status b = Booking.pending
       ∧ d' = rejected_db id adminNotes b d.
Proof.
  unfold rejectBooking, run, reject_handler, findById, bind, try_catch, direct, await.
  cbn -[append validate].
  destruct (fails _); [by intros [= <- <-]|]. cbn -[append validate].
  destruct (bookings d !! id) as [b|] eqn:Hb; [|by intros [= <- <-]].
  cbn -[append validate].
  case_decide as Hst; [by intros [= <- <-]|]. unfold save_booking, throw.
  destruct (validate _); [|by intros [= <- <-]].
  cbn. destruct (fails _); [by intros [= <- <-]|].
  cbn. intros [= <- <-] _. by exists b.
Qed.

(** X3 — a rejection is final and never reaches a seat: after a
    rejectBooking that answered 200, the seats are as before the rejection,
    and a later approval or rejection of that booking changes nothing,
    whatever fails; when storage works the approval answers 400 naming the
    status rejected. *)
Theorem reject_then_decide f (id : ObjectId) adminNotes d r d1 :
  rejectBooking f id adminNotes d = (Some r, d1) →
  code r = 200 →
  seats d1 = seats d
  ∧ ∀ f' n',
      (approveBooking f' id n' d1).2 = d1
      ∧ (rejectBooking f' id n' d1).2 = d1
      ∧ approveBooking None id n' d1 = (Some (InvalidState Booking.rejected), d1).
Proof.
  intros Hrun Hc.
  destruct (reject_success_inv _ _ _ _ _ _ Hrun Hc) as (b & Hb & Hst & ->).
  split; [done|]. intros f' n'.
  assert (bookings (rejected_db id adminNotes b d) !! id
          = Some (decide_booking Booking.rejected (Booking.seatIds b) adminNotes b))
    as Hb'.
  { unfold rejected_db. cbn. apply list_lookup_insert_eq. by apply lookup_lt_Some in Hb. }
  destruct (decided_untouched f' id n' _ _ Hb') as [Ha Hr]; [by cbn|].
  split; [done|]. split; [done|].
  by rewrite approve_no_fault, Hb', decide_True.
Qed.

Lemma reject_then_decide_witness :
  seats (rejected_db 1 (Some "no") (request ["A1"; "Z9"]) sample) = seats sample
  ∧ (approveBooking (Some 1) 1 None
       (rejected_db 1 (Some "no") (request ["A1"; "Z9"]) sample)).2
    = rejected_db 1 (Some "no") (request ["A1"; "Z9"]) sample
  ∧ (rejectBooking (Some 1) 1 None
       (rejected_db 1 (Some "no") (request ["A1"; "Z9"]) sample)).2
    = rejected_db 1 (Some "no") (request ["A1"; "Z9"]) sample
  ∧ approveBooking None 1 None (rejected_db 1 (Some "no") (request ["A1"; "Z9"]) sample)
    = (Some (InvalidState Booking.rejected),
       rejected_db 1 (Some "no") (request ["A1"; "Z9"]) sample).
Proof.
  destruct (reject_then_decide None 1 (Some "no") sample
              (json (RejectedJson "Booking rejected" 1))
              (rejected_db 1 (Some "no") (request ["A1"; "Z9"]) sample))
    as [Hs Hrest].
  - vm_compute. reflexivity.
  - reflexivity.
  - split; [exact Hs|]. exact (Hrest (Some 1) None).
Defined.

(** ** The writes of the operations *)

Lemma lower_char_idemp c : Js.lower_char (Js.lower_char c) = Js.lower_char c.
Proof. destruct c as [[] [] [] [] [] [] [] []]; reflexivity. Qed.

Lemma upper_char_idemp c : Js.upper_char (Js.upper_char c) = Js.upper_char c.
Proof. destruct c as [[] [] [] [] [] [] [] []]; reflexivity. Qed.

Lemma toLowerCase_idemp s : Js.toLowerCase (Js.toLowerCase s) = Js.toLowerCase s.
Proof.
  induction s as [|c s IH]; [done|].
  cbn. f_equal; [apply lower_char_idemp|exact IH].
Qed.

Lemma toUpperCase_idemp s : Js.toUpperCase (Js.toUpperCase s) = Js.toUpperCase s.
Proof.
  induction s as [|c s IH]; [done|].
  cbn. f_equal; [apply upper_char_idemp|exact IH].
Qed.

(** A run of the approve handler leaves the database as it was or went
    through the four checks and committed. *)
Lemma approve_result f bookingId n d :
  (approveBooking f bookingId n d).2 = d
  ∨ ∃ (id : ObjectId) b,
      bookingId = id ∧ bookings d !! id = Some b ∧ Booking.status b = Booking.pending
      ∧ unresolved b d = [] ∧ conflicting b d = []
      ∧ (approveBooking f bookingId n d).2 = approved_db id n b d.
Proof.
  destruct bookingId as [id|]; [|by left].
  destruct (approveBooking f id n d) as [r d'] eqn:Hrun.
  destruct (decide (code <$> r = Some 200)) as [Hc|Hc].
  - right. destruct r as [r|]; [|done]. injection Hc as Hc.
    destruct (approve_success_inv _ _ _ _ _ _ Hrun Hc) as (b & ? & ? & ? & ? & _ & ->).
    by exists id, b.
  - left. cbn. by apply (approve_failure_unchanged _ _ _ _ _ _ Hrun).
Qed.

Lemma approve_change f id n d : Change d (approveBooking f id n d).2.
Proof.
  destruct (approve_result f id n d) as [->|(i & b & -> & ? & ? & ? & ? & ->)];
    [constructor|].
  by apply ch_approve.
Qed.

Lemma reject_change f id n d : Change d (rejectBooking f id n d).2.
Proof.
  destruct (reject_cases f id n d) as [->|(i & b & -> & ? & ? & _ & ->)]; [constructor|].
  by apply ch_reject.
Qed.

Lemma submit_change f fm d : Change d (createPendingBooking f fm d).2.
Proof.
  unfold createPendingBooking.
  destruct (upload_single _) as [msg|file]; [constructor|].
  unfold run, submit_handler.
  destruct (form_email fm) as [email|], (form_phone fm) as [phone|],
    (form_amount fm) as [|amount], file as [file|];
    try constructor.
  destruct (_ || _); [constructor|].
  unfold try_catch, bind, upload_stream, create, direct, await, throw.
  cbn -[validate parse_seats cast_email cast_phone].
  destruct (fails _); [constructor|].
  cbn -[validate parse_seats cast_email cast_phone].
  destruct (validate _) eqn:Hv; [|apply ch_upload].
  destruct (fails _); [apply ch_upload|].
  unfold ret, next. cbn -[validate parse_seats cast_email cast_phone].
  refine (ch_submit d
    (mkGridFile (originalname file) (mimetype file) (size file)
       (email, phone, parse_seats (default "" (form_seats fm)), amount))
    (Booking.mk (cast_email email) (cast_phone phone) amount
       (parse_seats (default "" (form_seats fm))) [] (length (uploads d))
       (originalname file) (mimetype file) (size file) Booking.pending None)
    Hv _ _ _ _ _ _ _); try done.
  apply toLowerCase_idemp.
Qed.

(** Every operation makes one of the writes. *)
Lemma step_change o d : Change d (step o d).
Proof.
  destruct o as [ib|l|l|f fm|f id n|f id n]; cbn -[bulk_of].
  - apply ch_bulk.
  - unfold occupySeat.
    pose proof (ch_occupy d (Js.toUpperCase l)) as H.
    destruct (findOneAndUpdate _ _ _) as [[s|] l'] eqn:Hf; [exact H|constructor].
  - unfold releaseSeat.
    pose proof (ch_release d (Js.toUpperCase l)) as H.
    destruct (findOneAndUpdate _ _ _) as [[s|] l'] eqn:Hf; [exact H|constructor].
  - apply submit_change.
  - apply approve_change.
  - apply reject_change.
Qed.

(** A property that the empty database has and every write keeps holds
    after every sequence of operations. *)
Lemma reachable_ind (I : Db → Prop) :
  I db0 → (∀ d d', Change d d' → I d → I d') → ∀ ops, I (exec ops db0).
Proof.
  intros H0 Hstep ops. unfold exec. revert H0. generalize db0.
  induction ops as [|o ops IH]; intros d Hd; [done|].
  cbn. apply IH. eapply Hstep; [apply step_change|done].
Qed.

(** *** What the writes do to one seat *)

Lemma upsert_lookup_inv u l i s' :
  upsert u l !! i = Some s' →
  (∃ s, l !! i = Some s ∧ Seat.label s' = Seat.label s
        ∧ Seat.status s' = Seat.status s
        ∧ Seat.occupiedByBookingId s' = Seat.occupiedByBookingId s)
  ∨ (l !! i = None ∧ s' = inserted u).
Proof.
  revert i. induction l as [|a l IH]; intros i; cbn.
  - destruct i; [|done]. intros [= <-]. by right.
  - destruct (decide (Seat.label a = u_label u)) as [Heq|Hne].
    + destruct i as [|i]; cbn.
      * intros [= <-]. left. exists a. by rewrite Heq.
      * intros Hs. left. by exists s'.
    + destruct i as [|i]; cbn.
      * intros [= <-]. left. by exists a.
      * apply IH.
Qed.

Lemma bulkWrite_lookup_inv ops l i s' :
  bulkWrite ops l !! i = Some s' →
  (∃ s, l !! i = Some s ∧ Seat.label s' = Seat.label s
        ∧ Seat.status s' = Seat.status s
        ∧ Seat.occupiedByBookingId s' = Seat.occupiedByBookingId s)
  ∨ (l !! i = None ∧ Seat.status s' = Seat.available
     ∧ Seat.occupiedByBookingId s' = None).
Proof.
  revert l. induction ops as [|u ops IH]; intros l.
  - intros Hs. left. by exists s'.
  - rewrite bulkWrite_cons. intros Hs.
    destruct (IH _ Hs) as [(s1 & Hs1 & Hl & Hst & Ho)|(Hnone & Hst & Ho)].
    + destruct (upsert_lookup_inv u l i s1 Hs1) as [(s & Hs0 & Hl0 & Hst0 & Ho0)|[Hn ->]].
      * left. exists s. repeat split; congruence.
      * right. cbn in *. by rewrite Hst, Ho.
    + right. split; [|done].
      apply lookup_ge_None. apply lookup_ge_None in Hnone.
      assert (length l ≤ length (upsert u l)); [|lia].
      rewrite <- !(length_fmap Seat.label), upsert_labels.
      case_decide; [done|]. rewrite length_app. lia.
Qed.

Lemma findOneAndUpdate_lookup_inv lbl f l i s' :
  (findOneAndUpdate lbl f l).2 !! i = Some s' →
  ∃ s, l !! i = Some s ∧ (s' = s ∨ s' = f s).
Proof.
  revert i. induction l as [|a l IH]; intros i; [done|].
  cbn. case_decide; cbn.
  - destruct i as [|i]; cbn.
    + intros [= <-]. exists a. auto.
    + intros Hs. exists s'. auto.
  - destruct (findOneAndUpdate lbl f l) as [r l'] eqn:Hf. cbn in *.
    destruct i as [|i]; cbn.
    + intros [= <-]. exists a. auto.
    + apply IH.
Qed.

Lemma findOneAndUpdate_length lbl f l :
  length (findOneAndUpdate lbl f l).2 = length l.
Proof.
  induction l as [|a l IH]; [done|].
  cbn. case_decide; cbn; [done|].
  destruct (findOneAndUpdate lbl f l) as [r l']. cbn in *. by rewrite IH.
Qed.

(** No write removes a seat or changes the label of one. *)
Lemma change_keeps_label d d' i s :
  Change d d' → seats d !! i = Some s →
  ∃ s', seats d' !! i = Some s' ∧ Seat.label s' = Seat.label s.
Proof.
  intros Hch Hs. destruct Hch; cbn -[find_in]; try (by exists s).
  - destruct (bulkWrite_lookup ops _ i s Hs) as (s' & ? & ? & _). by exists s'.
  - assert (is_Some ((findOneAndUpdate lbl set_occupied (seats d)).2 !! i)) as [s' Hs'].
    { apply lookup_lt_is_Some. rewrite findOneAndUpdate_length. by eapply lookup_lt_Some. }
    exists s'. split; [done|].
    destruct (findOneAndUpdate_lookup_inv _ _ _ _ _ Hs') as (s0 & Hs0 & [->| ->]);
      cbn; congruence.
  - assert (is_Some ((findOneAndUpdate lbl set_released (seats d)).2 !! i)) as [s' Hs'].
    { apply lookup_lt_is_Some. rewrite findOneAndUpdate_length. by eapply lookup_lt_Some. }
    exists s'. split; [done|].
    destruct (findOneAndUpdate_lookup_inv _ _ _ _ _ Hs') as (s0 & Hs0 & [->| ->]);
      cbn; congruence.
  - rewrite occupy_all_find_in, Hs. case_decide; by eexists.
Qed.

(** No write removes a booking, changes a booking that is not pending, or
    changes the requested labels of a booking. *)
Lemma change_keeps_booking d d' j bk :
  Change d d' → bookings d !! j = Some bk →
  ∃ bk', bookings d' !! j = Some bk'
         ∧ Booking.seatLabels bk' = Booking.seatLabels bk
         ∧ (Booking.status bk ≠ Booking.pending → bk' = bk).
Proof.
  intros Hch Hj. destruct Hch; cbn -[find_in]; try (by exists bk).
  - exists bk. split; [|done]. by apply lookup_app_l_Some.
  - destruct (decide (j = id)) as [->|Hne].
    + eexists. split; [apply list_lookup_insert_eq; by eapply lookup_lt_Some|].
      assert (b = bk) as -> by congruence. split; [done|]. congruence.
    + exists bk. by rewrite list_lookup_insert_ne.
  - destruct (decide (j = id)) as [->|Hne].
    + eexists. split; [apply list_lookup_insert_eq; by eapply lookup_lt_Some|].
      assert (b = bk) as -> by congruence. split; [done|]. congruence.
    + exists bk. by rewrite list_lookup_insert_ne.
Qed.

(** ** Invariants of the reachable states *)

Lemma change_links_sound d d' : Change d d' → links_sound d → links_sound d'.
Proof.
  intros Hch Hd. destruct Hch; try done.
  - intros i s' b Hs' Hlink. cbn in Hs'.
    destruct (bulkWrite_lookup_inv _ _ _ _ Hs') as [(s & Hs & Hl & Hst & Ho)|(_ & _ & Ho)];
      [|congruence].
    rewrite Hl, Hst. apply (Hd i s b Hs). congruence.
  - intros i s' b Hs' Hlink. cbn in Hs'.
    destruct (findOneAndUpdate_lookup_inv _ _ _ _ _ Hs') as (s & Hs & [->| ->]).
    + by apply (Hd i s b).
    + cbn in *. destruct (Hd i s b Hs Hlink) as [_ Hbk]. done.
  - intros i s' b Hs' Hlink. cbn in Hs'.
    destruct (findOneAndUpdate_lookup_inv _ _ _ _ _ Hs') as (s & Hs & [->| ->]).
    + by apply (Hd i s b).
    + by cbn in Hlink.
  - intros i s b0 Hs Hlink. cbn in Hs.
    destruct (Hd i s b0 Hs Hlink) as [Hst (bk & Hbk & Hrest)].
    split; [done|]. exists bk. split; [|done]. cbn. by apply lookup_app_l_Some.
  - intros i s' b0 Hs' Hlink. unfold approved_db in *. cbn -[find_in] in *.
    rewrite occupy_all_find_in in Hs'.
    destruct (seats d !! i) as [s|] eqn:Hs; [|done].
    destruct (decide (Seat.label s ∈ Booking.seatLabels b)) as [Hl|Hl].
    + injection Hs' as <-. cbn in *. injection Hlink as <-. split; [done|].
      eexists. split; [apply list_lookup_insert_eq; by eapply lookup_lt_Some|].
      cbn -[find_in]. split; [done|]. split; [|done].
      apply found_ids. by exists s.
    + injection Hs' as <-.
      destruct (Hd i s b0 Hs Hlink) as [Hst (bk & Hbk & Hap & Hrest)].
      split; [done|]. exists bk. split; [|done].
      rewrite list_lookup_insert_ne; [done|]. intros ->. congruence.
  - intros i s b0 Hs Hlink. cbn in Hs.
    destruct (Hd i s b0 Hs Hlink) as [Hst (bk & Hbk & Hap & Hrest)].
    split; [done|]. exists bk. split; [|done]. cbn.
    rewrite list_lookup_insert_ne; [done|]. intros ->. congruence.
Qed.


Lemma refs_sound_mono d d' bk :
  (∀ i s, seats d !! i = Some s →
     ∃ s', seats d' !! i = Some s' ∧ Seat.label s' = Seat.label s) →
  refs_sound d bk → refs_sound d' bk.
Proof.
  intros Hkeep [Hnone Happ]. split; [done|]. intros Hst.
  destruct (Happ Hst) as (Hnd & Hids & Hlabels). split; [done|]. split.
  - intros i Hi. destruct (Hids i Hi) as (s & Hs & Hl).
    destruct (Hkeep i s Hs) as (s' & Hs' & Hl'). exists s'. by rewrite Hl'.
  - intros l Hl. destruct (Hlabels l Hl) as (i & s & Hi & Hs & Hls).
    destruct (Hkeep i s Hs) as (s' & Hs' & Hl'). exists i, s'. by rewrite Hl'.
Qed.

Lemma change_refs_sound d d' :
  Change d d' → Forall (refs_sound d) (bookings d) → Forall (refs_sound d') (bookings d').
Proof.
  intros Hch Hd.
  assert (Forall (refs_sound d') (bookings d)) as Hold.
  { eapply Forall_impl; [exact Hd|]. intros bk. apply refs_sound_mono.
    intros i s. by apply change_keeps_label. }
  destruct Hch; try done.
  - cbn. apply Forall_app. split; [done|]. apply Forall_singleton.
    split; [done|]. intros Hst. congruence.
  - unfold approved_db in *. cbn -[find_in] in *.
    apply Forall_insert; [done|].
    split; [by cbn|]. intros _. cbn -[find_in].
    split; [apply found_ids_NoDup|]. split.
    + intros i (s & Hs & Hl)%found_ids.
      exists (occupy_for id s). rewrite occupy_all_find_in, Hs, decide_True by done.
      done.
    + intros l Hl.
      assert (l ∈ Seat.label <$> seats d) as Hex.
      { destruct (decide (l ∈ Seat.label <$> seats d)) as [|Hno]; [done|].
        rewrite unresolved_exact in H1. by destruct (filter_nil_inv _ _ l H1 Hl). }
      apply list_elem_of_fmap in Hex as (s & -> & [i Hs]%list_elem_of_lookup).
      exists i, (occupy_for id s). split; [apply found_ids; by exists s|].
      split; [|done]. by rewrite occupy_all_find_in, Hs, decide_True.
  - unfold rejected_db in *. cbn in *.
    apply Forall_insert; [done|].
    pose proof (Forall_lookup_1 _ _ _ _ Hd H) as [Hnone _].
    split; [|by cbn]. intros _. cbn. apply Hnone. congruence.
Qed.

(** X5 — resolved references: after every sequence of operations from the
    empty database, a booking that is not approved has no resolved
    reference, and the resolved references of an approved booking are
    pairwise different, each is a seat that still exists and carries a label
    the booking asked for, and every label the booking asked for is carried
    by one of them. *)
Theorem reachable_refs_sound ops :
  Forall (refs_sound (exec ops db0)) (bookings (exec ops db0)).
Proof.
  apply (reachable_ind (λ d, Forall (refs_sound d) (bookings d))).
  - constructor.
  - apply change_refs_sound.
Qed.

(** No write removes or changes a stored file. *)
Lemma change_keeps_upload d d' k g :
  Change d d' → uploads d !! k = Some g → uploads d' !! k = Some g.
Proof.
  intros Hch Hk. destruct Hch; cbn -[find_in]; try done; by apply lookup_app_l_Some.
Qed.

Lemma booking_valid_mono d d' bk :
  (∀ k g, uploads d !! k = Some g → uploads d' !! k = Some g) →
  booking_valid d bk → booking_valid d' bk.
Proof.
  intros Hkeep (Hv & He & g & Hg & Hrest). split; [done|]. split; [done|].
  exists g. split; [by apply Hkeep|done].
Qed.

Lemma booking_valid_decide d st ids n bk :
  booking_valid d bk → booking_valid d (decide_booking st ids n bk).
Proof. intros (Hv & He & Hg). split; [exact Hv|]. split; [exact He|exact Hg]. Qed.

Lemma change_bookings_valid d d' :
  Change d d' →
  Forall (booking_valid d) (bookings d) → Forall (booking_valid d') (bookings d').
Proof.
  intros Hch Hd.
  assert (Forall (booking_valid d') (bookings d)) as Hold.
  { eapply Forall_impl; [exact Hd|]. intros bk. apply booking_valid_mono.
    intros k g. by apply change_keeps_upload. }
  destruct Hch; try done.
  - cbn. apply Forall_app. split; [done|]. apply Forall_singleton.
    split; [done|]. split; [done|]. exists g. cbn. split; [|done].
    rewrite H3. by apply list_lookup_middle.
  - unfold approved_db in *. cbn -[find_in] in *.
    apply Forall_insert; [done|]. apply booking_valid_decide.
    by apply (Forall_lookup_1 _ _ _ _ Hold H).
  - unfold rejected_db in *. cbn in *.
    apply Forall_insert; [done|]. apply booking_valid_decide.
    by apply (Forall_lookup_1 _ _ _ _ Hold H).
Qed.

(** X6 — stored bookings are valid: after every sequence of operations
    from the empty database, every booking of the collection passes the
    validators of the schema (email and phone formats, amount at least 1),
    holds its email in lower case, and refers to a stored file whose name,
    type and size are those recorded in the booking. *)
Theorem reachable_bookings_valid ops :
  Forall (booking_valid (exec ops db0)) (bookings (exec ops db0)).
Proof.
  apply (reachable_ind (λ d, Forall (booking_valid d) (bookings d))).
  - constructor.
  - apply change_bookings_valid.
Qed.

(** ** Approvals and seats that are held *)

(** X7 — an approval never takes over a held seat: in a state where every
    seat with an occupant link is occupied (the empty database is such a
    state and every operation keeps it so), approveBooking, for any booking
    and whether it succeeds or fails, leaves every seat that carries an
    occupant link exactly as it was. *)
Theorem approve_never_steals f id adminNotes d i s b0 :
  Forall linked_then_occupied (seats d) →
  seats d !! i = Some s →
  Seat.occupiedByBookingId s = Some b0 →
  seats (approveBooking f id adminNotes d).2 !! i = Some s.
Proof.
  intros Hinv Hs Hlink.
  destruct (approve_result f id adminNotes d)
    as [->|(j & b & -> & _ & _ & _ & Ho & ->)]; [done|].
  unfold approved_db. cbn -[find_in]. rewrite occupy_all_find_in, Hs.
  rewrite decide_False; [done|]. intros Hl.
  rewrite conflicting_exact in Ho. apply fmap_nil_inv in Ho.
  apply (filter_nil_inv _ _ s Ho).
  - apply list_elem_of_filter. split; [done|]. by eapply list_elem_of_lookup_2.
  - rewrite (Forall_lookup_1 _ _ _ _ Hinv Hs); [done|]. congruence.
Qed.

(** Seat A2 of the sample is held by booking 2 when booking 0, which asks
    for B1 and A2, is approved. *)
Lemma approve_never_steals_witness :
  seats (approveBooking None 0 None (approved_db 2 None (request ["A2"]) sample)).2 !! 1
  = Some (Seat.mk "A2" "A" 2 Seat.primary Seat.occupied (Some 2)).
Proof.
  apply (approve_never_steals None 0 None (approved_db 2 None (request ["A2"]) sample)
           1 _ 2).
  - vm_compute. repeat constructor; cbn; congruence.
  - reflexivity.
  - reflexivity.
Defined.

(** ** The manual occupy and release actions *)

(** [findOneAndUpdate] writes at the position of the first match. *)
Lemma findOneAndUpdate_find lbl f l :
  findOneAndUpdate lbl f l =
  match findOne lbl l with
  | Some (i, s) => (Some (f s), <[i := f s]> l)
  | None => (None, l)
  end.
Proof.
  unfold findOne. induction l as [|a l IH]; [done|].
  cbn. case_decide; [done|].
  rewrite IH. by destruct (list_find _ l) as [[i s]|].
Qed.

Lemma findOne_None lbl l : findOne lbl l = None ↔ lbl ∉ Seat.label <$> l.
Proof.
  unfold findOne. rewrite list_find_None, Forall_forall, list_elem_of_fmap. split.
  - intros Hno (s & -> & Hs). by apply (Hno s).
  - intros Hno s Hs Hl. apply Hno. by exists s.
Qed.

Lemma findOne_Some lbl l i s :
  findOne lbl l = Some (i, s) ↔
  l !! i = Some s ∧ Seat.label s = lbl
  ∧ ∀ j s', l !! j = Some s' → j < i → Seat.label s' ≠ lbl.
Proof. exact (list_find_Some (λ s, Seat.label s = lbl) l i s). Qed.

(** X8 — outcome of the manual occupy and release actions: with the label
    of the request upper-cased, each answers 404 "Seat not found" and leaves
    the database as it was when no seat carries the label; otherwise each
    answers 200 with the rewritten seat and rewrites one document, the first
    that carries the label: occupy sets its status to occupied and keeps its
    occupant link, release sets its status to available and clears the link;
    every other seat, the bookings and the stored files are as they were. *)
Theorem occupy_release_outcome param d :
  let label := Js.toUpperCase param in
  (label ∉ Seat.label <$> seats d →
   occupySeat param d = (error 404 "Seat not found", d)
   ∧ releaseSeat param d = (error 404 "Seat not found", d))
  ∧ (∀ i s, seats d !! i = Some s → Seat.label s = label →
       (∀ j s', seats d !! j = Some s' → j < i → Seat.label s' ≠ label) →
       occupySeat param d
       = (json (SeatJson (label ++ " marked as occupied")
                  (Seat.mk (Seat.label s) (Seat.row s) (Seat.number s) (Seat.type s)
                           Seat.occupied (Seat.occupiedByBookingId s))),
          mkDb (<[i := Seat.mk (Seat.label s) (Seat.row s) (Seat.number s) (Seat.type s)
                          Seat.occupied (Seat.occupiedByBookingId s)]> (seats d))
               (bookings d) (uploads d))
       ∧ releaseSeat param d
         = (json (SeatJson (label ++ " released to available")
                    (Seat.mk (Seat.label s) (Seat.row s) (Seat.number s) (Seat.type s)
                             Seat.available None)),
            mkDb (<[i := Seat.mk (Seat.label s) (Seat.row s) (Seat.number s) (Seat.type s)
                            Seat.available None]> (seats d))
                 (bookings d) (uploads d))).
Proof.
  intros label. split.
  - intros Hno%findOne_None. unfold occupySeat, releaseSeat. fold label.
    by rewrite !findOneAndUpdate_find, Hno.
  - intros i s Hs Hl Hfirst.
    assert (findOne label (seats d) = Some (i, s)) as Hfind by (by apply findOne_Some).
    unfold occupySeat, releaseSeat. fold label.
    by rewrite !findOneAndUpdate_find, Hfind.
Qed.

Lemma findOne_insert lbl l i s s' :
  findOne lbl l = Some (i, s) → Seat.label s' = lbl →
  findOne lbl (<[i := s']> l) = Some (i, s').
Proof.
  intros (Hs & Hl & Hfirst)%findOne_Some Hl'. apply findOne_Some.
  split; [apply list_lookup_insert_eq; by eapply lookup_lt_Some|]. split; [done|].
  intros j t Hj Hlt. rewrite list_lookup_insert_ne in Hj by lia. by eapply Hfirst.
Qed.

(** X9 — the manual actions compose as expected: occupying a seat twice is
    occupying it once, releasing it twice is releasing it once, and a
    release after an occupy leaves the database that the release alone
    leaves (with the same answer). *)
Theorem occupy_release_laws param d :
  occupySeat param (occupySeat param d).2 = occupySeat param d
  ∧ releaseSeat param (releaseSeat param d).2 = releaseSeat param d
  ∧ releaseSeat param (occupySeat param d).2 = releaseSeat param d.
Proof.
  unfold occupySeat, releaseSeat.
  rewrite !(findOneAndUpdate_find _ _ (seats d)).
  destruct (findOne _ (seats d)) as [[i s]|] eqn:Hfind; cbn.
  - apply findOne_Some in Hfind as Hshape. destruct Hshape as (Hs & Hl & _).
    rewrite !findOneAndUpdate_find.
    rewrite !(findOne_insert _ _ i s) by done. cbn.
    by rewrite !list_insert_insert_eq.
  - by rewrite !findOneAndUpdate_find, Hfind.
Qed.

(** ** Fetching a seat *)

(** On ASCII text the upper-case form does not depend on the letter case.
    JavaScript has this law on ASCII text only. *)
Lemma upper_lower_char c :
  Js.is_ascii c = true → Js.upper_char (Js.lower_char c) = Js.upper_char c.
Proof. destruct c as [[] [] [] [] [] [] [] []]; intros H; first [reflexivity | discriminate H]. Qed.

Lemma toUpperCase_toLowerCase s :
  Js.ascii_only s = true → Js.toUpperCase (Js.toLowerCase s) = Js.toUpperCase s.
Proof.
  induction s as [|c s IH]; [done|].
  cbn [Js.ascii_only]. intros [Hc Hs]%andb_true_iff.
  cbn. f_equal; [by apply upper_lower_char|by apply IH].
Qed.

(** X10 — fetching a seat, also after a manual action: GET by label
    answers 404 "Seat not found" exactly when no seat carries the upper-cased
    label; otherwise it answers 200 with the first seat that carries it and
    its identity, and after a manual occupy or release by the same label it
    answers with the rewritten seat under the same identity. *)
Theorem getSeat_outcome param d :
  let label := Js.toUpperCase param in
  (label ∉ Seat.label <$> seats d ↔ getSeat param d = mkRead 404 (ReadError "Seat not found"))
  ∧ (∀ i s, seats d !! i = Some s → Seat.label s = label →
       (∀ j s', seats d !! j = Some s' → j < i → Seat.label s' ≠ label) →
       getSeat param d = mkRead 200 (SeatDoc i s)
       ∧ getSeat param (occupySeat param d).2
         = mkRead 200 (SeatDoc i (Seat.mk (Seat.label s) (Seat.row s) (Seat.number s)
                                          (Seat.type s) Seat.occupied
                                          (Seat.occupiedByBookingId s)))
       ∧ getSeat param (releaseSeat param d).2
         = mkRead 200 (SeatDoc i (Seat.mk (Seat.label s) (Seat.row s) (Seat.number s)
                                          (Seat.type s) Seat.available None))).
Proof.
  intros label. subst label. split.
  - unfold getSeat. rewrite <- findOne_None.
    destruct (findOne _ (seats d)) as [[i s]|]; split; done.
  - intros i s Hs Hl Hfirst.
    assert (findOne (Js.toUpperCase param) (seats d) = Some (i, s)) as Hfind
      by (by apply findOne_Some).
    unfold getSeat, occupySeat, releaseSeat.
    rewrite !findOneAndUpdate_find, Hfind. cbn -[findOne].
    rewrite !(findOne_insert (Js.toUpperCase param) (seats d) i s) by done. done.
Qed.

(** X11 — ASCII labels in requests are case-insensitive: for a parameter
    of ASCII characters, the fetch, the manual occupy and the manual release
    give the same answer and the same database for the parameter and for its
    lower-case and upper-case forms. *)
Theorem label_routes_case_insensitive param d :
  Js.ascii_only param = true →
  getSeat (Js.toLowerCase param) d = getSeat param d
  ∧ getSeat (Js.toUpperCase param) d = getSeat param d
  ∧ occupySeat (Js.toLowerCase param) d = occupySeat param d
  ∧ occupySeat (Js.toUpperCase param) d = occupySeat param d
  ∧ releaseSeat (Js.toLowerCase param) d = releaseSeat param d
  ∧ releaseSeat (Js.toUpperCase param) d = releaseSeat param d.
Proof.
  intros Hascii. unfold getSeat, occupySeat, releaseSeat.
  by rewrite !(toUpperCase_toLowerCase param Hascii), !toUpperCase_idemp.
Qed.

(** Seat A2 of the hall, asked for as [a2], [A2] and [aA2] would be. *)
Lemma label_routes_case_insensitive_witness :
  getSeat "a2" hall = getSeat "A2" hall
  ∧ occupySeat "a2" hall = occupySeat "A2" hall
  ∧ releaseSeat "a2" hall = releaseSeat "A2" hall.
Proof.
  destruct (label_routes_case_insensitive "A2" hall eq_refl)
    as (Hget & _ & Hocc & _ & Hrel & _).
  split; [exact Hget|]. split; [exact Hocc|exact Hrel].
Defined.

(** ** The listing *)

Lemma ascii_compare_refl c : Ascii.compare c c = Eq.
Proof. apply N.compare_refl. Qed.

Lemma string_compare_lt_trans a b c :
  String.compare a b = Lt → String.compare b c = Lt → String.compare a c = Lt.
Proof.
  revert b c. induction a as [|x a IH]; intros [|y b] [|z c]; cbn; try done.
  unfold Ascii.compare.
  destruct (N.compare_spec (N_of_ascii x) (N_of_ascii y)) as [Hxy|Hxy|Hxy]; try done;
    destruct (N.compare_spec (N_of_ascii y) (N_of_ascii z)) as [Hyz|Hyz|Hyz]; try done;
    destruct (N.compare_spec (N_of_ascii x) (N_of_ascii z)) as [Hxz|Hxz|Hxz];
    try done; try lia.
  apply IH.
Qed.

#[global] Instance row_number_le_trans : Transitive row_number_le.
Proof.
  intros s1 s2 s3 [H12|[H12 N12]] [H23|[H23 N23]].
  - left. by eapply string_compare_lt_trans.
  - left. by rewrite <- H23.
  - left. by rewrite H12.
  - right. split; [congruence|lia].
Qed.

#[global] Instance row_number_le_total : Total row_number_le.
Proof.
  intros s1 s2. unfold row_number_le.
  destruct (String.compare (Seat.row s1) (Seat.row s2)) eqn:Hc.
  - apply String.compare_eq_iff in Hc.
    destruct (decide (Seat.number s1 ≤ Seat.number s2)); [left|right]; right;
      split; (done || lia).
  - by left; left.
  - right; left. rewrite String.compare_antisym, Hc. done.
Qed.

(** X12 — the listing: GET /api/seats answers 200 with every seat of the
    collection, each exactly once (a permutation of the collection), ordered
    by row and, within a row, by number, so that seat 2 of a row comes before
    seat 10. *)
Theorem getSeats_sorted d :
  ∃ l, getSeats d = mkRead 200 (SeatList l)
       ∧ l ≡ₚ seats d
       ∧ StronglySorted row_number_le l
       ∧ ∀ i j s1 s2, l !! i = Some s1 → l !! j = Some s2 → i < j →
           Seat.row s1 = Seat.row s2 → Seat.number s1 ≤ Seat.number s2.
Proof.
  exists (merge_sort row_number_le (seats d)). split; [done|].
  split; [apply merge_sort_Permutation|].
  assert (StronglySorted row_number_le (merge_sort row_number_le (seats d))) as Hsorted
    by apply (StronglySorted_merge_sort _).
  split; [done|].
  intros i j s1 s2 Hi Hj Hlt Hrow.
  revert i j Hi Hj Hlt. induction Hsorted as [|a l Hl IH Hall]; intros i j Hi Hj Hlt; [done|].
  destruct i as [|i], j as [|j]; try lia; cbn in *.
  - injection Hi as ->. apply list_elem_of_lookup_2 in Hj.
    rewrite Forall_forall in Hall. destruct (Hall _ Hj) as [Hc|[_ Hn]]; [|done].
    rewrite Hrow in Hc.
    assert (String.compare (Seat.row s2) (Seat.row s2) = Eq) as Heq.
    { clear. induction (Seat.row s2) as [|c s IH]; [done|].
      cbn. by rewrite ascii_compare_refl. }
    congruence.
  - apply (IH i j); [done|done|lia].
Qed.

(** ** The tier of a row *)

Lemma toUpperCase_length s : String.length (Js.toUpperCase s) = String.length s.
Proof. induction s as [|c s IH]; [done|]. cbn. by rewrite IH. Qed.

(** X13 — tiers: the tier of a row of ASCII characters does not depend on
    its letter case; the tier of any row is the tier of its upper-case form;
    and only a row of one character can be premium. *)
Theorem rowToType_cases r :
  (Js.ascii_only r = true → rowToType (Js.toLowerCase r) = rowToType r)
  ∧ rowToType (Js.toUpperCase r) = rowToType r
  ∧ (rowToType r = Seat.premium → String.length r = 1).
Proof.
  unfold rowToType. rewrite toUpperCase_idemp.
  split; [|split; [done|]].
  - intros Hascii. by rewrite (toUpperCase_toLowerCase r Hascii).
  - case_bool_decide as Hin; [|done]. intros _.
    rewrite <- toUpperCase_length.
    unfold premiumRows in Hin.
    repeat (apply elem_of_cons in Hin as [->|Hin]; [done|]).
    by apply elem_of_nil in Hin.
Qed.

(** ** Initialising a store *)

Lemma to_uint_nonnil n : Nat.to_uint n ≠ Decimal.Nil.
Proof.
  intros H. pose proof (DecimalNat.Unsigned.of_to n) as Hn. rewrite H in Hn.
  cbn in Hn. subst n. discriminate H.
Qed.

(** The decimal form of a number determines the number. *)
Lemma of_nat_inj n m : Js.of_nat n = Js.of_nat m → n = m.
Proof.
  unfold Js.of_nat. intros H. apply DecimalNat.Unsigned.to_uint_inj.
  apply (f_equal NilZero.uint_of_string) in H.
  rewrite !NilZero.usu in H by apply to_uint_nonnil. by injection H.
Qed.

Lemma append_inj_same_length (r1 r2 x y : string) :
  String.length r1 = String.length r2 → (r1 ++ x = r2 ++ y)%string → r1 = r2 ∧ x = y.
Proof.
  revert r2. induction r1 as [|c r1 IH]; intros [|c' r2]; cbn; try done.
  intros [= Hlen] [= -> Heq]. destruct (IH _ Hlen Heq) as [-> ->]. done.
Qed.

Lemma bulk_of_cons r rs per :
  bulk_of (r :: rs) per = (seat_op r <$> seq 1 per) ++ bulk_of rs per.
Proof. reflexivity. Qed.

Lemma bulk_of_length rs per : length (bulk_of rs per) = length rs * per.
Proof.
  induction rs as [|r rs IH]; [done|].
  rewrite bulk_of_cons, length_app, length_fmap, length_seq, IH. cbn. lia.
Qed.

(** Rows that are pairwise different and of one length give pairwise
    different labels. *)
Lemma bulk_of_labels_NoDup rs per :
  NoDup rs →
  (∀ r1 r2, r1 ∈ rs → r2 ∈ rs → String.length r1 = String.length r2) →
  NoDup (u_label <$> bulk_of rs per).
Proof.
  induction 1 as [|r rs Hr Hnd IH]; intros Hlen; [constructor|].
  rewrite bulk_of_cons, fmap_app. apply NoDup_app. split; [|split].
  - rewrite <- list_fmap_compose. apply NoDup_fmap_2_strong; [|apply NoDup_seq].
    intros n m _ _ Heq. cbn in Heq.
    apply append_inj_same_length in Heq as [_ Heq]; [|done]. by apply of_nat_inj.
  - intros l (u & -> & (n & -> & Hn)%list_elem_of_fmap)%list_elem_of_fmap
      (u' & Hl & (r' & n' & Hr' & _ & ->)%elem_of_bulk_of)%list_elem_of_fmap.
    cbn in Hl. apply append_inj_same_length in Hl as [-> _].
    + done.
    + apply Hlen; [by left|by right].
  - apply IH. intros r1 r2 H1 H2. apply Hlen; by right.
Qed.

Lemma upsert_absent u l :
  u_label u ∉ Seat.label <$> l → upsert u l = l ++ [inserted u].
Proof.
  induction l as [|s l IH]; [done|].
  cbn. intros Hno. apply not_elem_of_cons in Hno as [Hne Hno].
  rewrite decide_False by done. by rewrite IH.
Qed.

(** Writing a scheme of pairwise different labels, none of which is there,
    appends one new seat per entry, in the order of the scheme. *)
Lemma bulkWrite_fresh ops l :
  NoDup (u_label <$> ops) →
  (∀ u, u ∈ ops → u_label u ∉ Seat.label <$> l) →
  bulkWrite ops l = l ++ (inserted <$> ops).
Proof.
  revert l. induction ops as [|u ops IH]; intros l Hnd Hno.
  - by rewrite app_nil_r.
  - rewrite fmap_cons in Hnd. apply NoDup_cons in Hnd as [Hu Hnd].
    rewrite bulkWrite_cons, upsert_absent by (apply Hno; by left).
    rewrite IH; [by rewrite <- app_assoc|done|].
    intros u' Hu'. rewrite fmap_app, elem_of_app. intros [Hin|Hin].
    + by apply (Hno u'); [right|].
    + cbn in Hin. apply list_elem_of_singleton in Hin.
      apply Hu. rewrite <- Hin. by apply list_elem_of_fmap_2.
Qed.

(** X14 — initialising fresh rows: when the rows of the scheme are
    pairwise different and of one length, and no seat carries a label of the
    scheme yet, initializeInventory appends exactly one seat per row and
    number, in the order of the scheme, each available and without occupant,
    with the label, row, number and tier of its entry; it leaves the existing
    seats, the bookings and the stored files as they were, and answers the
    old number of seats plus rows times seats per row. *)
Theorem init_fresh b d :
  NoDup (init_rows b) →
  (∀ r1 r2, r1 ∈ init_rows b → r2 ∈ init_rows b → String.length r1 = String.length r2) →
  (∀ r n, r ∈ init_rows b → 1 ≤ n ≤ init_perRow b →
          (r ++ Js.of_nat n)%string ∉ Seat.label <$> seats d) →
  initializeInventory b d
  = (json (InitJson "Seats initialized/upserted"
             (length (seats d) + length (init_rows b) * init_perRow b)),
     mkDb (seats d ++ ((λ u, Seat.mk (u_label u) (u_row u) (u_number u) (u_type u)
                                     Seat.available None)
                         <$> bulk_of (init_rows b) (init_perRow b)))
          (bookings d) (uploads d)).
Proof.
  intros Hnd Hlen Hfresh. unfold initializeInventory. cbn -[bulk_of].
  rewrite bulkWrite_fresh.
  - by rewrite length_app, length_fmap, bulk_of_length.
  - by apply bulk_of_labels_NoDup.
  - intros u (r & n & Hr & Hn & ->)%elem_of_bulk_of. cbn. by apply Hfresh.
Qed.

(** Rows c and d of three seats, added to the hall. *)
Lemma init_fresh_witness :
  initializeInventory (mkInitBody (Some ["c"; "d"]) (Some 3%Z)) hall
  = (json (InitJson "Seats initialized/upserted" 10),
     mkDb (seats hall ++ ((λ u, Seat.mk (u_label u) (u_row u) (u_number u) (u_type u)
                                        Seat.available None)
                            <$> bulk_of ["C"; "D"] 3))
          (bookings hall) (uploads hall)).
Proof.
  apply (init_fresh (mkInitBody (Some ["c"; "d"]) (Some 3%Z)) hall).
  - compute_done.
  - intros r1 r2 H1 H2. cbn in H1, H2.
    repeat (apply elem_of_cons in H1 as [->|H1]); try (by apply elem_of_nil in H1);
      repeat (apply elem_of_cons in H2 as [->|H2]); try (by apply elem_of_nil in H2);
      reflexivity.
  - intros r n Hr Hn. cbn in Hr, Hn.
    assert (n = 1 ∨ n = 2 ∨ n = 3) as Hcases by lia.
    repeat (apply elem_of_cons in Hr as [->|Hr]); try (by apply elem_of_nil in Hr);
      destruct Hcases as [->|[->| ->]]; compute_done.
Defined.

(** X15 — the total that an initialisation answers: with unique labels in
    the store, initializeInventory answers, and leaves in the store, as many
    seats as there are different labels among the labels present and the
    labels of the scheme; so the total is at least the old number of seats
    and at most that number plus rows times seats per row. *)
Theorem init_total b d :
  NoDup (Seat.label <$> seats d) →
  let scheme := bulk_of (init_rows b) (init_perRow b) in
  let total := stdpp.base.size (list_to_set (Seat.label <$> seats d)
                     ∪ list_to_set (u_label <$> scheme) : gset string) in
  (initializeInventory b d).1 = json (InitJson "Seats initialized/upserted" total)
  ∧ length (seats (initializeInventory b d).2) = total
  ∧ length (seats d) ≤ total ≤ length (seats d) + length (init_rows b) * init_perRow b.
Proof.
  intros Hnd scheme total.
  assert (length (bulkWrite scheme (seats d)) = total) as Htotal.
  { rewrite <- (length_fmap Seat.label).
    rewrite <- (size_list_to_set (C := gset string)) by (by apply bulkWrite_NoDup).
    unfold total. f_equal. apply set_eq. intros x.
    rewrite elem_of_union, !elem_of_list_to_set, bulkWrite_labels. tauto. }
  unfold initializeInventory. cbn -[bulk_of]. fold scheme. rewrite Htotal.
  split; [done|]. split; [done|]. unfold total. split.
  - rewrite <- (length_fmap Seat.label (seats d)).
    rewrite <- (size_list_to_set (C := gset string)) by done.
    apply subseteq_size, union_subseteq_l.
  - rewrite size_union_alt, (size_list_to_set (Seat.label <$> seats d)) by done.
    rewrite length_fmap.
    assert (stdpp.base.size (list_to_set (u_label <$> scheme) ∖ list_to_set (Seat.label <$> seats d)
                  : gset string) ≤ length (init_rows b) * init_perRow b); [|lia].
    etrans; [apply subseteq_size, (subseteq_difference_l _ _ _ (reflexivity _))|].
    rewrite <- (bulk_of_length (init_rows b) (init_perRow b)).
    rewrite <- (length_fmap u_label).
    fold scheme. generalize (u_label <$> scheme). intros l. clear.
    induction l as [|x l IH]; [done|].
    rewrite list_to_set_cons, size_union_alt, size_singleton. cbn.
    assert (stdpp.base.size (list_to_set l ∖ {[x]} : gset string)
            ≤ stdpp.base.size (list_to_set l : gset string))
      by (apply subseteq_size, subseteq_difference_l; reflexivity).
    lia.
Qed.

(** Rows B and C of two seats on the hall, which has rows A and B: six
    seats. *)
Lemma init_total_witness :
  (initializeInventory (mkInitBody (Some ["b"; "c"]) (Some 2%Z)) hall).1
  = json (InitJson "Seats initialized/upserted" 6)
  ∧ length (seats (initializeInventory (mkInitBody (Some ["b"; "c"]) (Some 2%Z)) hall).2) = 6.
Proof.
  assert (NoDup (Seat.label <$> seats hall)) as Hnd by compute_done.
  destruct (init_total (mkInitBody (Some ["b"; "c"]) (Some 2%Z)) hall Hnd)
    as (H1 & H2 & _).
  split; [exact H1|exact H2].
Defined.

(** ** Fetching what an initialisation created *)

Lemma toUpperCase_app s t :
  Js.toUpperCase (s ++ t)%string = (Js.toUpperCase s ++ Js.toUpperCase t)%string.
Proof.
  unfold Js.toUpperCase. induction s as [|c s IH]; [done|].
  change (String (Js.upper_char c) (Js.map_chars Js.upper_char (s ++ t)%string)
          = String (Js.upper_char c)
              (Js.map_chars Js.upper_char s ++ Js.map_chars Js.upper_char t)%string).
  by rewrite IH.
Qed.

Lemma toUpperCase_digits d :
  Js.toUpperCase (NilEmpty.string_of_uint d) = NilEmpty.string_of_uint d.
Proof.
  unfold Js.toUpperCase.
  induction d as [|d IH|d IH|d IH|d IH|d IH|d IH|d IH|d IH|d IH|d IH]; [done|..];
    cbn [Js.map_chars NilEmpty.string_of_uint]; rewrite IH; reflexivity.
Qed.

Lemma toUpperCase_of_nat n : Js.toUpperCase (Js.of_nat n) = Js.of_nat n.
Proof.
  unfold Js.of_nat, NilZero.string_of_uint.
  destruct (Nat.to_uint n); try done; apply toUpperCase_digits.
Qed.

(** The rows of a scheme are in upper case. *)
Lemma init_rows_upper b r : r ∈ init_rows b → Js.toUpperCase r = r.
Proof.
  unfold init_rows.
  assert (r ∈ defaultRows → Js.toUpperCase r = r) as Hdefault.
  { intros Hr. unfold defaultRows in Hr. cbn in Hr.
    repeat (apply elem_of_cons in Hr as [->|Hr]; [done|]).
    by apply elem_of_nil in Hr. }
  destruct (rows b) as [[|r0 rs]|]; try done.
  intros (r' & -> & _)%(list_elem_of_fmap Js.toUpperCase). apply toUpperCase_idemp.
Qed.

(** X16 — what an initialisation creates can be fetched: after
    initializeInventory, for every row of the scheme and every number from 1
    to the number of seats per row, the label made of the row and the number
    is its own upper-case form, and GET by any parameter whose upper-case
    form is that label answers 200 with one and the same seat, which carries
    the label; a seat that was there before has kept its status and its
    occupant link, a seat that was not is available and without occupant. *)
Theorem init_then_get b d r n :
  r ∈ init_rows b → 1 ≤ n ≤ init_perRow b →
  ∃ i s,
    (∀ param, Js.toUpperCase param = (r ++ Js.of_nat n)%string →
       getSeat param (initializeInventory b d).2 = mkRead 200 (SeatDoc i s))
    ∧ Js.toUpperCase (r ++ Js.of_nat n) = (r ++ Js.of_nat n)%string
    ∧ Seat.label s = (r ++ Js.of_nat n)%string
    ∧ (∀ s0, seats d !! i = Some s0 →
         Seat.status s = Seat.status s0
         ∧ Seat.occupiedByBookingId s = Seat.occupiedByBookingId s0)
    ∧ (seats d !! i = None →
         Seat.status s = Seat.available ∧ Seat.occupiedByBookingId s = None).
Proof.
  intros Hr Hn.
  assert (Js.toUpperCase (r ++ Js.of_nat n) = (r ++ Js.of_nat n)%string) as Hup.
  { by rewrite toUpperCase_app, toUpperCase_of_nat, (init_rows_upper b r). }
  unfold getSeat.
  unfold initializeInventory. cbn -[bulk_of findOne].
  destruct (findOne (r ++ Js.of_nat n)
              (bulkWrite (bulk_of (init_rows b) (init_perRow b)) (seats d)))
    as [[i s]|] eqn:Hfind.
  - apply findOne_Some in Hfind as Hshape. destruct Hshape as (Hs & Hl & _).
    exists i, s. split; [by intros param ->; rewrite Hfind|].
    split; [done|]. split; [done|].
    destruct (bulkWrite_lookup_inv _ _ _ _ Hs) as [(s0 & Hs0 & _ & Hst & Ho)|(Hnone & Hst & Ho)].
    + split; [|congruence]. intros s0' Hs0'. by assert (s0' = s0) as -> by congruence.
    + split; [congruence|done].
  - apply findOne_None in Hfind. destruct Hfind.
    apply bulkWrite_labels. left.
    apply (list_elem_of_fmap_2' u_label _ (seat_op r n)); [|done].
    apply elem_of_bulk_of. by exists r, n.
Qed.

Lemma init_then_get_witness :
  ∃ i s,
    getSeat "B2" (initializeInventory (mkInitBody (Some ["b"]) (Some 3%Z)) hall).2
    = mkRead 200 (SeatDoc i s)
    ∧ getSeat "b2" (initializeInventory (mkInitBody (Some ["b"]) (Some 3%Z)) hall).2
      = mkRead 200 (SeatDoc i s)
    ∧ Seat.label s = "B2"
    ∧ (seats hall !! i = None →
         Seat.status s = Seat.available ∧ Seat.occupiedByBookingId s = None).
Proof.
  destruct (init_then_get (mkInitBody (Some ["b"]) (Some 3%Z)) hall "B" 2)
    as (i & s & Hget & _ & Hl & _ & Hnew).
  - cbn. by left.
  - cbn. lia.
  - exists i, s. split; [by apply Hget|]. split; [by apply Hget|].
    split; [exact Hl|exact Hnew].
Defined.

(** ** Intake, its files and its answers *)

Lemma image_type_nonempty file : fileFilter file = true → Js.truthy (mimetype file) = true.
Proof. unfold fileFilter. by destruct (mimetype file). Qed.

Lemma upload_single_inr part file :
  upload_single part = inr (Some file) → part = Some file ∧ accepted file.
Proof.
  unfold upload_single, accepted. destruct part as [f|]; [|done].
  destruct (fileFilter f) eqn:Hf; [|done].
  destruct (fileSize <? size f)%N eqn:Hs; [done|].
  intros [= ->]. split; [done|]. split; [done|]. by apply N.ltb_ge.
Qed.

(** X17 — what a 201 of the intake means: whenever createPendingBooking
    answers 201, whatever storage failure was scheduled, the form held a
    non-empty email and phone, a number as amount and an attachment that the
    upload middleware accepts; the answer carries the identity of a new
    booking, the last of the collection, which is pending, has no resolved
    reference and no note, and holds the trimmed lower-case email, the
    trimmed phone, the amount, the parsed labels and the name, type and size
    of the attachment; the attachment is the last file of the bucket, and
    fetching the screenshot of the booking answers 200 with that type, that
    name and that size.  Seats, earlier bookings and earlier files are as
    they were. *)
Theorem submit_created f fm d r d' :
  createPendingBooking f fm d = (Some r, d') →
  code r = 201 →
  ∃ email phone amount file,
    form_email fm = Some email ∧ email ≠ "" ∧ form_phone fm = Some phone ∧ phone ≠ ""
    ∧ form_amount fm = Js.Num amount ∧ form_screenshot fm = Some file ∧ accepted file
    ∧ let b := Booking.mk (Js.toLowerCase (Js.trim email)) (Js.trim phone) amount
                 (parse_seats (default "" (form_seats fm))) [] (length (uploads d))
                 (originalname file) (mimetype file) (size file) Booking.pending None in
      let g := mkGridFile (originalname file) (mimetype file) (size file)
                 (email, phone, parse_seats (default "" (form_seats fm)), amount) in
      r = mkResponse 201 (SubmittedJson "Booking submitted and pending verification"
                                        (length (bookings d)))
      ∧ d' = mkDb (seats d) (bookings d ++ [b]) (uploads d ++ [g])
      ∧ bookings d' !! length (bookings d) = Some b
      ∧ validate b = true
      ∧ getScreenshot (Some (Booking.screenshotFileId b)) d'
        = mkRead 200 (FileStream (mimetype file)
                        ("inline; filename=" ++ dquote ++ originalname file ++ dquote)
                        (size file)).
Proof.
  unfold createPendingBooking.
  destruct (upload_single _) as [msg|file] eqn:Hup; [by intros [= <- <-]|].
  unfold run, submit_handler.
  destruct (form_email fm) as [email|], (form_phone fm) as [phone|],
    (form_amount fm) as [|amount], file as [file|];
    try (by intros [= <- <-]).
  apply upload_single_inr in Hup as [Hfile Hacc].
  destruct (negb (Js.truthy email)) eqn:He; [by intros [= <- <-]|].
  destruct (negb (Js.truthy phone)) eqn:Hp; [by intros [= <- <-]|].
  cbn [orb]. destruct (_ || _); [by intros [= <- <-]|].
  unfold try_catch, bind, upload_stream, create, direct, await, throw.
  cbn -[validate parse_seats cast_email cast_phone].
  destruct (fails _); [by intros [= <- <-]|].
  cbn -[validate parse_seats cast_email cast_phone].
  destruct (validate _) eqn:Hv; [|by intros [= <- <-]].
  destruct (fails _); [by intros [= <- <-]|].
  unfold ret, next. cbn -[validate parse_seats cast_email cast_phone].
  intros [= <- <-] _.
  exists email, phone, amount, file.
  split; [done|]. split; [by destruct email|]. split; [done|]. split; [by destruct phone|].
  split; [done|]. split; [done|]. split; [done|]. cbn zeta.
  split; [done|]. split; [done|]. split; [by apply list_lookup_middle|].
  split; [exact Hv|].
  unfold getScreenshot. cbn -[append]. rewrite list_lookup_middle by done.
  cbn -[append]. by rewrite (image_type_nonempty file) by apply Hacc.
Qed.

Lemma submit_created_witness :
  ∃ email phone amount file,
    form_email (form "Bob@Example.org" 100 "a1") = Some email ∧ email ≠ ""
    ∧ form_phone (form "Bob@Example.org" 100 "a1") = Some phone ∧ phone ≠ ""
    ∧ form_amount (form "Bob@Example.org" 100 "a1") = Js.Num amount
    ∧ form_screenshot (form "Bob@Example.org" 100 "a1") = Some file ∧ accepted file
    ∧ let b := Booking.mk (Js.toLowerCase (Js.trim email)) (Js.trim phone) amount
                 (parse_seats (default "" (form_seats (form "Bob@Example.org" 100 "a1"))))
                 [] (length (uploads sample))
                 (originalname file) (mimetype file) (size file) Booking.pending None in
      let g := mkGridFile (originalname file) (mimetype file) (size file)
                 (email, phone,
                  parse_seats (default "" (form_seats (form "Bob@Example.org" 100 "a1"))),
                  amount) in
      mkResponse 201 (SubmittedJson "Booking submitted and pending verification" 4)
      = mkResponse 201 (SubmittedJson "Booking submitted and pending verification"
                                      (length (bookings sample)))
      ∧ (createPendingBooking None (form "Bob@Example.org" 100 "a1") sample).2
        = mkDb (seats sample) (bookings sample ++ [b]) (uploads sample ++ [g])
      ∧ bookings (createPendingBooking None (form "Bob@Example.org" 100 "a1") sample).2
          !! length (bookings sample) = Some b
      ∧ validate b = true
      ∧ getScreenshot (Some (Booking.screenshotFileId b))
          (createPendingBooking None (form "Bob@Example.org" 100 "a1") sample).2
        = mkRead 200 (FileStream (mimetype file)
                        ("inline; filename=" ++ dquote ++ originalname file ++ dquote)
                        (size file)).
Proof.
  refine (submit_created None (form "Bob@Example.org" 100 "a1") sample
            (mkResponse 201 (SubmittedJson "Booking submitted and pending verification" 4))
            (createPendingBooking None (form "Bob@Example.org" 100 "a1") sample).2 _ _).
  - vm_compute. reflexivity.
  - reflexivity.
Defined.

(** X18 — an intake that does not answer 201 creates no booking: whatever
    the form and whatever fails, the seats and the bookings are then as they
    were, and the bucket is as it was unless the answer is 500 "Failed to
    save booking after upload", in which case one file, and nothing else,
    has been added to the bucket. *)
Theorem submit_refused f fm d r d' :
  createPendingBooking f fm d = (Some r, d') →
  code r ≠ 201 →
  seats d' = seats d ∧ bookings d' = bookings d
  ∧ (d' = d
     ∨ (r = error 500 "Failed to save booking after upload"
        ∧ ∃ g, d' = mkDb (seats d) (bookings d) (uploads d ++ [g]))).
Proof.
  unfold createPendingBooking.
  destruct (upload_single _) as [msg|file] eqn:Hup; [intros [= <- <-]; auto|].
  unfold run, submit_handler.
  destruct (form_email fm) as [email|], (form_phone fm) as [phone|],
    (form_amount fm) as [|amount], file as [file|];
    try (intros [= <- <-]; by auto).
  destruct (_ || _); [intros [= <- <-]; by auto|].
  unfold try_catch, bind, upload_stream, create, direct, await, throw.
  cbn -[validate parse_seats cast_email cast_phone].
  destruct (fails _); [intros [= <- <-]; by auto|].
  cbn -[validate parse_seats cast_email cast_phone].
  destruct (validate _) eqn:Hv.
  - destruct (fails _).
    + intros [= <- <-] _. split; [done|]. split; [done|]. right. split; [done|].
      by eexists.
    + unfold ret, next. cbn -[validate parse_seats cast_email cast_phone].
      by intros [= <- <-] Hc.
  - intros [= <- <-] _. split; [done|]. split; [done|]. right. split; [done|].
    by eexists.
Qed.

Lemma submit_refused_witness :
  seats (createPendingBooking None (form "bob" 100 "A1") sample).2 = seats sample
  ∧ bookings (createPendingBooking None (form "bob" 100 "A1") sample).2 = bookings sample.
Proof.
  destruct (submit_refused None (form "bob" 100 "A1") sample
              (error 500 "Failed to save booking after upload")
              (createPendingBooking None (form "bob" 100 "A1") sample).2)
    as (H1 & H2 & _).
  - vm_compute. reflexivity.
  - cbn. lia.
  - split; [exact H1|exact H2].
Defined.

(** X19 — every screenshot can be served: after every sequence of
    operations from the empty database, fetching the screenshot of any
    booking of the collection answers 200 (never 404) with the name and the
    size recorded in the booking. *)
Theorem reachable_screenshots ops :
  Forall (λ bk, ∃ ct, getScreenshot (Some (Booking.screenshotFileId bk)) (exec ops db0)
                      = mkRead 200 (FileStream ct
                          ("inline; filename=" ++ dquote ++ Booking.screenshotFilename bk
                           ++ dquote)
                          (Booking.screenshotSize bk)))
         (bookings (exec ops db0)).
Proof.
  assert (Forall (booking_valid (exec ops db0)) (bookings (exec ops db0))) as Hvalid.
  { apply (reachable_ind (λ d, Forall (booking_valid d) (bookings d))).
    - constructor.
    - apply change_bookings_valid. }
  eapply Forall_impl; [exact Hvalid|].
  intros bk (_ & _ & g & Hg & Hname & _ & Hsize).
  unfold getScreenshot. rewrite Hg, Hname, Hsize. by eexists.
Qed.

(** ** The seats field of the form *)

Lemma append_nil_l (s : string) : ("" ++ s)%string = s.
Proof. reflexivity. Qed.

Lemma append_cons c (s t : string) : (String c s ++ t)%string = String c (s ++ t).
Proof. reflexivity. Qed.

Lemma split_nonempty sep s : Js.split sep s ≠ [].
Proof. destruct s as [|c s]; cbn; [done|]. by destruct (Ascii.eqb c sep), (Js.split sep s). Qed.

(** A string that splits into itself, followed by the separator and more,
    splits into itself and the pieces of the rest. *)
Lemma split_app_sep sep x rest :
  Js.split sep x = [x] →
  Js.split sep (x ++ String sep rest) = x :: Js.split sep rest.
Proof.
  induction x as [|c x IH].
  - intros _. rewrite append_nil_l. cbn. by rewrite Ascii.eqb_refl.
  - rewrite append_cons. cbn. destruct (Ascii.eqb c sep); [done|].
    destruct (Js.split sep x) as [|p ps] eqn:Hx; [by destruct (split_nonempty sep x)|].
    intros [= -> ->]. by rewrite IH.
Qed.

Lemma split_join ls :
  ls ≠ [] → Forall (λ l, Js.split "," l = [l]) ls → Js.split "," (Js.join "," ls) = ls.
Proof.
  intros Hne Hall. induction Hall as [|x ls Hx Hall IH]; [done|].
  destruct ls as [|y ls]; [done|].
  change (Js.join "," (x :: y :: ls)) with (x ++ String "," (Js.join "," (y :: ls)))%string.
  rewrite split_app_sep by done. by rewrite IH.
Qed.

(** *** Trimming *)

Lemma trimStart_clean s : starts_clean (Js.trimStart s).
Proof. induction s as [|c s IH]; [done|]. cbn. by destruct (Js.is_space c) eqn:Hc. Qed.

Lemma trimStart_id s : starts_clean s → Js.trimStart s = s.
Proof. destruct s as [|c s]; [done|]. cbn. by intros ->. Qed.

Lemma trimEnd_clean s : starts_clean s → starts_clean (Js.trimEnd s).
Proof.
  destruct s as [|c s]; [done|]. cbn. intros Hc.
  destruct (Js.trimEnd s); [by rewrite Hc|done].
Qed.

Lemma trimEnd_idemp s : Js.trimEnd (Js.trimEnd s) = Js.trimEnd s.
Proof.
  induction s as [|c s IH]; [done|]. cbn.
  destruct (Js.trimEnd s) as [|c' t] eqn:Ht.
  - destruct (Js.is_space c) eqn:Hc; [done|]. cbn. by rewrite Hc.
  - change (Js.trimEnd (String c (String c' t)))
      with (match Js.trimEnd (String c' t) with
            | EmptyString => if Js.is_space c then EmptyString else String c EmptyString
            | t' => String c t'
            end).
    by rewrite IH.
Qed.

Lemma trim_idemp s : Js.trim (Js.trim s) = Js.trim s.
Proof.
  unfold Js.trim.
  rewrite (trimStart_id (Js.trimEnd _)) by apply trimEnd_clean, trimStart_clean.
  apply trimEnd_idemp.
Qed.

Lemma is_space_upper c : Js.is_space (Js.upper_char c) = Js.is_space c.
Proof. destruct c as [[] [] [] [] [] [] [] []]; reflexivity. Qed.

Lemma trimStart_upper s :
  Js.trimStart (Js.toUpperCase s) = Js.toUpperCase (Js.trimStart s).
Proof.
  unfold Js.toUpperCase. induction s as [|c s IH]; [done|].
  cbn. rewrite is_space_upper. by destruct (Js.is_space c).
Qed.

Lemma trimEnd_upper s :
  Js.trimEnd (Js.toUpperCase s) = Js.toUpperCase (Js.trimEnd s).
Proof.
  unfold Js.toUpperCase. induction s as [|c s IH]; [done|].
  cbn. rewrite IH, is_space_upper.
  destruct (Js.trimEnd s); cbn; [|done]. by destruct (Js.is_space c).
Qed.

Lemma trim_upper s : Js.trim (Js.toUpperCase s) = Js.toUpperCase (Js.trim s).
Proof. unfold Js.trim. by rewrite trimStart_upper, trimEnd_upper. Qed.

(** *** Commas *)

Lemma comma_free_split s : comma_free s → Js.split "," s = [s].
Proof.
  unfold comma_free. induction s as [|c s IH]; [done|].
  cbn. intros [Hc Hs]%andb_true_iff. apply negb_true_iff in Hc. rewrite Hc.
  by rewrite IH.
Qed.

Lemma split_pieces_comma_free s p : p ∈ Js.split "," s → comma_free p.
Proof.
  revert p. induction s as [|c s IH]; intros p.
  - cbn. by intros ->%list_elem_of_singleton.
  - cbn. destruct (Ascii.eqb c ",") eqn:Hc.
    + intros [->|Hp]%elem_of_cons; [done|]. by apply IH.
    + destruct (Js.split "," s) as [|q qs] eqn:Hs; [by destruct (split_nonempty "," s)|].
      intros [->|Hp]%elem_of_cons.
      * unfold comma_free. cbn. rewrite Hc. cbn. apply IH. by left.
      * apply IH. by right.
Qed.

Lemma trimStart_comma_free s : comma_free s → comma_free (Js.trimStart s).
Proof.
  unfold comma_free. induction s as [|c s IH]; [done|].
  cbn. intros [Hc Hs]%andb_true_iff.
  destruct (Js.is_space c); [by apply IH|]. cbn. by rewrite Hc, Hs.
Qed.

Lemma trimEnd_comma_free s : comma_free s → comma_free (Js.trimEnd s).
Proof.
  unfold comma_free. induction s as [|c s IH]; [done|].
  cbn. intros [Hc Hs]%andb_true_iff.
  destruct (Js.trimEnd s) as [|c' t] eqn:Ht.
  - destruct (Js.is_space c); [done|]. cbn. by rewrite Hc.
  - cbn. rewrite Hc. cbn. by apply IH.
Qed.

Lemma upper_char_comma c : Ascii.eqb (Js.upper_char c) "," = Ascii.eqb c ",".
Proof. destruct c as [[] [] [] [] [] [] [] []]; reflexivity. Qed.

Lemma toUpperCase_comma_free s : comma_free s → comma_free (Js.toUpperCase s).
Proof.
  unfold comma_free, Js.toUpperCase. induction s as [|c s IH]; [done|].
  cbn. rewrite upper_char_comma. intros [Hc Hs]%andb_true_iff. by rewrite Hc, IH.
Qed.

(** X20 — the seats field is normalised and round-trips: every label that
    the intake parses out of the seats field is not empty, has no comma, is
    trimmed and is in upper case; a list of such labels joined by commas
    parses back to that list; so parsing the joined result of a parse gives
    the same labels again. *)
Theorem parse_seats_round_trip seatsRaw :
  Forall normal_label (parse_seats seatsRaw)
  ∧ (∀ ls, Forall normal_label ls → parse_seats (Js.join "," ls) = ls)
  ∧ parse_seats (Js.join "," (parse_seats seatsRaw)) = parse_seats seatsRaw.
Proof.
  assert (Forall normal_label (parse_seats seatsRaw)) as Hnormal.
  { apply Forall_forall. intros l. unfold parse_seats.
    intros [Hne (p & -> & Hp)%list_elem_of_fmap]%list_elem_of_filter.
    split; [by destruct (Js.toUpperCase _)|]. split; [|split].
    - apply comma_free_split, toUpperCase_comma_free. unfold Js.trim.
      by apply trimEnd_comma_free, trimStart_comma_free, split_pieces_comma_free with seatsRaw.
    - by rewrite trim_upper, trim_idemp.
    - apply toUpperCase_idemp. }
  assert (∀ ls, Forall normal_label ls → parse_seats (Js.join "," ls) = ls) as Hjoin.
  { intros ls Hls. unfold parse_seats. destruct ls as [|l ls]; [done|].
    rewrite split_join; [|done|].
    - generalize dependent (l :: ls). clear. intros ls Hls.
      induction Hls as [|x ls (Hne & _ & Htrim & Hup) Hls IH]; [done|].
      cbn [map]. rewrite Htrim, Hup, filter_cons_True by (by destruct x).
      f_equal. exact IH.
    - eapply Forall_impl; [exact Hls|]. by intros x (_ & Hsplit & _). }
  split; [done|]. split; [done|]. by apply Hjoin.
Qed.

(** ** The patterns *)

Lemma append_eq_nil (s t : string) : (s ++ t)%string = "" → s = "" ∧ t = "".
Proof. by destruct s. Qed.

Lemma append_eq_cons c (s t u : string) :
  (s ++ t)%string = String c u →
  (s = "" ∧ t = String c u) ∨ (∃ s', s = String c s' ∧ u = (s' ++ t)%string).
Proof.
  destruct s as [|c' s].
  - intros H. by left.
  - rewrite append_cons. intros [= -> <-]. right. by exists s.
Qed.

Lemma nullable_matches r : Re.nullable r = true ↔ re_matches r "".
Proof.
  split.
  - induction r as [| |p|r1 IH1 r2 IH2|r1 IH1 r2 IH2|r IH]; cbn; try done.
    + intros _. constructor.
    + intros [H1 H2]%andb_true_iff. apply (m_cat r1 r2 "" ""); auto.
    + intros [H|H]%orb_true_iff; [apply m_alt_l|apply m_alt_r]; auto.
    + intros _. constructor.
  - intros H. remember "" as s eqn:Hs.
    induction H as [|p c Hp|r1 r2 s1 s2 H1 IH1 H2 IH2|r1 r2 s H IH|r1 r2 s H IH
                    |r|r s1 s2 H1 IH1 H2 IH2]; cbn; try done.
    + apply append_eq_nil in Hs as [-> ->]. by rewrite IH1, IH2.
    + by rewrite IH.
    + rewrite IH by done. apply orb_true_r.
Qed.

Lemma deriv_matches c r s : re_matches (Re.deriv c r) s ↔ re_matches r (String c s).
Proof.
  split.
  - revert s. induction r as [| |p|r1 IH1 r2 IH2|r1 IH1 r2 IH2|r IH]; intros s; cbn.
    + inversion 1.
    + inversion 1.
    + destruct (p c) eqn:Hp; inversion 1. by constructor.
    + destruct (Re.nullable r1) eqn:Hn.
      * inversion 1 as [| | |? ? ? Hl|? ? ? Hr| |]; subst.
        -- inversion Hl; subst. rewrite <- append_cons. constructor; auto.
        -- rewrite <- (append_nil_l (String c s)). constructor; [|auto].
           by apply nullable_matches.
      * inversion 1; subst. rewrite <- append_cons. constructor; auto.
    + inversion 1; subst; [apply m_alt_l|apply m_alt_r]; auto.
    + inversion 1; subst. rewrite <- append_cons. constructor; auto.
  - intros H. remember (String c s) as t eqn:Ht. revert s Ht.
    induction H as [|p c0 Hp|r1 r2 s1 s2 H1 IH1 H2 IH2|r1 r2 s0 H IH|r1 r2 s0 H IH
                    |r|r s1 s2 H1 IH1 H2 IH2]; intros s Ht; cbn; try done.
    + injection Ht as -> <-. rewrite Hp. constructor.
    + apply append_eq_cons in Ht as [[-> ->]|(s1' & -> & ->)].
      * apply nullable_matches in H1. rewrite H1. apply m_alt_r. by apply IH2.
      * destruct (Re.nullable r1); [apply m_alt_l|]; constructor; auto.
    + apply m_alt_l. by apply IH.
    + apply m_alt_r. by apply IH.
    + apply append_eq_cons in Ht as [[-> ->]|(s1' & -> & ->)].
      * by apply IH2.
      * constructor; auto.
Qed.

(** The matcher decides the language of the pattern. *)
Lemma test_matches r s : Re.test r s = true ↔ re_matches r s.
Proof.
  revert r. induction s as [|c s IH]; intros r; cbn.
  - apply nullable_matches.
  - rewrite IH. apply deriv_matches.
Qed.

Lemma matches_eps s : re_matches Re.Eps s ↔ s = "".
Proof. split; [by inversion 1|intros ->; constructor]. Qed.

Lemma matches_cls p s : re_matches (Re.Cls p) s ↔ ∃ c, s = String c "" ∧ p c = true.
Proof.
  split.
  - inversion 1; subst. by eexists.
  - intros (c & -> & Hp). by constructor.
Qed.

Lemma matches_cat r1 r2 s :
  re_matches (Re.Cat r1 r2) s ↔
  ∃ s1 s2, s = (s1 ++ s2)%string ∧ re_matches r1 s1 ∧ re_matches r2 s2.
Proof.
  split.
  - inversion 1; subst. by eexists _, _.
  - intros (s1 & s2 & -> & H1 & H2). by constructor.
Qed.

Lemma matches_alt r1 r2 s :
  re_matches (Re.Alt r1 r2) s ↔ re_matches r1 s ∨ re_matches r2 s.
Proof.
  split.
  - inversion 1; subst; auto.
  - intros [H|H]; [by apply m_alt_l|by apply m_alt_r].
Qed.

Lemma matches_opt r s : re_matches (Re.opt r) s ↔ s = "" ∨ re_matches r s.
Proof. unfold Re.opt. by rewrite matches_alt, matches_eps. Qed.

Lemma matches_star_cls p s : re_matches (Re.Star (Re.Cls p)) s ↔ all_chars p s = true.
Proof.
  split.
  - intros H. remember (Re.Star (Re.Cls p)) as r eqn:Hr.
    induction H as [| | | | |r'|r' s1 s2 H1 _ H2 IH2]; try done.
    injection Hr as ->. apply matches_cls in H1 as (c & -> & Hc).
    rewrite append_cons, append_nil_l. cbn. rewrite Hc. by apply IH2.
  - induction s as [|c s IH]; cbn; [constructor|].
    intros [Hc Hs]%andb_true_iff.
    change (String c s) with (String c "" ++ s)%string. constructor; [by constructor|auto].
Qed.

Lemma matches_plus_cls p s :
  re_matches (Re.plus (Re.Cls p)) s ↔ s ≠ "" ∧ all_chars p s = true.
Proof.
  unfold Re.plus. rewrite matches_cat. split.
  - intros (s1 & s2 & -> & (c & -> & Hc)%matches_cls & Hs%matches_star_cls).
    rewrite append_cons, append_nil_l. cbn. by rewrite Hc.
  - destruct s as [|c s]; [by intros []|]. cbn. intros [_ [Hc Hs]%andb_true_iff].
    exists (String c ""), s. split; [done|]. split; [by apply matches_cls; eexists|].
    by apply matches_star_cls.
Qed.

Lemma matches_rep_cls n p s :
  re_matches (Re.rep n (Re.Cls p)) s ↔ String.length s = n ∧ all_chars p s = true.
Proof.
  revert s. induction n as [|n IH]; intros s; cbn.
  - rewrite matches_eps. destruct s; split; try done; by intros [[=] _].
  - rewrite matches_cat. split.
    + intros (s1 & s2 & -> & (c & -> & Hc)%matches_cls & [Hl Hs]%IH).
      rewrite append_cons, append_nil_l. cbn. by rewrite Hc, Hl.
    + destruct s as [|c s]; [by intros [[=] _]|]. cbn.
      intros [[= Hl] [Hc Hs]%andb_true_iff].
      exists (String c ""), s. split; [done|]. split; [by apply matches_cls; eexists|].
      by apply IH.
Qed.

Lemma matches_lit w s : re_matches (Re.lit w) s ↔ s = w.
Proof.
  revert s. induction w as [|c w IH]; intros s; cbn.
  - apply matches_eps.
  - rewrite matches_cat. split.
    + intros (s1 & s2 & -> & (c' & -> & Hc)%matches_cls & ->%IH).
      apply Ascii.eqb_eq in Hc as ->. done.
    + intros ->. exists (String c ""), w. split; [done|].
      split; [|by apply IH]. apply matches_cls. exists c. by rewrite Ascii.eqb_refl.
Qed.

Lemma toLowerCase_app s t :
  Js.toLowerCase (s ++ t)%string = (Js.toLowerCase s ++ Js.toLowerCase t)%string.
Proof.
  unfold Js.toLowerCase. induction s as [|c s IH]; [done|].
  change (String (Js.lower_char c) (Js.map_chars Js.lower_char (s ++ t)%string)
          = String (Js.lower_char c)
              (Js.map_chars Js.lower_char s ++ Js.map_chars Js.lower_char t)%string).
  by rewrite IH.
Qed.

(** A literal under the [i] flag matches the strings that are the literal
    up to letter case. *)
Lemma matches_lit_i w s :
  re_matches (Re.lit_i w) s ↔ Js.toLowerCase s = Js.toLowerCase w.
Proof.
  unfold Js.toLowerCase. revert s. induction w as [|c w IH]; intros s; cbn.
  - rewrite matches_eps. by destruct s.
  - rewrite matches_cat. split.
    + intros (s1 & s2 & -> & (c' & -> & Hc)%matches_cls & Hs%IH).
      apply Ascii.eqb_eq in Hc. rewrite append_cons, append_nil_l. cbn.
      by rewrite Hc, Hs.
    + destruct s as [|c' s]; [done|]. cbn. intros [= Hc Hs].
      exists (String c' ""), s. split; [done|]. split; [|by apply IH].
      apply matches_cls. exists c'. split; [done|]. by apply Ascii.eqb_eq.
Qed.

Lemma matches_chr_i c s :
  re_matches (Re.chr_i c) s ↔ Js.toLowerCase s = String (Js.lower_char c) "".
Proof.
  unfold Re.chr_i, Js.toLowerCase. rewrite matches_cls. split.
  - intros (c' & -> & Hc). apply Ascii.eqb_eq in Hc. cbn. by rewrite Hc.
  - destruct s as [|c' [|c'' s]]; cbn; try done. intros [= Hc].
    exists c'. split; [done|]. by apply Ascii.eqb_eq.
Qed.

(** The language of the media-type pattern. *)
Lemma image_re_language s :
  Re.test image_re s = true ↔ Js.toLowerCase s ∈ image_types.
Proof.
  rewrite test_matches. unfold image_re, image_types. split.
  - intros (s1 & s2 & -> & H1%matches_lit_i & H2)%matches_cat.
    rewrite toLowerCase_app, H1.
    apply matches_alt in H2 as [H2%matches_lit_i|H2]; [rewrite H2; cbn; by left|].
    apply matches_alt in H2 as [H2|H2].
    { apply matches_cat in H2 as (x & y & -> & Hx%matches_lit_i & Hy).
      apply matches_cat in Hy as (e & g & -> & He%matches_opt & Hg%matches_chr_i).
      rewrite !toLowerCase_app, Hx, Hg. destruct He as [->|He%matches_chr_i].
      - cbn. right; by left.
      - rewrite He. cbn. right; right; by left. }
    apply matches_alt in H2 as [H2%matches_lit_i|H2%matches_lit_i]; rewrite H2; cbn.
    + do 3 right; by left.
    + do 4 right; by left.
  - intros Hin.
    assert (∃ t, Js.toLowerCase s = ("image/" ++ t)%string
                 ∧ t ∈ ["png"; "jpg"; "jpeg"; "webp"; "gif"]) as (t & Hs & Ht).
    { repeat (apply elem_of_cons in Hin as [->|Hin];
              [eexists; split; [reflexivity|]; repeat constructor|]).
      by apply elem_of_nil in Hin. }
    assert (∀ u v w : string, Js.toLowerCase u = (v ++ w)%string →
              ∃ a b, u = (a ++ b)%string ∧ Js.toLowerCase a = v ∧ Js.toLowerCase b = w)
      as Hsplit.
    { clear. unfold Js.toLowerCase. intros u v. revert u.
      induction v as [|c v IH]; intros u w Hu.
      - by exists "", u.
      - destruct u as [|c' u]; [done|]. injection Hu as Hc Hu.
        destruct (IH u w Hu) as (a & b & -> & Ha & Hb).
        exists (String c' a), b. split; [done|]. split; [|done]. cbn.
        by rewrite Hc, Ha. }
    destruct (Hsplit s "image/" t Hs) as (a & b & -> & Ha & Hb).
    apply matches_cat. exists a, b. split; [done|]. split; [by apply matches_lit_i|].
    repeat (apply elem_of_cons in Ht as [->|Ht]).
    + apply matches_alt. left. by apply matches_lit_i.
    + apply matches_alt. right. apply matches_alt. left.
      destruct (Hsplit b "jp" "g" Hb) as (b1 & b2 & -> & Hb1 & Hb2).
      apply matches_cat. exists b1, b2. split; [done|]. split; [by apply matches_lit_i|].
      apply matches_cat. exists "", b2. split; [done|].
      split; [apply matches_opt; by left|by apply matches_chr_i].
    + apply matches_alt. right. apply matches_alt. left.
      destruct (Hsplit b "jp" "eg" Hb) as (b1 & b2 & -> & Hb1 & Hb2).
      destruct (Hsplit b2 "e" "g" Hb2) as (e & g & -> & He & Hg).
      apply matches_cat. exists b1, (e ++ g)%string. split; [done|].
      split; [by apply matches_lit_i|].
      apply matches_cat. exists e, g. split; [done|].
      split; [apply matches_opt; right; by apply matches_chr_i|by apply matches_chr_i].
    + apply matches_alt. right. apply matches_alt. right. apply matches_alt. left.
      by apply matches_lit_i.
    + apply matches_alt. right. apply matches_alt. right. apply matches_alt. right.
      by apply matches_lit_i.
    + by apply elem_of_nil in Ht.
Qed.

(** X21 — what the upload middleware lets through: an attachment is
    accepted exactly when its media type is, up to letter case, image/png,
    image/jpg, image/jpeg, image/webp or image/gif, and its size is at most
    5 242 880 bytes; a wrong type is refused with "Only image files
    allowed ..." whatever the size, a right type above the limit with "File
    too large"; a form without attachment passes the middleware. *)
Theorem upload_decision file :
  (Js.toLowerCase (mimetype file) ∉ image_types →
   upload_single (Some file)
   = inl "Only image files allowed (png, jpg, jpeg, webp, gif).")
  ∧ (Js.toLowerCase (mimetype file) ∈ image_types → (5242880 < size file)%N →
     upload_single (Some file) = inl "File too large")
  ∧ (Js.toLowerCase (mimetype file) ∈ image_types → (size file ≤ 5242880)%N →
     upload_single (Some file) = inr (Some file))
  ∧ upload_single None = inr None.
Proof.
  unfold upload_single, fileFilter.
  pose proof (image_re_language (mimetype file)) as Hlang.
  destruct (Re.test image_re (mimetype file)).
  - apply proj1 in Hlang. specialize (Hlang eq_refl).
    split; [done|]. split; [|split; [|done]].
    + intros _ Hs. change fileSize with 5242880%N. by apply N.ltb_lt in Hs as ->.
    + intros _ Hs. change fileSize with 5242880%N. by apply N.ltb_ge in Hs as ->.
  - split; [done|]. assert (Js.toLowerCase (mimetype file) ∉ image_types) as Hno.
    { intros Hin. by apply Hlang in Hin. }
    done.
Qed.

Lemma matches_chr c s : re_matches (Re.chr c) s ↔ s = String c "".
Proof.
  unfold Re.chr. rewrite matches_cls. split.
  - intros (c' & -> & ->%Ascii.eqb_eq). done.
  - intros ->. exists c. by rewrite Ascii.eqb_refl.
Qed.

Lemma six_to_nine_digit c :
  (54 <=? Js.code c) && (Js.code c <=? 57) = true → Js.is_digit c = true.
Proof.
  unfold Js.is_digit. rewrite !andb_true_iff, !Nat.leb_le. lia.
Qed.

(** X22 — the phone numbers the schema accepts: exactly the strings of ten
    digits, and the strings made of 91 or +91 followed by ten digits the
    first of which is from 6 to 9.  The rule on the first digit therefore
    only applies after a country prefix: any ten digits pass without one. *)
Theorem phone_format s :
  Re.test Booking.phone_re s = true ↔
  ten_digits s ∨ ∃ t, (s = ("91" ++ t)%string ∨ s = ("+91" ++ t)%string) ∧ mobile t.
Proof.
  rewrite test_matches. unfold Booking.phone_re. cbv zeta.
  rewrite matches_alt, matches_rep_cls. fold (ten_digits s).
  assert (∀ y, re_matches (Re.Cat (Re.Cls (λ c, (54 <=? Js.code c) && (Js.code c <=? 57)))
                                  (Re.rep 9 (Re.Cls Js.is_digit))) y ↔ mobile y) as Hmobile.
  { intros y. rewrite matches_cat. unfold mobile, ten_digits. split.
    - intros (y1 & y2 & -> & (c & -> & Hc)%matches_cls & [Hl Hd]%matches_rep_cls).
      rewrite append_cons, append_nil_l. cbn. rewrite Hl, Hd, (six_to_nine_digit c Hc).
      split; [done|]. by exists c, y2.
    - intros [[Hl Hd] (c & y' & -> & Hc)]. cbn in Hl, Hd.
      apply andb_true_iff in Hd as [_ Hd]. injection Hl as Hl.
      exists (String c ""), y'. split; [done|].
      split; [apply matches_cls; by exists c|]. by apply matches_rep_cls. }
  split.
  - intros [H|H]; [|by left].
    apply matches_cat in H as (x & y & -> & Hx%matches_opt & Hy%Hmobile).
    destruct Hx as [->|Hx].
    + left. rewrite append_nil_l. apply Hy.
    + right. exists y. split; [|done].
      apply matches_cat in Hx as (x1 & x2 & -> & Hx1%matches_opt & ->%matches_lit).
      destruct Hx1 as [-> | ->%matches_chr]; [by left|by right].
  - intros [H|(t & Hs & Ht)]; [by right|]. left.
    apply matches_cat. destruct Hs as [-> | ->].
    + exists "91", t. split; [done|]. split; [|by apply Hmobile].
      apply matches_opt. right. apply matches_cat. exists "", "91".
      split; [done|]. split; [apply matches_opt; by left|by apply matches_lit].
    + exists "+91", t. split; [done|]. split; [|by apply Hmobile].
      apply matches_opt. right. apply matches_cat. exists "+", "91".
      split; [done|]. split; [apply matches_opt; right; by apply matches_chr|].
      by apply matches_lit.
Qed.

(** X23 — the email addresses the schema accepts: exactly the strings made
    of a part, an at sign, a part, a dot and a part, where a part is not
    empty and has neither white space nor at sign; so an accepted address
    has exactly one at sign, no white space, and a dot after the at sign
    that is neither the first nor the last character of the domain. *)
Theorem email_format s :
  Re.test Booking.email_re s = true ↔
  ∃ a b c, s = (a ++ "@" ++ b ++ "." ++ c)%string
           ∧ email_word a ∧ email_word b ∧ email_word c.
Proof.
  rewrite test_matches. unfold Booking.email_re, email_word. cbv zeta. split.
  - intros (a & s1 & -> & Ha%matches_plus_cls & H1)%matches_cat.
    apply matches_cat in H1 as (at_ & s2 & -> & ->%matches_chr & H2).
    apply matches_cat in H2 as (b & s3 & -> & Hb%matches_plus_cls & H3).
    apply matches_cat in H3 as (dot & c & -> & ->%matches_chr & Hc%matches_plus_cls).
    by exists a, b, c.
  - intros (a & b & c & -> & Ha & Hb & Hc).
    apply matches_cat. exists a, ("@" ++ b ++ "." ++ c)%string.
    split; [done|]. split; [by apply matches_plus_cls|].
    apply matches_cat. exists "@", (b ++ "." ++ c)%string.
    split; [done|]. split; [by apply matches_chr|].
    apply matches_cat. exists b, ("." ++ c)%string.
    split; [done|]. split; [by apply matches_plus_cls|].
    apply matches_cat. exists ".", c.
    split; [done|]. split; [by apply matches_chr|by apply matches_plus_cls].
Qed.

(** ** Storage failures *)

(** A failure scheduled inside the loop stops it. *)
Lemma save_loop_hit id found w k :
  fault w = Some k → tick w ≤ k < tick w + length found →
  ∃ w', save_loop id found w = Throw w'.
Proof.
  revert w. induction found as [|p found IH]; intros [d t c f st] Hf Hk;
    cbn in Hf, Hk; subst f; [lia|].
  rewrite save_loop_cons. unfold bind. rewrite save_seat_occupy.
  destruct (validate_seat p.2); [|by eexists].
  unfold fails. cbn [fault tick]. destruct (k =? c) eqn:Hkc; [by eexists|].
  apply Nat.eqb_neq in Hkc.
  match goal with |- context [save_loop id found ?w0] =>
    destruct (IH w0) as [w' ->]; [done|cbn; lia|by eexists] end.
Qed.

(** A failure scheduled before or after the loop lets it end. *)
Lemma save_loop_miss id found w k :
  fault w = Some k → k < tick w ∨ tick w + length found ≤ k →
  forallb (λ p, validate_seat p.2) found = true →
  save_loop id found w =
  Ok tt (mkWorld (db w) (with_seats (txn w) (occupy_all id found (seats (txn w))))
                 (length found + tick w) (Some k) (txn_state w)).
Proof.
  revert w. induction found as [|p found IH]; intros [d t c f st] Hf Hk Hv;
    cbn in Hf, Hk; subst f.
  { by destruct t. }
  cbn in Hv. apply andb_true_iff in Hv as [Hp Hv].
  rewrite save_loop_cons. unfold bind. rewrite save_seat_occupy, Hp.
  unfold fails. cbn [fault tick].
  assert ((k =? c) = false) as -> by (apply Nat.eqb_neq; lia).
  rewrite IH; [|done|(cbn; lia)|done]. cbn. do 2 f_equal. lia.
Qed.

(** The approve handler when the operation of index [k] fails: with [m]
    seats found, the reads have the indices 0 and 1, the saves of the seats
    the indices 2 to [m + 1], the save of the booking the index [m + 2] and
    the commit the index [m + 3]. *)
Lemma approve_faulty k (id : ObjectId) adminNotes d :
  approveBooking (Some k) id adminNotes d =
  if k =? 0 then (Some ApproveFailed, d) else
  match bookings d !! id with
  | None => (Some (error 404 "Booking not found"), d)
  | Some b =>
      if decide (Booking.status b ≠ Booking.pending) then
        (Some (error 400 ("Booking status is " ++ Booking.status_name (Booking.status b)
                          ++ ", cannot approve")), d)
      else if k =? 1 then (Some ApproveFailed, d) else
        let found := (find_in (Booking.seatLabels b) d).1 in
        let missing := missing_labels (Booking.seatLabels b) found in
        let occupied := occupied_labels found in
        if negb (length missing =? 0) then
          (Some (error 400 ("Seats not found: " ++ Js.join ", " missing)), d)
        else if negb (length occupied =? 0) then
          (Some (error 409 ("Seats already occupied: " ++ Js.join ", " occupied)), d)
        else if negb (saves_valid b d) then (Some ApproveFailed, d)
        else if k <? length found + 3 then (Some ApproveFailed, d)
        else if k =? length found + 3 then (None, d)
        else (Some (approved_response id b), approved_db id adminNotes b d)
  end.
Proof.
  rewrite approve_run. unfold approve_try, findById, bind, in_session, await.
  cbn -[append Js.join find_in missing_labels occupied_labels saves_valid Nat.ltb].
  destruct (k =? 0) eqn:H0; [done|]. apply Nat.eqb_neq in H0.
  cbn -[append Js.join find_in missing_labels occupied_labels saves_valid Nat.ltb].
  destruct (bookings d !! id) as [b|] eqn:Hb; [|done].
  cbn -[append Js.join find_in missing_labels occupied_labels saves_valid Nat.ltb].
  case_decide; [done|].
  unfold bind, in_session, await.
  cbn -[append Js.join missing_labels occupied_labels filter saves_valid Nat.ltb].
  destruct (k =? 1) eqn:H1; [done|]. apply Nat.eqb_neq in H1.
  unfold saves_valid, find_in. cbn [fst].
  set (found := filter _ _).
  destruct (negb (length (missing_labels _ found) =? 0)); [done|].
  destruct (negb (length (occupied_labels found) =? 0)); [done|].
  cbn -[append Js.join missing_labels occupied_labels filter save_loop validate forallb
        Nat.ltb Nat.eqb].
  match goal with |- context [save_loop id found ?w0] =>
    pose proof (save_loop_durable id found w0) as Hdur; set (w2 := w0) in * end.
  destruct (forallb _ found) eqn:Hv; cbn [andb negb].
  2: { destruct (save_loop_invalid id found w2 Hv) as [w' Hw'].
       rewrite Hw' in Hdur |- *. by destruct Hdur as [-> ->]. }
  destruct (decide (k < length found + 2)) as [Hlt|Hge].
  { destruct (save_loop_hit id found w2 k) as [w' Hw']; [done|cbn; lia|].
    rewrite Hw' in Hdur |- *. destruct Hdur as [-> ->].
    cbn -[Nat.ltb Nat.eqb validate].
    destruct (validate b); cbn [negb]; [|done].
    by destruct (Nat.ltb_spec k (length found + 3)); [|lia]. }
  rewrite (save_loop_miss id found w2 k) by first [done | cbn; lia]. clear Hdur.
  subst w2. unfold save_booking, throw.
  change (validate (decide_booking Booking.approved (fst <$> found) adminNotes b))
    with (validate b).
  destruct (validate b); cbn [negb]; [|done].
  unfold in_session, await, fails.
  cbn -[append Js.join missing_labels occupied_labels filter Nat.ltb Nat.eqb
        commitTransaction].
  destruct (k =? length found + 2) eqn:H2.
  { apply Nat.eqb_eq in H2. by destruct (Nat.ltb_spec k (length found + 3)); [|lia]. }
  apply Nat.eqb_neq in H2.
  destruct (Nat.ltb_spec k (length found + 3)); [lia|].
  unfold commitTransaction, await, fails.
  cbn -[append Js.join missing_labels occupied_labels filter Nat.eqb].
  replace (k =? S (length found + 2)) with (k =? length found + 3)
    by (f_equal; lia).
  destruct (k =? length found + 3); [done|].
  cbn -[append Js.join missing_labels occupied_labels filter].
  by destruct d.
Qed.

(** X24 — what a storage failure does to an approval or a rejection:
    whichever awaited operation is scheduled to fail, approveBooking does
    what it does without failure (the failure is never reached), or answers
    500 "Approve failed", or leaves the request unanswered; each time but
    the first the database is as it was.  The request is left unanswered
    exactly when the approval would have succeeded and the commit is what
    fails: the abort of the catch block then throws in its turn.
    rejectBooking does what it does without failure or answers
    500 "Reject failed" and leaves the database as it was. *)
Theorem storage_failure_outcome k (id : ObjectId) adminNotes d :
  (approveBooking (Some k) id adminNotes d = approveBooking None id adminNotes d
   ∨ approveBooking (Some k) id adminNotes d = (Some ApproveFailed, d)
   ∨ approveBooking (Some k) id adminNotes d = (None, d))
  ∧ ((approveBooking (Some k) id adminNotes d).1 = None ↔
     ∃ b, bookings d !! id = Some b
          ∧ (approveBooking None id adminNotes d).1 = Some (approved_response id b)
          ∧ k = length (find_in (Booking.seatLabels b) d).1 + 3)
  ∧ (rejectBooking (Some k) id adminNotes d = rejectBooking None id adminNotes d
     ∨ rejectBooking (Some k) id adminNotes d = (Some RejectFailed, d)).
Proof.
  rewrite approve_faulty, approve_no_fault. split; [|split].
  - destruct (k =? 0); [by right; left|].
    destruct (bookings d !! id) as [b|]; [|by left].
    case_decide; [by left|]. destruct (k =? 1); [by right; left|]. cbn zeta.
    destruct (negb (length _ =? 0)); [by left|].
    destruct (negb (length _ =? 0)); [by left|].
    destruct (saves_valid b d); cbn [negb]; [|by left].
    destruct (k <? _); [by right; left|].
    destruct (k =? _); [by right; right|by left].
  - destruct (bookings d !! id) as [b|] eqn:Hb.
    2: { split; [by destruct (k =? 0)|]. by intros (b & [=] & _). }
    split.
    + intros Hnone. exists b. split; [done|]. revert Hnone.
      destruct (k =? 0); [done|]. case_decide; [done|].
      destruct (k =? 1); [done|]. cbn zeta.
      destruct (negb (length _ =? 0)); [done|].
      destruct (negb (length _ =? 0)); [done|].
      destruct (saves_valid b d); cbn [negb]; [|done].
      destruct (k <? _); [done|].
      destruct (k =? _) eqn:Hk; [|done]. by apply Nat.eqb_eq in Hk.
    + intros (b' & [= <-] & Hok & ->).
      replace (_ + 3 =? 0) with false by (symmetry; apply Nat.eqb_neq; lia).
      revert Hok. case_decide; [done|].
      replace (_ + 3 =? 1) with false by (symmetry; apply Nat.eqb_neq; lia).
      cbn zeta.
      destruct (negb (length _ =? 0)); [done|].
      destruct (negb (length _ =? 0)); [done|].
      destruct (saves_valid b d); cbn [negb]; [|done]. intros _.
      rewrite Nat.ltb_irrefl, Nat.eqb_refl. done.
  - rewrite reject_no_fault.
    unfold rejectBooking, run, reject_handler, findById, bind, try_catch, direct, await.
    cbn -[append validate].
    destruct (k =? 0); [by right|]. cbn -[append validate].
    destruct (bookings d !! id) as [b|]; [|by left].
    cbn -[append validate].
    case_decide as Hst; [by left|]. unfold save_booking, throw.
    change (validate (decide_booking Booking.rejected (Booking.seatIds b) adminNotes b))
      with (validate b).
    destruct (validate b); [|by left].
    cbn. destruct (k =? 1); [by right|]. by left.
Qed.

(** The commit of the approval of booking 2 of the sample, the operation
    of index 4, throws: the abort of the catch block throws after it and
    the request stays unanswered; nothing has changed.  The save of the
    booking, of index 3, throws: the answer is 500. *)
Lemma approve_commit_failure_unanswered :
  approveBooking (Some 4) 2 None sample = (None, sample)
  ∧ approveBooking (Some 3) 2 None sample = (Some ApproveFailed, sample).
Proof. split; vm_compute; reflexivity. Qed.

(** ** A release and the booking that held the seat *)

(** X25 — a manual release does not tell the booking: in a state with
    sound occupant links, when the first seat that carries the upper-cased
    label is linked to a booking, releaseSeat makes that seat available and
    unlinked while every booking stays as it was; the booking that held the
    seat is still approved and still lists the seat among its resolved
    references. *)
Theorem release_keeps_booking param d i s b :
  links_sound d →
  seats d !! i = Some s →
  Seat.label s = Js.toUpperCase param →
  (∀ j s', seats d !! j = Some s' → j < i → Seat.label s' ≠ Js.toUpperCase param) →
  Seat.occupiedByBookingId s = Some b →
  let d' := (releaseSeat param d).2 in
  bookings d' = bookings d
  ∧ (∃ s', seats d' !! i = Some s' ∧ Seat.status s' = Seat.available
           ∧ Seat.occupiedByBookingId s' = None)
  ∧ ∃ bk, bookings d' !! b = Some bk ∧ Booking.status bk = Booking.approved
          ∧ i ∈ Booking.seatIds bk.
Proof.
  intros Hsound Hs Hl Hfirst Hlink d'. subst d'.
  assert (findOne (Js.toUpperCase param) (seats d) = Some (i, s)) as Hfind
    by (by apply findOne_Some).
  unfold releaseSeat. rewrite findOneAndUpdate_find, Hfind. cbn.
  split; [done|]. split.
  - eexists. split; [apply list_lookup_insert_eq; by eapply lookup_lt_Some|]. done.
  - destruct (Hsound i s b Hs Hlink) as (_ & bk & Hbk & Hap & Hi & _). by exists bk.
Qed.

(** Seat A2 of the sample, held by booking 2, is released. *)
Lemma release_keeps_booking_witness :
  bookings (releaseSeat "a2" (approved_db 2 None (request ["A2"]) sample)).2
  = bookings (approved_db 2 None (request ["A2"]) sample)
  ∧ (∃ s', seats (releaseSeat "a2" (approved_db 2 None (request ["A2"]) sample)).2 !! 1
           = Some s'
           ∧ Seat.status s' = Seat.available ∧ Seat.occupiedByBookingId s' = None)
  ∧ ∃ bk, bookings (releaseSeat "a2" (approved_db 2 None (request ["A2"]) sample)).2 !! 2
          = Some bk
          ∧ Booking.status bk = Booking.approved ∧ 1 ∈ Booking.seatIds bk.
Proof.
  apply (release_keeps_booking "a2" (approved_db 2 None (request ["A2"]) sample) 1
           (Seat.mk "A2" "A" 2 Seat.primary Seat.occupied (Some 2)) 2).
  - apply (change_links_sound sample); [by apply ch_approve|].
    intros i s b Hs Hlink. exfalso.
    destruct i as [|[|[|[|i]]]]; vm_compute in Hs; [injection Hs as <-..|]; discriminate.
  - reflexivity.
  - reflexivity.
  - intros j s' Hj Hlt. assert (j = 0) as -> by lia. vm_compute in Hj.
    injection Hj as <-. vm_compute. discriminate.
  - reflexivity.
Defined.

(** ** The allow-list of origins *)

Lemma strip_slash_lower o : strip_slash (Js.toLowerCase o) = Js.toLowerCase (strip_slash o).
Proof.
  unfold Js.toLowerCase. induction o as [|c o IH]; [done|].
  destruct o as [|c' o].
  - cbn. assert (Ascii.eqb (Js.lower_char c) "/" = Ascii.eqb c "/") as ->
      by (destruct c as [[] [] [] [] [] [] [] []]; reflexivity).
    by destruct (Ascii.eqb c "/").
  - change (String (Js.lower_char c) (strip_slash (Js.map_chars Js.lower_char (String c' o)))
            = String (Js.lower_char c) (Js.map_chars Js.lower_char (strip_slash (String c' o)))).
    by rewrite IH.
Qed.

(** On ASCII text the lower-case form does not depend on the letter case.
    JavaScript has this law on ASCII text only. *)
Lemma lower_upper_char c :
  Js.is_ascii c = true → Js.lower_char (Js.upper_char c) = Js.lower_char c.
Proof. destruct c as [[] [] [] [] [] [] [] []]; intros H; first [reflexivity | discriminate H]. Qed.

Lemma toLowerCase_toUpperCase s :
  Js.ascii_only s = true → Js.toLowerCase (Js.toUpperCase s) = Js.toLowerCase s.
Proof.
  induction s as [|c s IH]; [done|].
  cbn [Js.ascii_only]. intros [Hc Hs]%andb_true_iff.
  cbn. f_equal; [by apply lower_upper_char|by apply IH].
Qed.

(** Origins with one lower-case form are normalised alike. *)
Lemma normalize_lower o o' :
  Js.toLowerCase o' = Js.toLowerCase o → normalize o' = normalize o.
Proof.
  intros H. unfold normalize. destruct o as [|c o], o' as [|c' o']; try done.
  change (Js.truthy (String c o)) with true.
  change (Js.truthy (String c' o')) with true. cbv iota.
  by rewrite <- !strip_slash_lower, H.
Qed.

Lemma strip_slash_added o : strip_slash (o ++ "/")%string = o.
Proof.
  induction o as [|c o IH]; [done|].
  rewrite append_cons. destruct o as [|c' o]; [done|].
  change (String c (strip_slash (String c' o ++ "/")%string) = String c (String c' o)).
  by rewrite IH.
Qed.

(** X26 — the allow-list of origins: a request without origin is allowed;
    the two local origins are always allowed and so is the configured client
    address; origins with one lower-case form are treated alike, so that an
    origin of ASCII characters is treated as its upper-case form is; and a
    non-empty origin that does not end with a slash is treated the same
    with one slash added. *)
Theorem origin_allow_list clientUrl o :
  originAllowed clientUrl None = true
  ∧ originAllowed clientUrl (Some "") = true
  ∧ originAllowed clientUrl (Some "http://localhost:3000") = true
  ∧ originAllowed clientUrl (Some "http://localhost:5500") = true
  ∧ (clientUrl = Some o → originAllowed clientUrl (Some o) = true)
  ∧ (∀ o', Js.toLowerCase o' = Js.toLowerCase o →
       originAllowed clientUrl (Some o') = originAllowed clientUrl (Some o))
  ∧ (Js.ascii_only o = true →
       originAllowed clientUrl (Some (Js.toUpperCase o)) = originAllowed clientUrl (Some o))
  ∧ (o ≠ "" → strip_slash o = o →
     originAllowed clientUrl (Some (o ++ "/")%string) = originAllowed clientUrl (Some o)).
Proof.
  split; [done|]. split; [done|].
  assert (∀ x, x ≠ "" → originAllowed clientUrl (Some x)
                        = bool_decide (normalize x ∈ allowedOrigins clientUrl)) as Hdef.
  { intros [|c x] Hx; done. }
  assert (∀ o', Js.toLowerCase o' = Js.toLowerCase o →
            originAllowed clientUrl (Some o') = originAllowed clientUrl (Some o)) as Hlow.
  { intros o' H. destruct o as [|c o], o' as [|c' o']; try done.
    rewrite !Hdef by done. by rewrite (normalize_lower _ _ H). }
  split; [|split; [|split; [|split; [|split]]]].
  - rewrite Hdef by done. apply bool_decide_eq_true. unfold allowedOrigins.
    apply list_elem_of_fmap. exists "http://localhost:3000". split; [done|].
    destruct clientUrl as [[|c u]|]; cbn; repeat constructor.
  - rewrite Hdef by done. apply bool_decide_eq_true. unfold allowedOrigins.
    apply list_elem_of_fmap. exists "http://localhost:5500". split; [done|].
    destruct clientUrl as [[|c u]|]; cbn; repeat constructor.
  - intros ->. destruct o as [|c o]; [done|]. rewrite Hdef by done.
    apply bool_decide_eq_true. unfold allowedOrigins.
    apply list_elem_of_fmap. exists (String c o). split; [done|]. cbn. by left.
  - exact Hlow.
  - intros Hascii. apply Hlow. by apply toLowerCase_toUpperCase.
  - destruct o as [|c o]; [done|]. rewrite append_cons, !Hdef by done.
    intros _ Hstrip. f_equal. unfold normalize.
    change (Js.truthy (String c (o ++ "/")%string)) with true.
    change (Js.truthy (String c o)) with true. cbv iota.
    rewrite <- append_cons, strip_slash_added. by rewrite Hstrip.
Qed.
